(** * simulation.model.eval: spinup matching and finite-difference derivatives

    A shallow embedding of [Model] from [src/model/eval.py]: the run
    database (parameter index, spinup chains, partial derivative chains),
    the matching predicate [is_run_matching_options], the spinup engine
    [matching_run_dir], the derivative scheduler [_df] and the point
    evaluation front ends.

    Numbers: simulated years are Python integers ([Z]); tolerances,
    parameters and trajectory values are floating point in the source and
    are modelled by exact rationals ([Q]).  The derivative arrays, whose
    rows are divided by the finite-difference steps, hold [float64]
    values: such a rational, or the [inf], [-inf] or [nan] that a division
    by zero leaves.  Directories are modelled by their position in the
    database layout instead of by path strings. *)

From Stdlib Require Import ZArith QArith Qabs Lqa Lia.
From stdpp Require Import base option list gmap strings.

Local Open Scope Z_scope.

(** ** Directory layout *)

(** [parameter_set_<index>/spinup] and
    [parameter_set_<index>/derivative/<step>/partial_derivative_<i>_<sign>];
    the step size is fixed by the derivative options of the model. *)
Inductive run_chain :=
  | Spinup (index : nat)
  | PartialDerivative (index : nat) (parameter_index : nat) (h_factor : Z).

#[global] Instance run_chain_eq_dec : EqDecision run_chain.
Proof. solve_decision. Defined.

Definition run_chain_encode (c : run_chain) : nat + nat * nat * Z :=
  match c with
  | Spinup i => inl i
  | PartialDerivative i p s => inr (i, p, s)
  end.

Definition run_chain_decode (x : nat + nat * nat * Z) : run_chain :=
  match x with
  | inl i => Spinup i
  | inr (i, p, s) => PartialDerivative i p s
  end.

#[global] Instance run_chain_countable : Countable run_chain.
Proof.
  apply (inj_countable' run_chain_encode run_chain_decode).
  intros []; reflexivity.
Defined.

(** A run directory [<chain>/run_<k>]. *)
Definition run_dir : Type := run_chain * nat.

(** Where a job writes: a run directory of the database, or the temporary
    directory made by [tempfile.mkdtemp] in [_get_trajectory]. *)
Inductive output_path :=
  | RunPath (rd : run_dir)
  | TrajectoryTmp.

(** ** Jobs *)

(** Which entry of [job_setup_collection] a job is started with. *)
Inductive job_kind := KindSpinup | KindDerivative | KindTrajectory.

(** The arguments of [Metos3D_Job.write_job_file] that [start_run] passes
    on ([model_name] and [time_step] are fixed per model). *)
Record job_request := {
  req_model_parameters : list Q;
  req_years : Z;
  req_tolerance : Q;
  req_total_concentration_factor : Q;
  req_write_trajectory : bool;
  req_tracer_input_dir : option run_dir;
  req_job_setup : job_kind;
}.

(** What a job handle opened on a run directory reads back. *)
Record job := {
  job_request_of : job_request;
  last_year : Z;
  last_tolerance : Q;
}.

Definition tracer_input_dir (j : job) : option run_dir :=
  req_tracer_input_dir (job_request_of j).

(** ** Exceptions, events, world *)

Inductive value_error :=
  | CombinationUnknown (combination : string)
  | PointsLength (len : nat)
  | MaskLength (mask_len parameters_len : nat)
  | AccuracyOrderNotSupported (accuracy_order : Z)
  | TotalConcentrationFactorNegative (factor : Q)
  | ModelParametersLength (expected actual : nat)
  | BelowLowerBound
  | AboveUpperBound
  | ZeroSizeReduction
  | Broadcast (shape other : nat).

Inductive exn :=
  | ValueError (e : value_error)
  | TypeError
  | OSError
  | UnboundLocalError
  | IndexError
  | AssertionError
  | RecursionError.

Inductive warning :=
  | SearchPathWarning (c : run_chain)
  | MaxSpinupYearsWarning (rd : run_dir) (tolerance : Q) (max_years : Z).

Inductive event :=
  | EvWarn (w : warning)
  | EvAddValue (index : nat) (entry : list Q)
  | EvMakeRunDir (rd : run_dir)
  | EvStartRun (out : output_path) (req : job_request)
  | EvWait (out : output_path)
  | EvRemoveRun (rd : run_dir)
  | EvRemoveTrajectoryTmp.

(** The database on disk and what happened to it.  [fs] maps a chain
    directory to its run directories in order; a run directory holds
    [None] while it has no readable job options file.  A chain that is
    not in [fs] is a directory that does not exist. *)
Record world := {
  db : list (list Q);
  fs : gmap run_chain (list (option job));
  trace : list event;
}.

Definition result (A : Type) : Type := exn + A.

(** State and exceptions: the world survives a raise. *)
Definition M (A : Type) : Type := world -> result A * world.

Definition ret {A} (a : A) : M A := fun w => (inr a, w).
Definition raise {A} (e : exn) : M A := fun w => (inl e, w).
Definition bind {A B} (m : M A) (k : A -> M B) : M B :=
  fun w => match m w with
           | (inr a, w') => k a w'
           | (inl e, w') => (inl e, w')
           end.
(** [try: m except OSError: h] *)
Definition try_except_OSError {A} (m : M A) (h : M A) : M A :=
  fun w => match m w with
           | (inl OSError, w') => h w'
           | r => r
           end.

(** Code without effects lives in [result] and enters [M] by [lift]. *)
Definition rbind {A B} (r : result A) (k : A -> result B) : result B :=
  match r with
  | inr a => k a
  | inl e => inl e
  end.
Definition lift {A} (r : result A) : M A := fun w => (r, w).

#[local] Notation "'do' x <- m ; k" := (bind m (fun x => k))
  (at level 10, x binder, m at level 100, k at level 200,
   format "'[v' 'do'  x  <-  m ; '/' k ']'").
#[local] Notation "'run' m ; k" := (bind m (fun _ => k))
  (at level 10, m at level 100, k at level 200,
   format "'[v' 'run'  m ; '/' k ']'").
#[local] Notation "'get' x <- r ; k" := (rbind r (fun x => k))
  (at level 10, x binder, r at level 100, k at level 200,
   format "'[v' 'get'  x  <-  r ; '/' k ']'").
#[local] Notation "'check' r ; k" := (rbind r (fun _ => k))
  (at level 10, r at level 100, k at level 200,
   format "'[v' 'check'  r ; '/' k ']'").

Definition get_world : M world := fun w => (inr w, w).
Definition emit (e : event) : M unit :=
  fun w => (inr tt, {| db := db w; fs := fs w; trace := trace w ++ [e] |}).
Definition set_fs (f : gmap run_chain (list (option job))) : M unit :=
  fun w => (inr tt, {| db := db w; fs := f; trace := trace w |}).
Definition set_db (d : list (list Q)) : M unit :=
  fun w => (inr tt, {| db := d; fs := fs w; trace := trace w |}).
Definition warn (x : warning) : M unit := emit (EvWarn x).

(** ** Spinup options *)

Record spinup_options := {
  years : Z;
  tolerance : Q;
  combination : string;
}.

Definition Qleb (a b : Q) : bool := Qle_bool a b.
Definition Qltb (a b : Q) : bool := negb (Qle_bool b a).

(** [parameters_or_parameter_set_dir]: a parameter vector, or the
    directory of a parameter set (a [str] in the source). *)
Inductive parameters_or_dir :=
  | Parameters (parameters : list Q)
  | ParameterSetDir (index : nat).

(** Upper bounds: the bound of the total concentration factor is
    [float('inf')]. *)
Inductive bound := Finite (q : Q) | Infinity.

Definition Qeqb (a b : Q) : bool := Qeq_bool a b.

(** [for x in l: s = body(x, s)] *)
Fixpoint for_each {A S} (l : list A) (body : A -> S -> M S) (s : S) : M S :=
  match l with
  | [] => ret s
  | x :: l' => do s' <- body x s; for_each l' body s'
  end.

(** [for x in l: s = body(x, s)] in code without effects *)
Fixpoint rfor_each {A S} (l : list A) (body : A -> S -> result S) (s : S)
    : result S :=
  match l with
  | [] => inr s
  | x :: l' => get s' <- body x s; rfor_each l' body s'
  end.

(** [l[i]] *)
Definition index_or_raise {A} (l : list A) (i : nat) : result A :=
  match l !! i with
  | Some x => inr x
  | None => inl IndexError
  end.

(** [l[-1]] and [l[:-1]] *)
Definition last_or_raise {A} (l : list A) : result A :=
  match last l with
  | Some x => inr x
  | None => inl IndexError
  end.
Definition but_last {A} (l : list A) : list A := removelast l.

(** [l[-1] = x] *)
Definition set_last {A} (l : list A) (x : A) : list A :=
  <[Nat.pred (length l) := x]> l.

(** numpy in-place arithmetic [a op= b] on arrays of one dimension: [b]
    has the length of [a], or length 1 and is broadcast. *)
Definition broadcast_to {A} (n : nat) (b : list A) : result (list A) :=
  if (length b =? n)%nat then inr b
  else match b with
       | [x] => inr (replicate n x)
       | _ => inl (ValueError (Broadcast n (length b)))
       end.

Definition inplace {A} (op : A -> A -> A) (a b : list A) : result (list A) :=
  match broadcast_to (length a) b with
  | inr b' => inr (zip_with op a b')
  | inl e => inl e
  end.

(** [int(np.sign(q))] *)
Definition Qsign (q : Q) : Z := Z.sgn (Qnum q).

(** [(-1)**n] *)
Definition minus_one_pow (n : nat) : Q := if Nat.even n then 1%Q else (-1)%Q.

(** An element of a float64 array that holds quotients: a number (as
    everywhere, the rounding of floating point is not modelled), or one
    of the values that a division by zero leaves in the array: [inf],
    [-inf] and [nan]. *)
Inductive float64 :=
  | Num (q : Q)
  | PlusInf
  | MinusInf
  | NaN.

Definition fl_opp (x : float64) : float64 :=
  match x with
  | Num a => Num (- a)
  | PlusInf => MinusInf
  | MinusInf => PlusInf
  | NaN => NaN
  end.

(** [x + y] *)
Definition fl_add (x y : float64) : float64 :=
  match x, y with
  | Num a, Num b => Num (a + b)
  | NaN, _ | _, NaN => NaN
  | PlusInf, MinusInf | MinusInf, PlusInf => NaN
  | PlusInf, _ | _, PlusInf => PlusInf
  | MinusInf, _ | _, MinusInf => MinusInf
  end.

(** [x - y] *)
Definition fl_sub (x y : float64) : float64 := fl_add x (fl_opp y).

(** [x / y] on arrays: numpy does not raise on a zero divisor (it
    reports a RuntimeWarning of its own, which is no event of this
    model); the quotient is [nan] for 0 / 0 and otherwise an infinity
    with the sign of the dividend.  A zero divisor is taken as +0.0,
    which is what a difference of two equal numbers and a sum of
    absolute values are. *)
Definition fl_div (x y : float64) : float64 :=
  match x, y with
  | NaN, _ | _, NaN => NaN
  | Num a, Num b =>
      if Qeqb b 0 then
        if Qeqb a 0 then NaN else if Qltb 0 a then PlusInf else MinusInf
      else Num (a / b)
  | Num _, _ => Num 0
  | _, PlusInf | _, MinusInf => NaN
  | PlusInf, Num b => if Qltb b 0 then MinusInf else PlusInf
  | MinusInf, Num b => if Qltb b 0 then PlusInf else MinusInf
  end.

(** [np.isnan] *)
Definition fl_isnan (x : float64) : bool :=
  match x with
  | NaN => true
  | _ => false
  end.

Definition violates_lower (value lower : Q) : bool := Qltb value lower.
Definition violates_upper (value : Q) (upper : bound) : bool :=
  match upper with
  | Finite u => Qltb u value
  | Infinity => false
  end.

(** [np.sum(np.abs(a))] *)
Definition sum_abs (a : list Q) : Q := fold_left Qplus (map Qabs a) 0%Q.

(** [a[mask]] for a boolean mask over the first axis *)
Definition select_rows {A} (mask : list bool) (a : list A) : list A :=
  map snd (List.filter fst (zip mask a)).

(** [np.where(a > 0)[1]] for an array of two dimensions *)
Definition where_positive_axis_1 (a : list (list Z)) : list nat :=
  flat_map (fun row => List.filter (fun j => 0 <? nth j row 0)
                         (seq 0 (length row))) a.

(** ** A small model to run the definitions on *)

Module Example.

(** Exact lookup in the parameter database. *)
Fixpoint db_index_from (i : nat) (db : list (list Q)) (entry : list Q)
    : option nat :=
  match db with
  | [] => None
  | x :: db' =>
      if (length x =? length entry)%nat
         && forallb (fun ab => Qeq_bool ab.1 ab.2) (zip x entry)
      then Some i
      else db_index_from (S i) db' entry
  end.
Definition db_index := db_index_from 0.
Definition db_closest_index (db : list (list Q)) (entry : list Q)
    : option nat := None.
Definition db_closest_indices (db : list (list Q)) (entry : list Q)
    : list nat := seq 0 (length db).

(** A job simulates the years it is asked for and reaches the
    tolerance 1 / (years + 1). *)
Definition metos3d (fs : gmap run_chain (list (option job))) (req : job_request)
    : Z * Q :=
  (req_years req, 1 # Z.to_pos (req_years req + 1)).

(** The trajectory of tracer [t] is the single value
    (t + 1) * (sum of the model parameters). *)
Definition metos3d_trajectory (fs : gmap run_chain (list (option job)))
    (req : job_request) : list Q :=
  req_model_parameters req.
Definition load : list Q -> nat -> result (list Q) :=
  fun model_parameters t =>
    inr [(inject_Z (Z.of_nat (S t)) * fold_right Qplus 0%Q model_parameters)%Q].

Definition spinup_job (years : Z) (tolerance : Q) : job :=
  {| job_request_of :=
       {| req_model_parameters := [3%Q; 4%Q];
          req_years := years;
          req_tolerance := 0;
          req_total_concentration_factor := 1;
          req_write_trajectory := false;
          req_tracer_input_dir := None;
          req_job_setup := KindSpinup |};
     last_year := years;
     last_tolerance := tolerance |}.

Definition empty_world : world := {| db := []; fs := ∅; trace := [] |}.

(** One parameter set whose spinup chain holds one run. *)
Definition world_with_run (years : Z) (tolerance : Q) : world :=
  {| db := [[3%Q; 4%Q; 1%Q]];
     fs := {[ Spinup 0 := [Some (spinup_job years tolerance)] ]};
     trace := [] |}.

End Example.

(** ** Model options

    The blocks of [Model.__init__] that read [model_options] and
    [job_setup], and [Model.job_setup]. *)
Module Init.

Inductive value_error :=
  | ModelNameUnknown (name : string)
  | WrongTimeStep (time_step : Z)
  | RelativeToleranceLength (len parameter_len : nat)
  | AbsoluteToleranceLength (len parameter_len : nat).

Inductive option_value := OInt (z : Z) | OFloat (q : Q) | OStr (s : string).

Inductive error :=
  | KeyError (key : string)
  | ValueError (e : value_error)
  | CombinationValueError (combination : option_value)
  | IndexError
  | AssertionError
  | ZeroDivisionError
  | AttributeError
  | TypeError.

Definition ebind {A B} (r : error + A) (k : A -> error + B) : error + B :=
  match r with
  | inl e => inl e
  | inr a => k a
  end.

#[local] Notation "'gets' x <- r ; k" := (ebind r (fun x => k))
  (at level 10, x binder, r at level 100, k at level 200,
   format "'[v' 'gets'  x  <-  r ; '/' k ']'").

(** "set model name" *)
Definition set_model_name (MODEL_NAMES : list string) (model_name : option string)
    : error + string :=
  match model_name with
  | None =>
      match MODEL_NAMES !! 0%nat with
      | Some name => inr name
      | None => inl IndexError
      end
  | Some name =>
      if negb (bool_decide (name ∈ MODEL_NAMES))
      then inl (ValueError (ModelNameUnknown name))
      else inr name
  end.

Definition set_default_options
    (current_options : option (gmap string option_value))
    (default_options : gmap string option_value) : gmap string option_value :=
  match current_options with
  | Some current_options =>
      map_fold (fun key value current_options =>
                  match current_options !! key with
                  | Some _ => current_options
                  | None => <[key := value]> current_options
                  end)
        current_options default_options
  | None => default_options
  end.

(** "set spinup options" *)
Definition set_spinup_options
    (MODEL_DEFAULT_SPINUP_OPTIONS : gmap string option_value)
    (spinup_options : option (gmap string option_value))
    : error + gmap string option_value :=
  let spinup_options :=
    set_default_options spinup_options MODEL_DEFAULT_SPINUP_OPTIONS in
  match spinup_options !! "combination" with
  | None => inl (KeyError "combination")
  | Some combination =>
      let known :=
        match combination with
        | OStr s => String.eqb s "and" || String.eqb s "or"
        | _ => false
        end in
      if negb known then inl (CombinationValueError combination)
      else inr spinup_options
  end.



(** "set tolerance options" *)
Record tolerance_options := {
  relative : option (list Q);
  absolute : option (list Q);
}.

Definition set_tolerance_options (model_parameter_len : nat)
    (total_concentration_factor_included_in_parameters : bool)
    (parameter_tolerance_options : option tolerance_options)
    : error + tolerance_options :=
  let parameter_len :=
    (model_parameter_len
     + if total_concentration_factor_included_in_parameters then 1 else 0)%nat in
  match parameter_tolerance_options with
  | None => inr {| relative := None; absolute := None |}
  | Some given =>
      gets relative <-
        (match relative given with
         | None => inr None
         | Some relative =>
             if negb ((length relative =? 1)%nat
                      || (length relative =? parameter_len)%nat)
             then inl (ValueError (RelativeToleranceLength (length relative)
                                     parameter_len))
             else if (1 <? length relative)%nat
                     && negb total_concentration_factor_included_in_parameters
             then inr (Some (relative ++ [0%Q]))
             else inr (Some relative)
         end);
      gets absolute <-
        (match absolute given with
         | None => inr None
         | Some absolute =>
             if negb ((length absolute =? 1)%nat
                      || (length absolute =? parameter_len)%nat)
             then inl (ValueError (AbsoluteToleranceLength (length absolute)
                                     parameter_len))
             else if (1 <? length absolute)%nat
                     && negb total_concentration_factor_included_in_parameters
             then inr (Some (absolute ++ [1 # 1000000000000]))
             else inr (Some absolute)
         end);
      inr {| relative := relative; absolute := absolute |}
  end.

(** *** Job setups *)

Section JobSetup.

(** [util.batch.universal.system.NodeSetup], and how such an object
    answers [.copy()], [[key]] and [[key] = value]. *)
Variable node_setup : Type.

(** What a job setup dictionary holds. *)
#[warnings="-register-all"]
Inductive setup_value :=
  | SNone
  | SStr (s : string)
  | SInt (z : Z)
  | SNodes (n : node_setup)
  | SDict (d : gmap string setup_value).

Variable nodes_copy : node_setup -> error + setup_value.
Variable nodes_getitem : node_setup -> string -> error + setup_value.
Variable nodes_setitem : node_setup -> string -> setup_value -> error + setup_value.

(** [v.copy()] *)
Definition copy (v : setup_value) : error + setup_value :=
  match v with
  | SDict d => inr (SDict d)
  | SNodes n => nodes_copy n
  | SNone | SStr _ | SInt _ => inl AttributeError
  end.

(** [v[key]] *)
Definition getitem (v : setup_value) (key : string) : error + setup_value :=
  match v with
  | SDict d =>
      match d !! key with
      | Some x => inr x
      | None => inl (KeyError key)
      end
  | SNodes n => nodes_getitem n key
  | SNone | SStr _ | SInt _ => inl TypeError
  end.

(** [v[key] = x] *)
Definition setitem (v : setup_value) (key : string) (x : setup_value)
    : error + setup_value :=
  match v with
  | SDict d => inr (SDict (<[key := x]> d))
  | SNodes n => nodes_setitem n key x
  | SNone | SStr _ | SInt _ => inl TypeError
  end.

(** "if not passed, use default job setups", for [kind] taken from
    [from] *)
Definition use_default_job_setup (kind from : string)
    (job_setup_collection : gmap string setup_value)
    : error + gmap string setup_value :=
  match job_setup_collection !! kind with
  | Some _ => inr job_setup_collection
  | None =>
      gets source <- (match job_setup_collection !! from with
                     | Some source => inr source
                     | None => inl (KeyError from)
                     end);
      gets setup <- copy source;
      gets setup <- setitem setup "nodes_setup" SNone;
      inr (<[kind := setup]> job_setup_collection)
  end.

(** "if no name passed, use default name", for one kind *)
Definition use_default_name (default_name : setup_value) (kind : string)
    (job_setup_collection : gmap string setup_value)
    : error + gmap string setup_value :=
  let named :=
    gets setup <- (match job_setup_collection !! kind with
                  | Some setup => inr setup
                  | None => inl (KeyError kind)
                  end);
    getitem setup "name" in
  match named with
  | inr _ => inr job_setup_collection
  | inl (KeyError _) =>
      gets setup <- (match job_setup_collection !! kind with
                    | Some setup => inr setup
                    | None => inl (KeyError kind)
                    end);
      gets setup <- setitem setup "name" default_name;
      inr (<[kind := setup]> job_setup_collection)
  | inl e => inl e
  end.

(** "set job setup collection" *)
Definition set_job_setup_collection (job_setup : option (gmap string setup_value))
    : error + gmap string setup_value :=
  let job_setup := default ∅ job_setup in
  let kinds := ["spinup"; "derivative"; "trajectory"] in
  let job_setup_collection :=
    if existsb (fun kind => bool_decide (is_Some (job_setup !! kind))) kinds
    then job_setup
    else {[ "spinup" := SDict job_setup ]} in
  let job_setup_collection :=
    match job_setup_collection !! "spinup" with
    | Some _ => job_setup_collection
    | None => <["spinup" := SDict ∅]> job_setup_collection
    end in
  gets job_setup_collection <-
    use_default_job_setup "derivative" "spinup" job_setup_collection;
  gets job_setup_collection <-
    use_default_job_setup "trajectory" "derivative" job_setup_collection;
  let default_name := default (SStr "") (job_setup !! "name") in
  gets job_setup_collection <-
    use_default_name default_name "spinup" job_setup_collection;
  gets job_setup_collection <-
    use_default_name default_name "derivative" job_setup_collection;
  use_default_name default_name "trajectory" job_setup_collection.

(** [Model.job_setup] *)
Definition job_setup (job_setup_collection : gmap string setup_value)
    (kind : string) : error + setup_value :=
  gets job_setup <- (match job_setup_collection !! kind with
                    | Some job_setup => inr job_setup
                    | None => inl (KeyError kind)
                    end);
  gets job_setup <- copy job_setup;
  let with_copied_nodes_setup :=
    gets nodes_setup <- getitem job_setup "nodes_setup";
    gets nodes_setup <- copy nodes_setup;
    setitem job_setup "nodes_setup" nodes_setup in
  match with_copied_nodes_setup with
  | inr job_setup => inr job_setup
  | inl (KeyError _) => inr job_setup
  | inl e => inl e
  end.

(** A job setup whose [nodes_setup] is None. *)
Definition without_nodes_setup (v : setup_value) : Prop :=
  exists d, v = SDict d /\ d !! "nodes_setup" = Some SNone.

End JobSetup.

End Init.

Section Model.

(** [simulation.model.constants] (not part of the sources at hand). *)
Variable MODEL_SPINUP_MAX_YEARS : Z.

(** *** Job handles *)

(** Modelled from the spec: [simulation.model.job.Metos3D_Job] opened with
    [force_load=True]; "expected run/job metadata missing on forced load"
    is a not-found condition propagated to the caller, which the callers
    in [eval.py] catch as [OSError]. *)
Definition open_job_force_load (rd : run_dir) : M job :=
  do w <- get_world;
  match fs w !! rd.1 with
  | Some runs =>
      match runs !! rd.2 with
      | Some (Some j) => ret j
      | _ => raise OSError
      end
  | None => raise OSError
  end.

(** *** Access to run directories *)

Definition run_dirs (search_path : run_chain) : M (list run_dir) :=
  do w <- get_world;
  match fs w !! search_path with
  | Some runs => ret (map (fun k => (search_path, k)) (seq 0 (length runs)))
  | None => run warn (SearchPathWarning search_path); ret []
  end.

Definition last_run_dir (search_path : run_chain) : M (option run_dir) :=
  do dirs <- run_dirs search_path;
  let last_run_index := Z.of_nat (length dirs) - 1 in
  if 0 <=? last_run_index then
    let last_run_dir := (search_path, Z.to_nat last_run_index) in
    run open_job_force_load last_run_dir;
    ret (Some last_run_dir)
  else ret None.

Definition previous_run_dir (rd : option run_dir) : M (option run_dir) :=
  match rd with
  | None => raise TypeError
  | Some (spinup_dir, run_index) =>
      if (0 <? Z.of_nat run_index)%Z then ret (Some (spinup_dir, Nat.pred run_index))
      else ret None
  end.

(** *** Access to run properties *)

(** The [while run_dir is not None] loop of [get_total_years], entered at
    [run_<k>]; [previous_run_dir] only decrements the run index. *)
Fixpoint get_total_years_loop (c : run_chain) (k : nat) (total_years : Z) : M Z :=
  do j <- open_job_force_load (c, k);
  let total_years := total_years + last_year j in
  match k with
  | O => ret total_years
  | S k' => get_total_years_loop c k' total_years
  end.

Definition get_total_years (rd : option run_dir) : M Z :=
  match rd with
  | None => ret 0
  | Some (c, k) => get_total_years_loop c k 0
  end.

Definition get_real_tolerance (rd : run_dir) : M Q :=
  do j <- open_job_force_load rd;
  ret (last_tolerance j).

Definition is_run_matching_options (rd : option run_dir) (opts : spinup_options) : M bool :=
  let years := years opts in
  let tolerance := tolerance opts in
  let combination := combination opts in
  match rd with
  | Some run_dir =>
      do run_years <- get_total_years (Some run_dir);
      do run_tolerance <- get_real_tolerance run_dir;
      if String.eqb combination "and" then
        let is_matching :=
          ((years <=? run_years) && Qleb run_tolerance tolerance)
          || (MODEL_SPINUP_MAX_YEARS <=? run_years) in
        run (if is_matching && Qltb tolerance run_tolerance
             then warn (MaxSpinupYearsWarning run_dir tolerance MODEL_SPINUP_MAX_YEARS)
             else ret tt);
        ret is_matching
      else if String.eqb combination "or" then
        ret ((years <=? run_years) || Qleb run_tolerance tolerance)
      else raise (ValueError (CombinationUnknown combination))
  | None => ret false
  end.

(** *** Model options *)

Variable total_concentration_factor_included_in_parameters : bool.
Variables parameters_lower_bound parameters_upper_bound
          parameters_typical_values : list Q.

(** [util.index_database.array_and_fs_based.Database]: the lookup of an
    entry within the tolerances of the database, and the stored indices
    closest to an entry. *)
Variable db_index : list (list Q) -> list Q -> option nat.
Variable db_closest_index : list (list Q) -> list Q -> option nat.
Variable db_closest_indices : list (list Q) -> list Q -> list nat.

(** The external simulation: years simulated and tolerance reached by a
    job, given the database it is started on. *)
Variable metos3d : gmap run_chain (list (option job)) -> job_request -> Z * Q.

Definition model_parameter_len : nat := length parameters_lower_bound.

(** *** Checking model parameters *)

Definition metos3d_model_parameters_dict (parameters : list Q)
    : result (list Q * Q) :=
  if total_concentration_factor_included_in_parameters then
    let model_parameters := but_last parameters in
    get total_concentration_factor <- last_or_raise parameters;
    inr (model_parameters, total_concentration_factor)
  else inr (parameters, 1%Q).

(** [any(a < b)] on arrays of one length *)
Definition any_lt (a b : list Q) : bool :=
  existsb (fun ab => Qltb ab.1 ab.2) (zip a b).

Definition check_parameters (parameters : list Q) : result (list Q) :=
  get parameters_dict <- metos3d_model_parameters_dict parameters;
  let model_parameters := parameters_dict.1 in
  check (if total_concentration_factor_included_in_parameters then
           let total_concentration_factor := parameters_dict.2 in
           if Qltb total_concentration_factor 0
           then inl (ValueError
                       (TotalConcentrationFactorNegative total_concentration_factor))
           else inr tt
         else inr tt);
  if negb (length model_parameters =? model_parameter_len)%nat then
    inl (ValueError
           (ModelParametersLength model_parameter_len (length model_parameters)))
  else if any_lt model_parameters parameters_lower_bound then
    inl (ValueError BelowLowerBound)
  else if any_lt parameters_upper_bound model_parameters then
    inl (ValueError AboveUpperBound)
  else inr parameters.

(** [total_concentration_factor_included_in_database_entry] is [True]. *)
Definition database_parameter_entry (parameters : list Q) : result (list Q) :=
  check check_parameters parameters;
  if total_concentration_factor_included_in_parameters then inr parameters
  else inr (parameters ++ [1%Q]).

Definition database_parameter_entry_to_metos3d_model_parameters_dict
    (database_parameter_entry : list Q) : result (list Q * Q) :=
  let model_parameters := but_last database_parameter_entry in
  get total_concentration_factor <- last_or_raise database_parameter_entry;
  inr (model_parameters, total_concentration_factor).

(** *** Access to directories *)

Definition add_value (entry : list Q) : M nat :=
  do w <- get_world;
  let index := length (db w) in
  run set_db (db w ++ [entry]);
  run emit (EvAddValue index entry);
  ret index.

Definition parameter_set_dir_with_index (index : option nat) : option nat := index.

Definition closest_parameter_set_dir (parameters : list Q) (no_spinup_okay : bool)
    : M (option nat) :=
  do database_parameter_entry <- lift (database_parameter_entry parameters);
  do w <- get_world;
  do closest_index <-
    (if no_spinup_okay then
       ret (db_closest_index (db w) database_parameter_entry)
     else
       let closest_indices := db_closest_indices (db w) database_parameter_entry in
       let i := 0%nat in
       (* the loop condition subscripts the method [spinup_dir_with_index] *)
       run (if (i <? length closest_indices)%nat then raise TypeError else ret tt);
       if (i <? length closest_indices)%nat then ret (closest_indices !! i)
       else ret None);
  ret (parameter_set_dir_with_index closest_index).

Definition parameter_set_dir (parameters : list Q) (create : bool) : M (option nat) :=
  do database_parameter_entry <- lift (database_parameter_entry parameters);
  do w <- get_world;
  do index <-
    (match db_index (db w) database_parameter_entry with
     | None =>
         if create then do i <- add_value database_parameter_entry; ret (Some i)
         else ret None
     | Some i => ret (Some i)
     end);
  let parameter_set_dir := parameter_set_dir_with_index index in
  if negb (bool_decide (is_Some parameter_set_dir) || negb create)
  then raise AssertionError
  else ret parameter_set_dir.

(** Returns the index of the parameter set whose spinup directory it is. *)
Definition spinup_dir (p : parameters_or_dir) (create : bool) : M nat :=
  do parameter_set_dir <-
    (match p with
     | ParameterSetDir d => ret (Some d)
     | Parameters parameters => parameter_set_dir parameters create
     end);
  match parameter_set_dir with
  | Some d => ret d
  | None => raise TypeError
  end.

(** [np.loadtxt(parameter_file)]: the entry stored for the index. *)
Definition loadtxt_parameters (parameter_set_dir : nat) : M (list Q) :=
  do w <- get_world;
  match db w !! parameter_set_dir with
  | Some entry => ret entry
  | None => raise OSError
  end.

Definition make_new_run_dir (output_path : run_chain) : M run_dir :=
  do w <- get_world;
  (* os.makedirs(output_path, exist_ok=True) *)
  run (match fs w !! output_path with
       | None => set_fs (<[output_path := []]> (fs w))
       | Some _ => ret tt
       end);
  do dirs <- run_dirs output_path;
  let next_run_index := length dirs in
  let run_dir := (output_path, next_run_index) in
  (* os.makedirs(run_dir, exist_ok=False) *)
  do w <- get_world;
  run set_fs (alter (fun runs => runs ++ [None]) output_path (fs w));
  run emit (EvMakeRunDir run_dir);
  ret run_dir.

(** *** Running jobs *)

Definition wait_until_run_job_finished (out : output_path) : M unit :=
  run (match out with
       | RunPath rd => run open_job_force_load rd; ret tt
       | TrajectoryTmp => ret tt
       end);
  emit (EvWait out).

Definition start_run (model_parameters : list Q) (output_path : output_path)
    (years : Z) (tolerance : Q) (job_setup : job_kind) (write_trajectory : bool)
    (total_concentration_factor : Q) (tracer_input_dir : option run_dir)
    (wait_until_finished : bool) : M unit :=
  let req := Build_job_request model_parameters years tolerance
               total_concentration_factor write_trajectory tracer_input_dir
               job_setup in
  do w <- get_world;
  run (match output_path with
       | RunPath (c, k) =>
           let outcome := metos3d (fs w) req in
           let j := {| job_request_of := req;
                       last_year := outcome.1;
                       last_tolerance := outcome.2 |} in
           set_fs (alter (fun runs => <[k := Some j]> runs) c (fs w))
       | TrajectoryTmp => ret tt
       end);
  run emit (EvStartRun output_path req);
  if wait_until_finished then wait_until_run_job_finished output_path
  else ret tt.

(** *** The spinup matching engine *)

(** The body of [matching_run_dir]; [self] stands for the method itself
    in its two recursive calls. *)
Definition matching_run_dir_body
    (self : parameters_or_dir -> spinup_options -> bool -> M (option run_dir))
    (parameters_or_parameter_set_dir : parameters_or_dir)
    (opts : spinup_options) (start_from_closest_parameters : bool)
    : M (option run_dir) :=
  do spinup_dir <- spinup_dir parameters_or_parameter_set_dir true;
  let parameter_set_dir := spinup_dir in
  do last_run <- last_run_dir (Spinup spinup_dir);
  do is_matching <- is_run_matching_options last_run opts;
  if is_matching then ret last_run
  else
    do parameters <- loadtxt_parameters parameter_set_dir;
    do last_run <-
      (if bool_decide (last_run = None) && start_from_closest_parameters then
         do closest_parameter_set_dir <- closest_parameter_set_dir parameters false;
         match closest_parameter_set_dir with
         | None => raise TypeError
         | Some closest => last_run_dir (Spinup closest)
         end
       else ret last_run);
    run (match last_run with
         | Some d => wait_until_run_job_finished (RunPath d)
         | None => ret tt
         end);
    let years := years opts in
    let tolerance := tolerance opts in
    let combination := combination opts in
    if String.eqb combination "or" then
      do run_dir <- make_new_run_dir (Spinup spinup_dir);
      do total_concentration_factor <-
        lift (match last_run with
              | None => last_or_raise parameters
              | Some _ => inr 1%Q
              end);
      let model_parameters := but_last parameters in
      do last_years <-
        (match last_run with
         | Some _ => get_total_years last_run
         | None => ret 0
         end);
      run start_run model_parameters (RunPath run_dir) (years - last_years) tolerance
            KindSpinup false total_concentration_factor last_run true;
      ret (Some run_dir)
    else if String.eqb combination "and" then
      do run_dir <- self (ParameterSetDir parameter_set_dir)
                      {| years := years; tolerance := 0; combination := "or" |}
                      start_from_closest_parameters;
      do run_dir <- self (ParameterSetDir parameter_set_dir)
                      {| years := MODEL_SPINUP_MAX_YEARS; tolerance := tolerance;
                         combination := "or" |}
                      start_from_closest_parameters;
      ret run_dir
    else raise UnboundLocalError.

Fixpoint matching_run_dir_fuel (fuel : nat)
    : parameters_or_dir -> spinup_options -> bool -> M (option run_dir) :=
  match fuel with
  | O => fun _ _ _ => raise RecursionError
  | S fuel => matching_run_dir_body (matching_run_dir_fuel fuel)
  end.

(** The source calls itself at most once below the top call; Python's
    own recursion limit is never reached. *)
Definition matching_run_dir := matching_run_dir_fuel 2.

(** *** Trajectories *)

(** The files a trajectory job writes below [trajectory_dir/trajectory],
    as produced by the external simulation. *)
Variable trajectory_files : Type.
Variable metos3d_trajectory :
  gmap run_chain (list (option job)) -> job_request -> trajectory_files.

Variable METOS_TRACER_DIM : nat.
Variable MODEL_START_FROM_CLOSEST_PARAMETER_SET : bool.

Definition load_trajectory_function : Type :=
  trajectory_files -> nat -> result (list Q).

Definition _get_trajectory (load : load_trajectory_function)
    (run_dir : option run_dir) (model_parameters : list Q) : M (list (list Q)) :=
  let trajectory_dir := TrajectoryTmp in
  do w <- get_world;
  run start_run model_parameters trajectory_dir 1 0 KindTrajectory true 1 run_dir true;
  let trajectory_output_dir :=
    metos3d_trajectory (fs w)
      (Build_job_request model_parameters 1 0 1 true run_dir KindTrajectory) in
  do trajectory_values <-
    lift (rfor_each (seq 0 METOS_TRACER_DIM)
            (fun tracer_index trajectory_values =>
               get tracer_trajectory_values <-
                 load trajectory_output_dir tracer_index;
               inr (trajectory_values ++ [tracer_trajectory_values]))
            []);
  run emit EvRemoveTrajectoryTmp;
  if negb (length trajectory_values =? METOS_TRACER_DIM)%nat then raise AssertionError
  else ret trajectory_values.

Definition _f (load : load_trajectory_function) (parameters : list Q)
    (opts : spinup_options) : M (list (list Q)) :=
  do matching_run <- matching_run_dir (Parameters parameters) opts
                       MODEL_START_FROM_CLOSEST_PARAMETER_SET;
  do parameters_dict <- lift (metos3d_model_parameters_dict parameters);
  let model_parameters := parameters_dict.1 in
  _get_trajectory load matching_run model_parameters.

(** *** The derivative scheduler *)

(** [self.derivative_options] *)
Variable MODEL_DERIVATIVE_SPINUP_YEARS : Z.
Variable MODEL_DERIVATIVE_STEP_SIZE : Q.
Variable MODEL_DERIVATIVE_ACCURACY_ORDER : Z.

(** "prepare partial_derivatives_mask" *)
Definition prepare_partial_derivatives_mask (parameters : list Q)
    (partial_derivatives_mask : option (list bool)) : result (list bool) :=
  get mask <-
    (match partial_derivatives_mask with
     | None => inr (replicate (length parameters) true)
     | Some mask =>
         if negb (length mask =? length parameters)%nat then
           inl (ValueError (MaskLength (length mask) (length parameters)))
         else inr mask
     end);
  if negb total_concentration_factor_included_in_parameters
  then inr (mask ++ [false])
  else inr mask.

(** "chose h factors" *)
Definition choose_h_factors : result (list Q) :=
  if MODEL_DERIVATIVE_ACCURACY_ORDER =? 1 then inr [1%Q]
  else if MODEL_DERIVATIVE_ACCURACY_ORDER =? 2 then inr [1%Q; (-1)%Q]
  else inl (ValueError (AccuracyOrderNotSupported MODEL_DERIVATIVE_ACCURACY_ORDER)).

(** What "search directories", "get spinup run" and "get f if
    accuracy_order is 1" leave for the rest of [_df]; [f] is only bound
    under accuracy order 1. *)
Record derivative_base := {
  base_parameter_set_dir : nat;
  base_spinup_options : spinup_options;
  base_spinup_matching_run_dir : option run_dir;
  base_f : option (list (list Q));
}.

Definition derivative_spinup_base (load : load_trajectory_function)
    (parameters : list Q) (opts : spinup_options) : M derivative_base :=
  do parameter_set_dir <- parameter_set_dir parameters true;
  do parameter_set_dir <-
    (match parameter_set_dir with
     | Some d => ret d
     | None => raise TypeError
     end);
  let years := years opts in
  let tolerance := tolerance opts in
  let combination := combination opts in
  let spinup_options_derivative_base :=
    {| years := years - MODEL_DERIVATIVE_SPINUP_YEARS;
       tolerance := tolerance; combination := combination |} in
  do spinup_matching_run_dir <-
    matching_run_dir (ParameterSetDir parameter_set_dir)
      spinup_options_derivative_base MODEL_START_FROM_CLOSEST_PARAMETER_SET;
  do spinup_matching_run_years <- get_total_years spinup_matching_run_dir;
  if MODEL_DERIVATIVE_ACCURACY_ORDER =? 1 then
    do spinup_previous_run_dir <- previous_run_dir spinup_matching_run_dir;
    do spinup_previous_run_years <- get_total_years spinup_previous_run_dir;
    let collapse :=
      spinup_previous_run_years =?
        spinup_matching_run_years - MODEL_DERIVATIVE_SPINUP_YEARS in
    let spinup_matching_run_dir :=
      if collapse then spinup_previous_run_dir else spinup_matching_run_dir in
    let spinup_matching_run_years :=
      if collapse then spinup_previous_run_years else spinup_matching_run_years in
    do f <- _f load parameters
              {| years := spinup_matching_run_years + MODEL_DERIVATIVE_SPINUP_YEARS;
                 tolerance := 0; combination := "or" |};
    ret {| base_parameter_set_dir := parameter_set_dir;
           base_spinup_options := spinup_options_derivative_base;
           base_spinup_matching_run_dir := spinup_matching_run_dir;
           base_f := Some f |}
  else
    ret {| base_parameter_set_dir := parameter_set_dir;
           base_spinup_options := spinup_options_derivative_base;
           base_spinup_matching_run_dir := spinup_matching_run_dir;
           base_f := None |}.

(** "init values": the arrays the two loops of [_df] work on.  When the
    total concentration factor is part of the parameters,
    [database_parameter_entry] hands back the array [parameters] itself, so
    [database_parameter_entry[-1] = 1] also changes [parameters]. *)
Record derivative_values := {
  dv_database_parameter_entry : list Q;
  dv_parameters : list Q;
  dv_parameters_len : nat;
  dv_parameters_lower_bound : list Q;
  dv_parameters_upper_bound : list bound;
  dv_parameters_typical_values : list Q;
}.

Definition init_values (parameters : list Q) : result derivative_values :=
  get database_parameter_entry <- database_parameter_entry parameters;
  check (if (length database_parameter_entry =? 0)%nat then inl IndexError
         else inr tt);
  let database_parameter_entry := set_last database_parameter_entry 1%Q in
  let parameters :=
    if total_concentration_factor_included_in_parameters
    then database_parameter_entry else parameters in
  inr {| dv_database_parameter_entry := database_parameter_entry;
         dv_parameters := parameters;
         dv_parameters_len := length database_parameter_entry;
         dv_parameters_lower_bound := parameters_lower_bound ++ [0%Q];
         dv_parameters_upper_bound := map Finite parameters_upper_bound ++ [Infinity];
         dv_parameters_typical_values := parameters_typical_values ++ [1%Q] |}.

(** One pass of the inner loop up to "calculate h": the perturbed entry
    [parameters_for_derivative[parameter_index, h_factor_index]] and the
    step [h[parameter_index, h_factor_index]]. *)
Record perturbation := {
  pert_parameters : list Q;
  pert_h : Q;
}.

Definition perturb (v : derivative_values) (h_i h_factor : Q)
    (parameter_index : nat) : result perturbation :=
  (* prepare parameters for derivative *)
  let parameters_for_derivative := dv_database_parameter_entry v in
  let h := (h_factor * h_i)%Q in
  get old <- index_or_raise parameters_for_derivative parameter_index;
  let value := (old + h)%Q in
  let parameters_for_derivative :=
    <[parameter_index := value]> parameters_for_derivative in
  (* consider bounds *)
  get lower <- index_or_raise (dv_parameters_lower_bound v) parameter_index;
  let violates_lower_bound := violates_lower value lower in
  get upper <- index_or_raise (dv_parameters_upper_bound v) parameter_index;
  let violates_upper_bound := violates_upper value upper in
  get value <-
    (if MODEL_DERIVATIVE_ACCURACY_ORDER =? 1 then
       if violates_lower_bound || violates_upper_bound then
         let h := (h * -1)%Q in
         get parameter <- index_or_raise (dv_parameters v) parameter_index;
         inr (parameter + h)%Q
       else inr value
     else
       if violates_lower_bound then inr lower
       else if violates_upper_bound then
         inr (match upper with Finite u => u | Infinity => value end)
       else inr value);
  let parameters_for_derivative :=
    <[parameter_index := value]> parameters_for_derivative in
  (* calculate h (improvement of accuracy of h) *)
  get parameter <- index_or_raise (dv_parameters v) parameter_index;
  inr {| pert_parameters := parameters_for_derivative;
         pert_h := (value - parameter)%Q |}.

(** The arrays filled by "start partial derivative runs"; entries that
    were never written ([np.empty]) are absent.
    [dr_spinup_run_dir] is the local [partial_derivative_spinup_run_dir],
    unbound until first assigned. *)
Record derivative_runs := {
  dr_h : gmap (nat * nat) Q;
  dr_parameters_for_derivative : gmap (nat * nat) (list Q);
  dr_run_dirs : gmap (nat * nat) (option run_dir);
  dr_spinup_run_dir : option (option run_dir);
}.

Definition derivative_runs_empty : derivative_runs :=
  {| dr_h := ∅; dr_parameters_for_derivative := ∅; dr_run_dirs := ∅;
     dr_spinup_run_dir := None |}.

(** [util.io.fs.remove_recursively(run_dir, exclude_dir=True)]: the
    directory stays, its content is gone. *)
Definition remove_run_content (rd : run_dir) : M unit :=
  do w <- get_world;
  run set_fs (alter (fun runs => <[rd.2 := None]> runs) rd.1 (fs w));
  emit (EvRemoveRun rd).

Definition start_partial_derivative_run (base : derivative_base)
    (v : derivative_values) (h_factors : list Q) (h_i : Q)
    (parameter_index h_factor_index : nat) (st : derivative_runs)
    : M derivative_runs :=
  do h_factor <- lift (index_or_raise h_factors h_factor_index);
  do p <- lift (perturb v h_i h_factor parameter_index);
  (* get run dir *)
  let h_factor := Qsign (pert_h p) in
  let partial_derivative_dir :=
    PartialDerivative (base_parameter_set_dir base) parameter_index h_factor in
  do partial_derivative_run_dir <-
    try_except_OSError (last_run_dir partial_derivative_dir) (ret None);
  (* get corresponding spinup run dir *)
  do spinup_run_dir <-
    (match partial_derivative_run_dir with
     | Some d =>
         do input <- try_except_OSError
                       (do j <- open_job_force_load d; ret (tracer_input_dir j))
                       (ret None);
         ret (Some input)
     | None => ret (dr_spinup_run_dir st)
     end);
  (* make new run if run not matching *)
  do matching <- is_run_matching_options partial_derivative_run_dir
                   {| years := MODEL_DERIVATIVE_SPINUP_YEARS; tolerance := 0;
                      combination := "or" |};
  do not_matching <-
    (if negb matching then ret true
     else
       do input <- (match spinup_run_dir with
                    | Some input => ret input
                    | None => raise UnboundLocalError
                    end);
       do matching <- is_run_matching_options input (base_spinup_options base);
       ret (negb matching));
  do partial_derivative_run_dir <-
    (if not_matching then
       (* remove old run *)
       run (match partial_derivative_run_dir with
            | Some d => remove_run_content d
            | None => ret tt
            end);
       (* create new run dir *)
       do d <- make_new_run_dir partial_derivative_dir;
       (* start job *)
       do parameters_dict <-
         lift (database_parameter_entry_to_metos3d_model_parameters_dict
                 (pert_parameters p));
       run start_run parameters_dict.1 (RunPath d) MODEL_DERIVATIVE_SPINUP_YEARS 0
             KindDerivative false parameters_dict.2
             (base_spinup_matching_run_dir base) false;
       ret (Some d)
     else ret partial_derivative_run_dir);
  ret {| dr_h := <[(parameter_index, h_factor_index) := pert_h p]> (dr_h st);
         dr_parameters_for_derivative :=
           <[(parameter_index, h_factor_index) := pert_parameters p]>
             (dr_parameters_for_derivative st);
         dr_run_dirs :=
           <[(parameter_index, h_factor_index) := partial_derivative_run_dir]>
             (dr_run_dirs st);
         dr_spinup_run_dir := spinup_run_dir |}.

(** "start partial derivative runs" *)
Definition start_partial_derivative_runs (base : derivative_base)
    (v : derivative_values) (h_factors : list Q) (mask : list bool)
    : M derivative_runs :=
  for_each (seq 0 (dv_parameters_len v))
    (fun parameter_index st =>
       do masked <- lift (index_or_raise mask parameter_index);
       if masked then
         do typical <- lift (index_or_raise (dv_parameters_typical_values v)
                               parameter_index);
         let h_i := (typical * MODEL_DERIVATIVE_STEP_SIZE)%Q in
         for_each (seq 0 (length h_factors))
           (start_partial_derivative_run base v h_factors h_i parameter_index) st
       else ret st)
    derivative_runs_empty.

(** One pass of "add to df". *)
Definition add_to_df (v : derivative_values) (parameter_index h_factor_index : nat)
    (trajectory : list (list Q)) (tracer_index : nat)
    (df : list (option (list (list float64))))
    : result (list (option (list (list float64)))) :=
  get tracer_trajectory <- index_or_raise trajectory tracer_index;
  get slot <- index_or_raise df tracer_index;
  let df_tracer :=
    match slot with
    | None => replicate (dv_parameters_len v)
                (replicate (length tracer_trajectory) (Num 0))
    | Some a => a
    end in
  get row <- index_or_raise df_tracer parameter_index;
  get row <- inplace fl_add row
               (map (fun x => Num (minus_one_pow h_factor_index * x))
                  tracer_trajectory);
  inr (<[tracer_index := Some (<[parameter_index := row]> df_tracer)]> df).

(** One pass of "calculate df"; [h_row] is [h[parameter_index]].  The
    divisions are those of float64 arrays: where the step is 0 the row
    is left with [inf], [-inf] or [nan]. *)
Definition calculate_df (f : option (list (list Q))) (h_row : list Q)
    (parameter_index tracer_index : nat)
    (df : list (option (list (list float64))))
    : result (list (option (list (list float64)))) :=
  get slot <- index_or_raise df tracer_index;
  get df_tracer <- (match slot with
                    | Some a => inr a
                    | None => inl TypeError
                    end);
  get row <- index_or_raise df_tracer parameter_index;
  get row <-
    (if MODEL_DERIVATIVE_ACCURACY_ORDER =? 1 then
       get f <- (match f with
                 | Some f => inr f
                 | None => inl UnboundLocalError
                 end);
       get f_tracer <- index_or_raise f tracer_index;
       get row <- inplace fl_sub row (map Num f_tracer);
       inplace fl_div row (map Num h_row)
     else inr (map (fun x => fl_div x (Num (sum_abs h_row))) row));
  inr (<[tracer_index := Some (<[parameter_index := row]> df_tracer)]> df).

Definition h_row (runs : derivative_runs) (h_factors_len parameter_index : nat)
    : list Q :=
  map (fun h_factor_index =>
         default 0%Q (dr_h runs !! (parameter_index, h_factor_index)))
      (seq 0 h_factors_len).

(** "include result for each h factor" *)
Definition include_result (load : load_trajectory_function)
    (v : derivative_values) (runs : derivative_runs)
    (parameter_index h_factor_index : nat)
    (df : list (option (list (list float64))))
    : M (list (option (list (list float64)))) :=
  do partial_derivative_run_dir <-
    (match dr_run_dirs runs !! (parameter_index, h_factor_index) with
     | Some (Some d) => ret d
     | _ => raise TypeError
     end);
  run wait_until_run_job_finished (RunPath partial_derivative_run_dir);
  do parameters_dict <-
    lift (database_parameter_entry_to_metos3d_model_parameters_dict
            (default [] (dr_parameters_for_derivative runs
                           !! (parameter_index, h_factor_index))));
  do trajectory <- _get_trajectory load (Some partial_derivative_run_dir)
                     parameters_dict.1;
  lift (rfor_each (seq 0 METOS_TRACER_DIM)
          (add_to_df v parameter_index h_factor_index trajectory) df).

(** "make trajectories and calculate df" *)
Definition make_trajectories_and_calculate_df (load : load_trajectory_function)
    (base : derivative_base) (v : derivative_values) (h_factors : list Q)
    (mask : list bool) (runs : derivative_runs)
    : M (list (option (list (list float64)))) :=
  for_each (seq 0 (dv_parameters_len v))
    (fun parameter_index df =>
       do masked <- lift (index_or_raise mask parameter_index);
       if masked then
         do df <- for_each (seq 0 (length h_factors))
                    (include_result load v runs parameter_index) df;
         lift (rfor_each (seq 0 METOS_TRACER_DIM)
                 (calculate_df (base_f base)
                    (h_row runs (length h_factors) parameter_index)
                    parameter_index)
                 df)
       else ret df)
    (replicate METOS_TRACER_DIM None).

(** "apply partial_derivatives_mask" *)
Definition apply_partial_derivatives_mask (mask : list bool)
    (df : list (option (list (list float64))))
    : result (list (list (list float64))) :=
  get df <-
    rfor_each (seq 0 METOS_TRACER_DIM)
      (fun tracer_index out =>
         get slot <- index_or_raise df tracer_index;
         get df_tracer <- (match slot with
                           | Some a => inr a
                           | None => inl TypeError
                           end);
         if negb (length mask =? length df_tracer)%nat then inl IndexError
         else inr (out ++ [select_rows mask df_tracer]))
      [];
  if negb (length df =? METOS_TRACER_DIM)%nat then inl AssertionError
  else inr df.

Definition _df (load : load_trajectory_function) (parameters : list Q)
    (opts : spinup_options) (partial_derivatives_mask : option (list bool))
    : M (list (list (list float64))) :=
  do mask <- lift (prepare_partial_derivatives_mask parameters
                     partial_derivatives_mask);
  do h_factors <- lift choose_h_factors;
  do base <- derivative_spinup_base load parameters opts;
  do v <- lift (init_values parameters);
  do runs <- start_partial_derivative_runs base v h_factors mask;
  do df <- make_trajectories_and_calculate_df load base v h_factors mask runs;
  lift (apply_partial_derivatives_mask mask df).

(** *** Evaluation at points *)

(** [self.spinup_options] *)
Variable model_spinup_options : spinup_options.

(** [measurements.land_sea_mask]: the conversion of point coordinates
    (t, x, y, z) to map indices, the mask itself (number of water boxes
    below each (x, y)) and the number of layers. *)
Variable coordinates_to_map_indices : list (list Q) -> list (list Q).
Variable lsm_lsm : list (list Z).
Variable lsm_z_dim : Z.
Variable MODEL_INTERPOLATOR_NUMBER_OF_LINEAR_INTERPOLATOR : Z.

(** [simulation.model.data.load_trajectories_to_map_index_array] and the
    interpolator of [util.math.interpolate]. *)
Variable trajectory_data : Type.
Variable load_trajectories_to_map_index_array : trajectory_files -> nat -> trajectory_data.
Variable interpolate : trajectory_data -> list (list Q) -> list Q.

Definition array_min (a : list nat) : result nat :=
  match a with
  | [] => inl (ValueError ZeroSizeReduction)
  | x :: a' => inr (fold_left Nat.min a' x)
  end.

Definition array_max (a : list nat) : result nat :=
  match a with
  | [] => inl (ValueError ZeroSizeReduction)
  | x :: a' => inr (fold_left Nat.max a' x)
  end.

(** [for k in range(len(points)): if points[k, index] < value_min: ...] *)
Definition raise_to_min (value_min : Q) (index : nat) (points : list (list Q))
    : list (list Q) :=
  map (fun row =>
         match row !! index with
         | Some x => if Qltb x value_min then <[index := value_min]> row else row
         | None => row
         end) points.

Definition lower_to_max (value_max : Q) (index : nat) (points : list (list Q))
    : list (list Q) :=
  map (fun row =>
         match row !! index with
         | Some x => if Qltb value_max x then <[index := value_max]> row else row
         | None => row
         end) points.

(** "convert to map indices", for the points of one tracer *)
Definition convert_to_map_indices (tracer_points : list (list Q))
    : result (list (list Q)) :=
  let tracer_interpolation_points := coordinates_to_map_indices tracer_points in
  if negb (forallb (fun row => (length row =? 4)%nat) tracer_interpolation_points)
  then inl AssertionError
  else if 0 <? MODEL_INTERPOLATOR_NUMBER_OF_LINEAR_INTERPOLATOR then
    get value_min <- array_min (where_positive_axis_1 lsm_lsm);
    let tracer_interpolation_points :=
      raise_to_min (inject_Z (Z.of_nat value_min)) 2 tracer_interpolation_points in
    let tracer_interpolation_points :=
      raise_to_min 0%Q 3 tracer_interpolation_points in
    get value_max <- array_max (where_positive_axis_1 lsm_lsm);
    let tracer_interpolation_points :=
      lower_to_max (inject_Z (Z.of_nat value_max)) 2 tracer_interpolation_points in
    let tracer_interpolation_points :=
      lower_to_max (inject_Z (lsm_z_dim - 1)) 3 tracer_interpolation_points in
    inr tracer_interpolation_points
  else inr tracer_interpolation_points.

Definition _get_load_trajectory_function_for_points (points : list (list (list Q)))
    : result load_trajectory_function :=
  get interpolation_points <-
    rfor_each points
      (fun tracer_points interpolation_points =>
         get tracer_interpolation_points <- convert_to_map_indices tracer_points;
         inr (interpolation_points ++ [tracer_interpolation_points]))
      [];
  inr (fun trajectory_path tracer_index =>
         let tracer_trajectory :=
           load_trajectories_to_map_index_array trajectory_path tracer_index in
         match interpolation_points !! tracer_index with
         | Some tracer_points => inr (interpolate tracer_trajectory tracer_points)
         | None => inl IndexError
         end).

(** The trajectory values are numbers, so the assertion of [f_points]
    that none of them is [nan] cannot fail here; the one of [df_points]
    can, on the quotients. *)
Definition f_points (parameters : list Q) (points : list (list (list Q)))
    : M (list (list Q)) :=
  if negb (length points =? 2)%nat then
    raise (ValueError (PointsLength (length points)))
  else
    run lift (check_parameters parameters);
    do load <- lift (_get_load_trajectory_function_for_points points);
    do f <- _f load parameters model_spinup_options;
    if negb (length f =? 2)%nat then raise AssertionError else ret f.

Definition df_points (parameters : list Q) (points : list (list (list Q)))
    (partial_derivatives_mask : option (list bool))
    : M (list (list (list float64))) :=
  if negb (length points =? 2)%nat then
    raise (ValueError (PointsLength (length points)))
  else
    run lift (check_parameters parameters);
    do load <- lift (_get_load_trajectory_function_for_points points);
    do df <- _df load parameters model_spinup_options partial_derivatives_mask;
    if negb (length df =? 2)%nat then raise AssertionError
    else
      do df_0 <- lift (index_or_raise df 0);
      do df_1 <- lift (index_or_raise df 1);
      if existsb (existsb fl_isnan) df_0 || existsb (existsb fl_isnan) df_1
      then raise AssertionError
      else ret df.

(** The events of one trajectory job in its temporary directory. *)
Definition trajectory_event (e : event) : Prop :=
  match e with
  | EvStartRun TrajectoryTmp _ | EvWait TrajectoryTmp | EvRemoveTrajectoryTmp => True
  | _ => False
  end.

Definition no_event (e : event) : Prop := False.

(** The run directories of a chain, none when the chain directory does
    not exist. *)
Definition chain_runs (w : world) (c : run_chain) : list (option job) :=
  default [] (fs w !! c).

(** [get_total_years] on the run directories themselves. *)
Fixpoint total_years_of (runs : list (option job)) (k : nat) (total_years : Z)
    : result Z :=
  match runs !! k with
  | Some (Some j) =>
      let total_years := total_years + last_year j in
      match k with
      | O => inr total_years
      | S k' => total_years_of runs k' total_years
      end
  | _ => inl OSError
  end.

(** What the two pairs of loops of [convert_to_map_indices] do to one
    coordinate: raised to [lo] when below, then lowered to [hi] when
    above. *)
Definition clamp (lo hi x : Q) : Q :=
  let x := if Qltb x lo then lo else x in
  if Qltb hi x then hi else x.

(** Rows are (t, x, y, z) map indices: column 0 is the temporal index, of
    which there are [t_dim]. *)
Definition temporal_index_in_range (t_dim : Z) (row : list Q) : Prop :=
  match row !! 0%nat with
  | Some t => (0 <= t)%Q /\ (t <= inject_Z (t_dim - 1))%Q
  | None => False
  end.

(** ** What a computation may do to the world *)

(** [w'] is [w] after more events, each of them in [P]; when [keep_fs]
    is set the run directories are also the same. *)
Definition extends (keep_fs : bool) (P : event -> Prop) (w w' : world) : Prop :=
  (keep_fs = true -> fs w' = fs w) /\
  exists evs, trace w' = trace w ++ evs /\ Forall P evs.

(** Every run of [m] extends the world within [P], and a returned value
    satisfies [Q]. *)
Definition steps {A} (keep_fs : bool) (P : event -> Prop) (Q : A -> Prop)
    (m : M A) : Prop :=
  forall w r w', m w = (r, w') ->
    extends keep_fs P w w' /\ (forall a, r = inr a -> Q a).

Definition warning_event (e : event) : Prop :=
  match e with
  | EvWarn _ => True
  | _ => False
  end.

(** Warnings and new database entries: nothing is created or started. *)
Definition lookup_event (e : event) : Prop :=
  match e with
  | EvWarn _ | EvAddValue _ _ => True
  | _ => False
  end.

(** The events of the spinup engine and of trajectory jobs: run
    directories only in spinup chains. *)
Definition spinup_event (e : event) : Prop :=
  match e with
  | EvWarn _ | EvAddValue _ _ | EvRemoveTrajectoryTmp => True
  | EvMakeRunDir (c, _) | EvStartRun (RunPath (c, _)) _
  | EvWait (RunPath (c, _)) => exists index, c = Spinup index
  | EvStartRun TrajectoryTmp _ | EvWait TrajectoryTmp => True
  | EvRemoveRun _ => False
  end.

(** The events of "start partial derivative runs": no job is waited for,
    and directories are made, emptied and started on only in the partial
    derivative chains of masked parameters. *)
Definition launch_event (mask : list bool) (e : event) : Prop :=
  match e with
  | EvWarn _ => True
  | EvMakeRunDir (c, _) | EvStartRun (RunPath (c, _)) _ | EvRemoveRun (c, _) =>
      exists index parameter_index h_factor,
        c = PartialDerivative index parameter_index h_factor /\
        mask !! parameter_index = Some true
  | _ => False
  end.

(** The events of "make trajectories and calculate df": waiting, and
    trajectory jobs in temporary directories. *)
Definition assembly_event (e : event) : Prop :=
  match e with
  | EvWait _ | EvStartRun TrajectoryTmp _ | EvRemoveTrajectoryTmp => True
  | _ => False
  end.

(** ** The rows of the result *)

(** The indices at which a mask is set, in increasing order, counted
    from [start]. *)
Fixpoint masked_indices_from (start : nat) (mask : list bool) : list nat :=
  match mask with
  | [] => []
  | b :: mask' =>
      if b then start :: masked_indices_from (S start) mask'
      else masked_indices_from (S start) mask'
  end.

Definition masked_indices (mask : list bool) : list nat :=
  masked_indices_from 0 mask.

(** [mask.sum()] *)
Definition count_true (mask : list bool) : nat :=
  length (List.filter (fun b : bool => b) mask).

(** The trajectory of one tracer that "include result" loads for the
    entry [(parameter_index, h_factor_index)] of the arrays [runs], when
    the run directories are [fs]: the output of a trajectory job of one
    year on the partial derivative run, with the perturbed model
    parameters. *)
Definition perturbed_trajectory (load : load_trajectory_function)
    (fs : gmap run_chain (list (option job))) (runs : derivative_runs)
    (parameter_index h_factor_index tracer_index : nat) : result (list Q) :=
  match dr_run_dirs runs !! (parameter_index, h_factor_index) with
  | Some (Some d) =>
      get parameters_dict <-
        database_parameter_entry_to_metos3d_model_parameters_dict
          (default [] (dr_parameters_for_derivative runs
                         !! (parameter_index, h_factor_index)));
      load (metos3d_trajectory fs
              (Build_job_request parameters_dict.1 1 0 1 true (Some d)
                 KindTrajectory))
           tracer_index
  | _ => inl TypeError
  end.

(** An event that makes, empties or starts a run directory of a partial
    derivative with respect to the parameter [parameter_index]. *)
Definition partial_derivative_launch (parameter_index : nat) (e : event) : Prop :=
  match e with
  | EvMakeRunDir (c, _) | EvStartRun (RunPath (c, _)) _ | EvRemoveRun (c, _) =>
      exists index h_factor, c = PartialDerivative index parameter_index h_factor
  | _ => False
  end.

(** A job is waited for in a run directory of a partial derivative. *)
Definition partial_derivative_wait (e : event) : Prop :=
  match e with
  | EvWait (RunPath (PartialDerivative _ _ _, _)) => True
  | _ => False
  end.

(** A directory is made or emptied, or a job is started in a run
    directory of the database. *)
Definition run_launch (e : event) : Prop :=
  match e with
  | EvMakeRunDir _ | EvRemoveRun _ | EvStartRun (RunPath _) _ => True
  | _ => False
  end.

(** What one pass of "add to df" does to [df[tracer_index]], given the
    trajectory of that tracer. *)
Definition add_slot (parameters_len parameter_index h_factor_index : nat)
    (tracer_trajectory : list Q) (slot : option (list (list float64)))
    : result (option (list (list float64))) :=
  let df_tracer :=
    match slot with
    | None => replicate parameters_len
                (replicate (length tracer_trajectory) (Num 0))
    | Some a => a
    end in
  get row <- index_or_raise df_tracer parameter_index;
  get row <- inplace fl_add row
               (map (fun x => Num (minus_one_pow h_factor_index * x))
                  tracer_trajectory);
  inr (Some (<[parameter_index := row]> df_tracer)).

(** What one pass of "calculate df" does to [df[tracer_index]]. *)
Definition calculate_slot (f : option (list (list Q))) (h_row : list Q)
    (parameter_index tracer_index : nat) (slot : option (list (list float64)))
    : result (option (list (list float64))) :=
  get df_tracer <- (match slot with
                    | Some a => inr a
                    | None => inl TypeError
                    end);
  get row <- index_or_raise df_tracer parameter_index;
  get row <-
    (if MODEL_DERIVATIVE_ACCURACY_ORDER =? 1 then
       get f <- (match f with
                 | Some f => inr f
                 | None => inl UnboundLocalError
                 end);
       get f_tracer <- index_or_raise f tracer_index;
       get row <- inplace fl_sub row (map Num f_tracer);
       inplace fl_div row (map Num h_row)
     else inr (map (fun x => fl_div x (Num (sum_abs h_row))) row));
  inr (Some (<[parameter_index := row]> df_tracer)).

(** Two array elements are the same: the same infinity or [nan], or
    equal numbers. *)
Definition fl_eq (x y : float64) : Prop :=
  match x, y with
  | Num a, Num b => (a == b)%Q
  | PlusInf, PlusInf | MinusInf, MinusInf | NaN, NaN => True
  | _, _ => False
  end.

(** The derivative of one tracer with respect to one parameter: under
    accuracy order 1 the trajectory of the perturbed run
    minus the base trajectory [f], over [h]; otherwise the trajectory of
    the run perturbed by [+h] minus that of the run perturbed by [-h],
    over [|h_forward| + |h_backward|].  The quotient is the one of
    float64 arrays, [fl_div]: a number when the divisor is not 0. *)
Definition is_derivative_row (load : load_trajectory_function)
    (fs : gmap run_chain (list (option job))) (base : derivative_base)
    (runs : derivative_runs) (parameter_index tracer_index : nat)
    (row : list float64) : Prop :=
  let h k := default 0%Q (dr_h runs !! (parameter_index, k)) in
  if MODEL_DERIVATIVE_ACCURACY_ORDER =? 1 then
    exists perturbed f f_tracer,
      perturbed_trajectory load fs runs parameter_index 0 tracer_index
        = inr perturbed /\
      base_f base = Some f /\ f !! tracer_index = Some f_tracer /\
      length row = length perturbed /\
      forall k x, row !! k = Some x ->
        exists p b, perturbed !! k = Some p /\ f_tracer !! k = Some b /\
          fl_eq x (fl_div (Num (p - b)) (Num (h 0%nat)))
  else
    exists forward backward,
      perturbed_trajectory load fs runs parameter_index 0 tracer_index
        = inr forward /\
      perturbed_trajectory load fs runs parameter_index 1 tracer_index
        = inr backward /\
      length row = length forward /\
      forall k x, row !! k = Some x ->
        exists a b, forward !! k = Some a /\ backward !! k = Some b /\
          fl_eq x (fl_div (Num (a - b))
                     (Num (Qabs (h 0%nat) + Qabs (h 1%nat)))).

(** [df[tracer_index]] once the parameters below [done] have been dealt
    with: not yet allocated when none of them is masked, and otherwise
    the derivative rows of the masked ones among rows of zeros. *)
Definition slot_ok (load : load_trajectory_function)
    (fs : gmap run_chain (list (option job))) (base : derivative_base)
    (v : derivative_values) (runs : derivative_runs) (mask : list bool)
    (shape : nat -> nat) (done tracer_index : nat)
    (slot : option (list (list float64))) : Prop :=
  match slot with
  | None => forall i, (i < done)%nat -> mask !! i <> Some true
  | Some a =>
      length a = dv_parameters_len v /\
      forall i, (i < dv_parameters_len v)%nat ->
        exists row, a !! i = Some row /\ length row = shape tracer_index /\
          ((i < done)%nat -> mask !! i = Some true ->
             is_derivative_row load fs base runs i tracer_index row) /\
          (~ ((i < done)%nat /\ mask !! i = Some true) ->
             row = replicate (shape tracer_index) (Num 0))
  end.

(** The entry [(parameter_index, h_factor_index)] of the arrays, as
    "start partial derivative runs" leaves it: the step and the perturbed
    parameters computed by [perturb] from the nominal step
    [typical_value * step_size], and a run directory of the partial
    derivative chain named after the sign of the step. *)
Definition entry_ok (base : derivative_base) (v : derivative_values)
    (h_factors : list Q) (runs : derivative_runs)
    (parameter_index h_factor_index : nat) : Prop :=
  exists typical h_factor p d,
    dv_parameters_typical_values v !! parameter_index = Some typical /\
    h_factors !! h_factor_index = Some h_factor /\
    perturb v (typical * MODEL_DERIVATIVE_STEP_SIZE) h_factor parameter_index
      = inr p /\
    dr_h runs !! (parameter_index, h_factor_index) = Some (pert_h p) /\
    dr_parameters_for_derivative runs !! (parameter_index, h_factor_index)
      = Some (pert_parameters p) /\
    dr_run_dirs runs !! (parameter_index, h_factor_index) = Some (Some d) /\
    d.1 = PartialDerivative (base_parameter_set_dir base) parameter_index
            (Qsign (pert_h p)).

(** *** Evaluation on all boxes *)

(** [simulation.model.data.load_trajectories_to_map] *)
Variable load_trajectories_to_map : trajectory_files -> nat -> Z -> result (list Q).

Definition _get_load_trajectory_function_for_all (time_dim_desired : Z)
    : load_trajectory_function :=
  fun trajectory_path tracer_index =>
    load_trajectories_to_map trajectory_path tracer_index time_dim_desired.

Definition f_boxes (parameters : list Q) (time_dim_desired : Z)
    : M (list (list Q)) :=
  run lift (check_parameters parameters);
  do f <- _f (_get_load_trajectory_function_for_all time_dim_desired) parameters
            model_spinup_options;
  if negb (length f =? 2)%nat then raise AssertionError else ret f.

Definition df_boxes (parameters : list Q) (time_dim_desired : Z)
    (partial_derivatives_mask : option (list bool))
    : M (list (list (list float64))) :=
  run lift (check_parameters parameters);
  do df <- _df (_get_load_trajectory_function_for_all time_dim_desired) parameters
             model_spinup_options partial_derivatives_mask;
  if negb (length df =? 2)%nat then raise AssertionError else ret df.

(** ** What is never lost *)

(** [w'] still has what [w] had: the parameter database of [w'] is the
    one of [w] with entries appended, and every job of a run directory
    of a chain in [chains] is still in its place. *)
Definition kept (chains : run_chain -> Prop) (w w' : world) : Prop :=
  (exists added, db w' = db w ++ added) /\
  forall c k j, chains c ->
    chain_runs w c !! k = Some (Some j) -> chain_runs w' c !! k = Some (Some j).

(** Whatever its outcome, [m] keeps the database entries and the jobs of
    the chains in [chains]. *)
Definition keeps {A} (chains : run_chain -> Prop) (m : M A) : Prop :=
  forall w r w', m w = (r, w') -> kept chains w w'.

Definition is_spinup (c : run_chain) : Prop := exists index, c = Spinup index.

(** * Properties *)

(** *** Composition of steps *)

Lemma extends_refl keep_fs P w : extends keep_fs P w w.
Proof.
  split; [reflexivity|]. exists []. rewrite app_nil_r. split; [reflexivity|constructor].
Qed.

Lemma extends_trans keep_fs P w1 w2 w3 :
  extends keep_fs P w1 w2 -> extends keep_fs P w2 w3 -> extends keep_fs P w1 w3.
Proof.
  intros [Hf1 [e1 [Ht1 HP1]]] [Hf2 [e2 [Ht2 HP2]]]. split.
  - intros Hk. rewrite (Hf2 Hk). apply (Hf1 Hk).
  - exists (e1 ++ e2). split.
    + rewrite Ht2, Ht1, app_assoc. reflexivity.
    + apply Forall_app. split; assumption.
Qed.

Lemma extends_weaken (keep_fs keep_fs' : bool) (P P' : event -> Prop) w w' :
  (forall e, P e -> P' e) -> (keep_fs' = true -> keep_fs = true) ->
  extends keep_fs P w w' -> extends keep_fs' P' w w'.
Proof.
  intros HP Hk [Hf [evs [Ht Hall]]]. split.
  - intros Hk'. apply Hf, Hk, Hk'.
  - exists evs. split; [exact Ht|]. eapply Forall_impl; eauto.
Qed.

Lemma steps_weaken {A} (keep_fs keep_fs' : bool) (P P' : event -> Prop)
    (Q Q' : A -> Prop) (m : M A) :
  (forall e, P e -> P' e) -> (forall a, Q a -> Q' a) ->
  (keep_fs' = true -> keep_fs = true) ->
  steps keep_fs P Q m -> steps keep_fs' P' Q' m.
Proof.
  intros HP HQ Hk Hm w r w' Hrun. destruct (Hm w r w' Hrun) as [He Hr].
  split; [eapply extends_weaken; eauto | auto].
Qed.

Lemma steps_ret {A} keep_fs P (Q : A -> Prop) a : Q a -> steps keep_fs P Q (ret a).
Proof.
  intros HQ w r w' [= <- <-]. split; [apply extends_refl|].
  intros a' [= <-]. exact HQ.
Qed.

Lemma steps_raise {A} keep_fs P (Q : A -> Prop) e : steps keep_fs P Q (raise e).
Proof.
  intros w r w' [= <- <-]. split; [apply extends_refl | discriminate].
Qed.

Lemma steps_lift {A} keep_fs P (Q : A -> Prop) (r : result A) :
  (forall a, r = inr a -> Q a) -> steps keep_fs P Q (lift r).
Proof.
  intros HQ w r' w' [= <- <-]. split; [apply extends_refl | exact HQ].
Qed.

Lemma steps_get_world keep_fs P : steps keep_fs P (fun _ => True) get_world.
Proof.
  intros w r w' [= <- <-]. split; [apply extends_refl | auto].
Qed.

Lemma steps_bind {A B} keep_fs P (Q : A -> Prop) (R : B -> Prop)
    (m : M A) (k : A -> M B) :
  steps keep_fs P Q m -> (forall a, Q a -> steps keep_fs P R (k a)) ->
  steps keep_fs P R (bind m k).
Proof.
  intros Hm Hk w r w' Hrun. unfold bind in Hrun.
  destruct (m w) as [[e|a] w1] eqn:Em.
  - injection Hrun as <- <-. destruct (Hm _ _ _ Em) as [He _].
    split; [exact He | discriminate].
  - destruct (Hm _ _ _ Em) as [He HQ].
    destruct (Hk a (HQ a eq_refl) _ _ _ Hrun) as [He' HR].
    split; [eapply extends_trans; eauto | exact HR].
Qed.

Lemma steps_try {A} keep_fs P (Q : A -> Prop) (m h : M A) :
  steps keep_fs P Q m -> steps keep_fs P Q h ->
  steps keep_fs P Q (try_except_OSError m h).
Proof.
  intros Hm Hh w r w' Hrun. unfold try_except_OSError in Hrun.
  destruct (m w) as [[e|a] w1] eqn:Em.
  - destruct (Hm _ _ _ Em) as [He _].
    destruct e; try (injection Hrun as <- <-; split; [exact He | discriminate]).
    destruct (Hh _ _ _ Hrun) as [He' HQ].
    split; [eapply extends_trans; eauto | exact HQ].
  - injection Hrun as <- <-. apply (Hm _ _ _ Em).
Qed.

Lemma steps_for_each {A S} keep_fs P (I : S -> Prop) (l : list A)
    (body : A -> S -> M S) s :
  (forall x s, In x l -> I s -> steps keep_fs P I (body x s)) -> I s ->
  steps keep_fs P I (for_each l body s).
Proof.
  revert s. induction l as [|x l IH]; intros s Hbody Hs; simpl.
  - apply steps_ret. exact Hs.
  - eapply steps_bind.
    + apply Hbody; [left; reflexivity | exact Hs].
    + intros s' Hs'. apply IH; [|exact Hs'].
      intros y t Hy. apply Hbody. right. exact Hy.
Qed.

Lemma steps_emit keep_fs (P : event -> Prop) e :
  P e -> steps keep_fs P (fun _ => True) (emit e).
Proof.
  intros HP w r w' [= <- <-]. split; [|auto]. split; [reflexivity|].
  exists [e]. split; [reflexivity|]. constructor; [exact HP | constructor].
Qed.

Lemma steps_set_fs P f : steps false P (fun _ => True) (set_fs f).
Proof.
  intros w r w' [= <- <-]. split; [|auto]. split; [discriminate|].
  exists []. simpl. rewrite app_nil_r. split; [reflexivity | constructor].
Qed.

Lemma steps_set_db keep_fs P d : steps keep_fs P (fun _ => True) (set_db d).
Proof.
  intros w r w' [= <- <-]. split; [|auto]. split; [reflexivity|].
  exists []. simpl. rewrite app_nil_r. split; [reflexivity | constructor].
Qed.


(** *** Reading never changes the world *)

Lemma open_job_force_load_world rd w : (open_job_force_load rd w).2 = w.
Proof.
  unfold open_job_force_load, bind, get_world; simpl.
  destruct (fs w !! rd.1) as [runs|]; [|reflexivity].
  destruct (runs !! rd.2) as [[j|]|]; reflexivity.
Qed.

Lemma get_total_years_loop_world c k total w :
  (get_total_years_loop c k total w).2 = w.
Proof.
  revert total; induction k as [|k IH]; intros total; simpl; unfold bind;
    match goal with
    | |- context [open_job_force_load ?r w] =>
        pose proof (open_job_force_load_world r w) as Hw;
        destruct (open_job_force_load r w) as [[e|j] w0]
    end; simpl in *; subst; auto.
Qed.

Lemma get_total_years_world rd w : (get_total_years rd w).2 = w.
Proof.
  destruct rd as [[c k]|]; [apply get_total_years_loop_world | reflexivity].
Qed.

Lemma get_real_tolerance_world rd w : (get_real_tolerance rd w).2 = w.
Proof.
  unfold get_real_tolerance, bind.
  pose proof (open_job_force_load_world rd w) as Hw.
  destruct (open_job_force_load rd w) as [[e|j] w0]; simpl in *; subst; auto.
Qed.

Lemma Qleb_le a b : Qleb a b = true <-> (a <= b)%Q.
Proof. apply Qle_bool_iff. Qed.

Lemma Qltb_lt a b : Qltb a b = true <-> (a < b)%Q.
Proof.
  unfold Qltb. rewrite negb_true_iff.
  split; intros H.
  - apply Qnot_le_lt. intros Hle. apply Qle_bool_iff in Hle. congruence.
  - destruct (Qle_bool b a) eqn:E; [|reflexivity].
    apply Qle_bool_iff in E. exfalso. apply (Qlt_not_le _ _ H E).
Qed.

Definition add_event (w : world) (e : event) : world :=
  {| db := db w; fs := fs w; trace := trace w ++ [e] |}.

(** C1: on a run directory with total years [Y] and reached tolerance
    [T], [is_run_matching_options] returns, under 'or', true iff
    [Y >= years] or [T <= tolerance]; under 'and', true iff
    ([Y >= years] and [T <= tolerance]) or [Y >= MODEL_SPINUP_MAX_YEARS].
    Under 'and', when the cap is reached while [T > tolerance] the result
    is true, nothing is raised, and exactly one warning is recorded; in
    every other case the world is left as it was. *)
Theorem is_run_matching_options_spec rd Y T opts w :
  get_total_years (Some rd) w = (inr Y, w) ->
  get_real_tolerance rd w = (inr T, w) ->
  (combination opts = "or" ->
     exists b, is_run_matching_options (Some rd) opts w = (inr b, w) /\
       (b = true <-> (years opts <= Y \/ (T <= tolerance opts)%Q))) /\
  (combination opts = "and" ->
     exists b w', is_run_matching_options (Some rd) opts w = (inr b, w') /\
       (b = true <->
          ((years opts <= Y /\ (T <= tolerance opts)%Q)
           \/ MODEL_SPINUP_MAX_YEARS <= Y)) /\
       (MODEL_SPINUP_MAX_YEARS <= Y /\ (tolerance opts < T)%Q ->
          b = true /\
          w' = add_event w
                 (EvWarn (MaxSpinupYearsWarning rd (tolerance opts)
                            MODEL_SPINUP_MAX_YEARS))) /\
       (~ (MODEL_SPINUP_MAX_YEARS <= Y /\ (tolerance opts < T)%Q) -> w' = w)).
Proof.
  intros HY HT. split; intros Hc.
  - exists ((years opts <=? Y) || Qleb T (tolerance opts)).
    split.
    + unfold is_run_matching_options, bind. rewrite HY, HT, Hc. reflexivity.
    + rewrite orb_true_iff, Z.leb_le, Qleb_le. reflexivity.
  - set (b := ((years opts <=? Y) && Qleb T (tolerance opts))
              || (MODEL_SPINUP_MAX_YEARS <=? Y)).
    assert (Hb : b = true <->
              ((years opts <= Y /\ (T <= tolerance opts)%Q)
               \/ MODEL_SPINUP_MAX_YEARS <= Y)).
    { unfold b. rewrite orb_true_iff, andb_true_iff, !Z.leb_le, Qleb_le.
      reflexivity. }
    exists b, (if b && Qltb (tolerance opts) T
               then add_event w
                      (EvWarn (MaxSpinupYearsWarning rd (tolerance opts)
                                 MODEL_SPINUP_MAX_YEARS))
               else w).
    split; [|split; [exact Hb|split]].
    + unfold is_run_matching_options, bind. rewrite HY, HT, Hc. simpl.
      fold b. destruct (b && Qltb (tolerance opts) T); reflexivity.
    + intros [Hcap Hlt].
      assert (b = true) as -> by (apply Hb; right; exact Hcap).
      apply Qltb_lt in Hlt. rewrite Hlt. split; reflexivity.
    + intros Hn.
      destruct (b && Qltb (tolerance opts) T) eqn:E; [|reflexivity].
      exfalso. apply andb_true_iff in E as [E1 E2].
      apply Qltb_lt in E2. apply Hb in E1 as [[_ Hle]|Hcap].
      * exact (Qlt_not_le _ _ E2 Hle).
      * apply Hn. split; assumption.
Qed.

(** *** Validation before any work *)

Lemma bind_lift_inl {A B} (r : result A) (k : A -> M B) e w :
  r = inl e -> bind (lift r) k w = (inl e, w).
Proof. intros ->. reflexivity. Qed.

Lemma bind_lift_inr {A B} (r : result A) (k : A -> M B) a w :
  r = inr a -> bind (lift r) k w = k a w.
Proof. intros ->. reflexivity. Qed.

(** C9: when [points] is not a sequence of exactly 2 point arrays,
    [f_points] and [df_points] raise the ValueError that names
    [len(points)], whatever the parameters are (they are not checked
    yet) and without touching the world. *)
Theorem points_length_checked_first parameters points mask w :
  length points <> 2%nat ->
  f_points parameters points w
    = (inl (ValueError (PointsLength (length points))), w) /\
  df_points parameters points mask w
    = (inl (ValueError (PointsLength (length points))), w).
Proof.
  intros Hlen. unfold f_points, df_points.
  destruct (Nat.eqb_spec (length points) 2) as [E|_]; [contradiction|].
  simpl. split; reflexivity.
Qed.

(** C6: [_df] raises a ValueError when the accuracy order is neither 1
    nor 2, and when a mask is given whose length differs from the length
    of the parameters; in both cases the world the call leaves is the
    world it found: no database entry, no directory, no job, no event. *)
Theorem _df_validation_errors load parameters opts partial_derivatives_mask w :
  (MODEL_DERIVATIVE_ACCURACY_ORDER <> 1 /\ MODEL_DERIVATIVE_ACCURACY_ORDER <> 2 ->
     exists e, _df load parameters opts partial_derivatives_mask w
               = (inl (ValueError e), w)) /\
  (forall mask, partial_derivatives_mask = Some mask ->
     length mask <> length parameters ->
     _df load parameters opts partial_derivatives_mask w
       = (inl (ValueError (MaskLength (length mask) (length parameters))), w)).
Proof.
  split.
  - intros [H1 H2]. unfold _df.
    destruct (prepare_partial_derivatives_mask parameters partial_derivatives_mask)
      as [e|mask] eqn:Em.
    + (* only the mask length check raises there *)
      unfold prepare_partial_derivatives_mask in Em.
      destruct partial_derivatives_mask as [m|]; simpl in Em.
      * destruct (negb (length m =? length parameters)%nat); simpl in Em.
        -- injection Em as <-. eexists. reflexivity.
        -- destruct (negb total_concentration_factor_included_in_parameters);
             discriminate.
      * destruct (negb total_concentration_factor_included_in_parameters);
          discriminate.
    + rewrite (bind_lift_inr _ _ mask) by reflexivity.
      unfold choose_h_factors.
      destruct (Z.eqb_spec MODEL_DERIVATIVE_ACCURACY_ORDER 1) as [E|_];
        [contradiction|].
      destruct (Z.eqb_spec MODEL_DERIVATIVE_ACCURACY_ORDER 2) as [E|_];
        [contradiction|].
      eexists. reflexivity.
  - intros mask -> Hlen. unfold _df, prepare_partial_derivatives_mask.
    destruct (Nat.eqb_spec (length mask) (length parameters)) as [E|_];
      [contradiction|].
    reflexivity.
Qed.

(** *** Conversion of points to map indices *)

Lemma fold_left_min_le l x : (fold_left Nat.min l x <= x)%nat.
Proof.
  revert x; induction l as [|y l IH]; intros x; simpl; [lia|].
  specialize (IH (Nat.min x y)). lia.
Qed.

Lemma fold_left_max_ge l x : (x <= fold_left Nat.max l x)%nat.
Proof.
  revert x; induction l as [|y l IH]; intros x; simpl; [lia|].
  specialize (IH (Nat.max x y)). lia.
Qed.

Lemma array_min_le_max a lo hi :
  array_min a = inr lo -> array_max a = inr hi -> (lo <= hi)%nat.
Proof.
  destruct a as [|x a]; simpl; [discriminate|].
  intros [= <-] [= <-].
  pose proof (fold_left_min_le a x). pose proof (fold_left_max_ge a x). lia.
Qed.

Lemma clamp_range lo hi x : (lo <= hi)%Q -> (lo <= clamp lo hi x)%Q /\ (clamp lo hi x <= hi)%Q.
Proof.
  intros Hle. unfold clamp.
  destruct (Qltb x lo) eqn:E1; simpl.
  - destruct (Qltb hi lo) eqn:E2.
    + apply Qltb_lt in E2. exfalso. apply (Qlt_not_le _ _ E2 Hle).
    + split; [apply Qle_refl | exact Hle].
  - assert (Hx : (lo <= x)%Q).
    { apply Qnot_lt_le. intros Hlt. apply Qltb_lt in Hlt. congruence. }
    destruct (Qltb hi x) eqn:E2.
    + split; [exact Hle | apply Qle_refl].
    + split; [exact Hx|].
      apply Qnot_lt_le. intros Hlt. apply Qltb_lt in Hlt. congruence.
Qed.

Lemma clamp_row_4 ymin ymax zmax t x y z :
  lower_to_max zmax 3
    (lower_to_max ymax 2
       (raise_to_min 0%Q 3 (raise_to_min ymin 2 [[t; x; y; z]])))
  = [[t; x; clamp ymin ymax y; clamp 0%Q zmax z]].
Proof.
  unfold clamp, raise_to_min, lower_to_max. simpl.
  destruct (Qltb y ymin); simpl;
    destruct (Qltb z 0); simpl;
    repeat match goal with
           | |- context [Qltb ?a ?b] => destruct (Qltb a b); simpl
           end; reflexivity.
Qed.

Lemma clamp_rows ymin ymax zmax rows :
  Forall (fun row => length row = 4%nat) rows ->
  lower_to_max zmax 3
    (lower_to_max ymax 2 (raise_to_min 0%Q 3 (raise_to_min ymin 2 rows)))
  = map (fun row =>
           match row with
           | [t; x; y; z] => [t; x; clamp ymin ymax y; clamp 0%Q zmax z]
           | _ => row
           end) rows.
Proof.
  induction 1 as [|row rows Hrow _ IH]; [reflexivity|].
  destruct row as [|t [|x [|y [|z [|]]]]]; try discriminate.
  change (lower_to_max zmax 3
            (lower_to_max ymax 2
               (raise_to_min 0%Q 3 (raise_to_min ymin 2 ([t; x; y; z] :: rows)))))
    with (lower_to_max zmax 3
            (lower_to_max ymax 2
               (raise_to_min 0%Q 3 (raise_to_min ymin 2 [[t; x; y; z]])))
          ++ lower_to_max zmax 3
               (lower_to_max ymax 2
                  (raise_to_min 0%Q 3 (raise_to_min ymin 2 rows)))).
  rewrite clamp_row_4, IH. reflexivity.
Qed.

(** C8, as the code has it: the points are first converted by
    [coordinates_to_map_indices]; when the number of linear interpolators
    is positive, column 2 of every converted row is then clamped between
    the least and the greatest second-axis index at which the mask is
    positive, and column 3 between 0 and [z_dim - 1]; columns 0 (the
    temporal index) and 1 stay as converted.  Otherwise the converted rows
    are returned as they are. *)
Theorem convert_to_map_indices_clamps tracer_points out :
  convert_to_map_indices tracer_points = inr out ->
  let converted := coordinates_to_map_indices tracer_points in
  Forall (fun row => length row = 4%nat) converted /\
  (MODEL_INTERPOLATOR_NUMBER_OF_LINEAR_INTERPOLATOR <= 0 -> out = converted) /\
  (0 < MODEL_INTERPOLATOR_NUMBER_OF_LINEAR_INTERPOLATOR ->
     exists value_min value_max,
       array_min (where_positive_axis_1 lsm_lsm) = inr value_min /\
       array_max (where_positive_axis_1 lsm_lsm) = inr value_max /\
       (value_min <= value_max)%nat /\
       out = map (fun row =>
                    match row with
                    | [t; x; y; z] =>
                        [t; x;
                         clamp (inject_Z (Z.of_nat value_min))
                               (inject_Z (Z.of_nat value_max)) y;
                         clamp 0%Q (inject_Z (lsm_z_dim - 1)) z]
                    | _ => row
                    end) converted /\
       Forall (fun row =>
                 match row with
                 | [t; x; y; z] =>
                     (inject_Z (Z.of_nat value_min) <= y)%Q /\
                     (y <= inject_Z (Z.of_nat value_max))%Q /\
                     (z <= inject_Z (lsm_z_dim - 1))%Q /\
                     (1 <= lsm_z_dim -> (0 <= z)%Q)
                 | _ => False
                 end) out).
Proof.
  intros H. cbv zeta. unfold convert_to_map_indices in H.
  set (converted := coordinates_to_map_indices tracer_points) in *.
  destruct (forallb (fun row => (length row =? 4)%nat) converted) eqn:Hall;
    simpl in H; [|discriminate].
  assert (H4 : Forall (fun row => length row = 4%nat) converted).
  { apply Forall_forall. intros row Hin.
    rewrite forallb_forall in Hall. apply Nat.eqb_eq, Hall.
    apply list_elem_of_In. exact Hin. }
  split; [exact H4|].
  destruct (Z.ltb_spec 0 MODEL_INTERPOLATOR_NUMBER_OF_LINEAR_INTERPOLATOR) as [Hn|Hn].
  - split; [lia|]. intros _.
    destruct (array_min (where_positive_axis_1 lsm_lsm)) as [e|value_min] eqn:Emin;
      simpl in H; [discriminate|].
    destruct (array_max (where_positive_axis_1 lsm_lsm)) as [e|value_max] eqn:Emax;
      simpl in H; [discriminate|].
    injection H as <-.
    pose proof (array_min_le_max _ _ _ Emin Emax) as Hle.
    exists value_min, value_max. repeat split; try assumption.
    + apply clamp_rows. exact H4.
    + rewrite (clamp_rows _ _ _ _ H4).
      apply Forall_forall. intros row Hin.
      apply list_elem_of_In, in_map_iff in Hin as [row0 [<- Hin0]].
      apply list_elem_of_In in Hin0.
      rewrite Forall_forall in H4. specialize (H4 _ Hin0).
      destruct row0 as [|t [|x [|y [|z [|]]]]]; try discriminate.
      assert (Hq : (inject_Z (Z.of_nat value_min)
                    <= inject_Z (Z.of_nat value_max))%Q).
      { rewrite <- Zle_Qle. lia. }
      destruct (clamp_range _ _ y Hq) as [Hy1 Hy2].
      repeat split; try assumption.
      * unfold clamp.
        destruct (Qltb (inject_Z (lsm_z_dim - 1)) (if Qltb z 0 then 0 else z)%Q)
          eqn:E; [apply Qle_refl|].
        apply Qnot_lt_le. intros Hlt. apply Qltb_lt in Hlt. congruence.
      * intros Hz.
        assert (Hq0 : (0 <= inject_Z (lsm_z_dim - 1))%Q).
        { change 0%Q with (inject_Z 0). rewrite <- Zle_Qle. lia. }
        apply (clamp_range _ _ z Hq0).
  - split; [|lia]. intros _. injection H as <-. reflexivity.
Qed.

(** *** Inversion of successful computations *)

Lemma rbind_inr {A B} (r : result A) (k : A -> result B) b :
  rbind r k = inr b -> exists a, r = inr a /\ k a = inr b.
Proof. destruct r as [e|a]; simpl; [discriminate|eauto]. Qed.

Lemma bind_inr {A B} (m : M A) (k : A -> M B) w b w' :
  bind m k w = (inr b, w') ->
  exists a w1, m w = (inr a, w1) /\ k a w1 = (inr b, w').
Proof.
  unfold bind. destruct (m w) as [[e|a] w1]; [discriminate|eauto].
Qed.

Lemma lift_inr {A} (r : result A) w a w' :
  lift r w = (inr a, w') -> r = inr a /\ w' = w.
Proof. unfold lift. intros [= -> ->]. split; reflexivity. Qed.

Lemma index_or_raise_inr {A} (l : list A) i x :
  index_or_raise l i = inr x <-> l !! i = Some x.
Proof.
  unfold index_or_raise. destruct (l !! i); split; congruence.
Qed.

(** *** Bound handling of the finite-difference steps *)

Lemma init_values_parameters parameters v i x :
  init_values parameters = inr v ->
  dv_parameters v !! i = Some x ->
  dv_database_parameter_entry v !! i = Some x.
Proof.
  unfold init_values. intros H Hx.
  apply rbind_inr in H as [entry [Hentry H]].
  apply rbind_inr in H as [[] [_ H]]. injection H as <-. simpl in *.
  destruct total_concentration_factor_included_in_parameters eqn:Hincl;
    [exact Hx|].
  unfold database_parameter_entry in Hentry.
  apply rbind_inr in Hentry as [ps [_ Hentry]]. rewrite Hincl in Hentry.
  injection Hentry as <-.
  unfold set_last. rewrite length_app, Nat.add_1_r. simpl.
  assert (Hi : (i < length parameters)%nat) by (eapply lookup_lt_Some; eauto).
  rewrite list_lookup_insert_ne by lia.
  rewrite lookup_app_l by exact Hi. exact Hx.
Qed.

(** C5: for a component [i] with nominal step
    [h_i = typical_value_i * step_size], the entry perturbed by
    [h_factor * h_i] is, under accuracy order 1, replaced by
    [parameter_i + (h_factor * h_i) * -1] when it violates a bound of the
    component (the sign of the step is flipped), and under accuracy
    order 2 set to the violated bound; in every case the [h] that is kept
    is the perturbed value minus the unperturbed value. *)
Theorem perturb_bound_handling parameters v i typical h_factor p :
  init_values parameters = inr v ->
  dv_parameters_typical_values v !! i = Some typical ->
  perturb v (typical * MODEL_DERIVATIVE_STEP_SIZE) h_factor i = inr p ->
  let h := (h_factor * (typical * MODEL_DERIVATIVE_STEP_SIZE))%Q in
  exists unperturbed lower upper perturbed,
    dv_database_parameter_entry v !! i = Some unperturbed /\
    dv_parameters v !! i = Some unperturbed /\
    dv_parameters_lower_bound v !! i = Some lower /\
    dv_parameters_upper_bound v !! i = Some upper /\
    pert_parameters p = <[i := perturbed]> (dv_database_parameter_entry v) /\
    pert_parameters p !! i = Some perturbed /\
    pert_h p = (perturbed - unperturbed)%Q /\
    let nominal := (unperturbed + h)%Q in
    (MODEL_DERIVATIVE_ACCURACY_ORDER = 1 ->
       (violates_lower nominal lower || violates_upper nominal upper = true ->
          perturbed = (unperturbed + h * -1)%Q /\ (pert_h p == - h)%Q) /\
       (violates_lower nominal lower || violates_upper nominal upper = false ->
          perturbed = nominal /\ (pert_h p == h)%Q)) /\
    (MODEL_DERIVATIVE_ACCURACY_ORDER <> 1 ->
       (violates_lower nominal lower = true -> perturbed = lower) /\
       (violates_lower nominal lower = false ->
        violates_upper nominal upper = true -> upper = Finite perturbed) /\
       (violates_lower nominal lower = false ->
        violates_upper nominal upper = false ->
          perturbed = nominal /\ (pert_h p == h)%Q)).
Proof.
  intros Hv Htyp Hp. cbv zeta. unfold perturb in Hp.
  apply rbind_inr in Hp as [old [Hold Hp]].
  apply rbind_inr in Hp as [lower [Hlower Hp]].
  apply rbind_inr in Hp as [upper [Hupper Hp]].
  apply rbind_inr in Hp as [perturbed [Hval Hp]].
  apply rbind_inr in Hp as [parameter [Hpar Hp]].
  injection Hp as <-. simpl.
  apply index_or_raise_inr in Hold, Hlower, Hupper, Hpar.
  pose proof (init_values_parameters _ _ _ _ Hv Hpar) as Heq.
  rewrite Hold in Heq. injection Heq as ->.
  exists parameter, lower, upper, perturbed.
  assert (Hi : (i < length (dv_database_parameter_entry v))%nat)
    by (eapply lookup_lt_Some; eauto).
  assert (Horder1 : MODEL_DERIVATIVE_ACCURACY_ORDER = 1 ->
            forall b,
              violates_lower (parameter + h_factor * (typical * MODEL_DERIVATIVE_STEP_SIZE)) lower
              || violates_upper (parameter + h_factor * (typical * MODEL_DERIVATIVE_STEP_SIZE)) upper = b ->
              perturbed =
                if b then (parameter + h_factor * (typical * MODEL_DERIVATIVE_STEP_SIZE) * -1)%Q
                else (parameter + h_factor * (typical * MODEL_DERIVATIVE_STEP_SIZE))%Q).
  { intros Ho b Hb. rewrite Ho, Hb in Hval. simpl in Hval.
    destruct b; [|congruence].
    apply rbind_inr in Hval as [parameter' [Hpar' Hval]].
    apply index_or_raise_inr in Hpar'. congruence. }
  assert (Horder2 : MODEL_DERIVATIVE_ACCURACY_ORDER <> 1 ->
            inr perturbed =
              if violates_lower (parameter + h_factor * (typical * MODEL_DERIVATIVE_STEP_SIZE)) lower
              then inr (B := Q) lower
              else if violates_upper (parameter + h_factor * (typical * MODEL_DERIVATIVE_STEP_SIZE)) upper
                   then inr match upper with
                            | Finite u => u
                            | Infinity => (parameter + h_factor * (typical * MODEL_DERIVATIVE_STEP_SIZE))%Q
                            end
                   else inr (A := exn) (parameter + h_factor * (typical * MODEL_DERIVATIVE_STEP_SIZE))%Q).
  { intros Ho. apply Z.eqb_neq in Ho. rewrite Ho in Hval. symmetry. exact Hval. }
  clear Hval.
  split_and!; try assumption.
  - rewrite list_insert_insert_eq. reflexivity.
  - rewrite list_insert_insert_eq. apply list_lookup_insert_eq. exact Hi.
  - reflexivity.
  - intros Ho. split; intros Hviol; rewrite (Horder1 Ho _ Hviol);
      (split; [reflexivity | ring]).
  - intros Ho. specialize (Horder2 Ho). split_and!.
    + intros Hl. rewrite Hl in Horder2. congruence.
    + intros Hl Hu. rewrite Hl, Hu in Horder2.
      destruct upper as [u|]; [congruence | discriminate].
    + intros Hl Hu. rewrite Hl, Hu in Horder2.
      injection Horder2 as ->. split; [reflexivity | ring].
Qed.

(** *** Steps of the functions of the model *)

Ltac event_cases :=
  let e := fresh "e" in
  intros e;
  unfold no_event, warning_event, lookup_event, spinup_event, trajectory_event,
    assembly_event, launch_event;
  destruct e;
  repeat match goal with
         | x : output_path |- _ => destruct x
         | x : run_dir |- _ => destruct x
         | x : (run_chain * nat)%type |- _ => destruct x
         end;
  simpl; try tauto.

Ltac steps_side :=
  first [ solve [event_cases; eauto]
        | solve [let H := fresh in intros ? H; exact H]
        | solve [intros; exact I]
        | solve [intros; reflexivity]
        | solve [intros; assumption]
        | solve [intros; discriminate]
        | idtac ].

(** Use a lemma about a function where weaker steps are asked for. *)
Ltac steps_by L :=
  eapply steps_weaken; [ | | | eapply L ]; steps_side.

(** Bind whose first computation returns nothing that matters. *)
Tactic Notation "sbind" "as" ident(x) :=
  eapply (steps_bind _ _ (fun _ => True)); [ | intros x _ ].
Tactic Notation "sbind" :=
  eapply (steps_bind _ _ (fun _ => True)); [ | intros ? _ ].

Lemma open_job_force_load_steps rd :
  steps true no_event (fun _ => True) (open_job_force_load rd).
Proof.
  intros w r w' Hrun. pose proof (open_job_force_load_world rd w) as Hw.
  rewrite Hrun in Hw. simpl in Hw. subst w'.
  split; [apply extends_refl | auto].
Qed.

Lemma run_dirs_steps c :
  steps true warning_event (fun dirs => Forall (fun rd => rd.1 = c) dirs)
    (run_dirs c).
Proof.
  unfold run_dirs. eapply steps_bind; [apply steps_get_world|]. intros w _.
  destruct (fs w !! c) as [runs|].
  - apply steps_ret. apply Forall_forall. intros rd Hin.
    apply list_elem_of_In, in_map_iff in Hin as [k [<- _]]. reflexivity.
  - sbind.
    + unfold warn. apply steps_emit. exact I.
    + apply steps_ret. constructor.
Qed.

Lemma last_run_dir_steps c :
  steps true warning_event (fun r => forall rd, r = Some rd -> rd.1 = c)
    (last_run_dir c).
Proof.
  unfold last_run_dir. sbind as dirs; [steps_by run_dirs_steps|].
  destruct (0 <=? Z.of_nat (length dirs) - 1).
  - sbind; [steps_by open_job_force_load_steps|].
    apply steps_ret. intros rd [= <-]. reflexivity.
  - apply steps_ret. discriminate.
Qed.

Lemma get_total_years_steps rd :
  steps true no_event (fun _ => True) (get_total_years rd).
Proof.
  intros w r w' Hrun. pose proof (get_total_years_world rd w) as Hw.
  rewrite Hrun in Hw. simpl in Hw. subst w'.
  split; [apply extends_refl | auto].
Qed.

Lemma get_real_tolerance_steps rd :
  steps true no_event (fun _ => True) (get_real_tolerance rd).
Proof.
  intros w r w' Hrun. pose proof (get_real_tolerance_world rd w) as Hw.
  rewrite Hrun in Hw. simpl in Hw. subst w'.
  split; [apply extends_refl | auto].
Qed.

Lemma previous_run_dir_steps rd :
  steps true no_event
    (fun r => forall prev, r = Some prev ->
                exists d, rd = Some d /\ prev.1 = d.1)
    (previous_run_dir rd).
Proof.
  unfold previous_run_dir. destruct rd as [[c k]|]; [|apply steps_raise].
  destruct (0 <? Z.of_nat k).
  - apply steps_ret. intros prev [= <-]. eauto.
  - apply steps_ret. discriminate.
Qed.

Lemma is_run_matching_options_steps rd opts :
  steps true warning_event (fun _ => True) (is_run_matching_options rd opts).
Proof.
  unfold is_run_matching_options. destruct rd as [rd|]; [|apply steps_ret; exact I].
  sbind; [steps_by get_total_years_steps|].
  sbind; [steps_by get_real_tolerance_steps|].
  destruct (String.eqb (combination opts) "and").
  - sbind.
    + match goal with |- context [if ?b then _ else _] => destruct b end.
      * unfold warn. apply steps_emit. exact I.
      * apply steps_ret. exact I.
    + apply steps_ret. exact I.
  - destruct (String.eqb (combination opts) "or");
      [apply steps_ret; exact I | apply steps_raise].
Qed.

Lemma add_value_steps entry :
  steps true lookup_event (fun _ => True) (add_value entry).
Proof.
  unfold add_value. sbind; [apply steps_get_world|].
  sbind; [apply steps_set_db|].
  sbind; [apply steps_emit; exact I|].
  apply steps_ret. exact I.
Qed.

Lemma closest_parameter_set_dir_steps parameters :
  steps true no_event (fun r => r = None)
    (closest_parameter_set_dir parameters false).
Proof.
  unfold closest_parameter_set_dir.
  sbind; [apply steps_lift; auto|].
  sbind; [apply steps_get_world|].
  eapply (steps_bind _ _ (fun r => r = None)).
  - destruct (0 <? length _)%nat.
    + eapply (steps_bind _ _ (fun _ => False)); [apply steps_raise | intros ? []].
    + sbind; [apply steps_ret; exact I | apply steps_ret; reflexivity].
  - intros r Hr. apply steps_ret. exact Hr.
Qed.

Lemma parameter_set_dir_steps parameters create :
  steps true lookup_event (fun _ => True) (parameter_set_dir parameters create).
Proof.
  unfold parameter_set_dir.
  sbind as entry; [apply steps_lift; auto|].
  sbind as w; [apply steps_get_world|].
  sbind as index.
  - destruct (db_index (db w) entry); [apply steps_ret; exact I|].
    destruct create; [|apply steps_ret; exact I].
    sbind; [apply add_value_steps | apply steps_ret; exact I].
  - destruct (negb _); [apply steps_raise | apply steps_ret; exact I].
Qed.

Lemma spinup_dir_steps p create :
  steps true lookup_event (fun _ => True) (spinup_dir p create).
Proof.
  unfold spinup_dir. sbind as d.
  - destruct p; [apply parameter_set_dir_steps | apply steps_ret; exact I].
  - destruct d; [apply steps_ret; exact I | apply steps_raise].
Qed.

Lemma loadtxt_parameters_steps d :
  steps true no_event (fun _ => True) (loadtxt_parameters d).
Proof.
  unfold loadtxt_parameters. sbind as w; [apply steps_get_world|].
  destruct (db w !! d); [apply steps_ret; exact I | apply steps_raise].
Qed.

Lemma make_new_run_dir_steps c :
  steps false (fun e => warning_event e \/ exists k, e = EvMakeRunDir (c, k))
    (fun rd => rd.1 = c) (make_new_run_dir c).
Proof.
  unfold make_new_run_dir.
  sbind as w; [apply steps_get_world|].
  sbind.
  - destruct (fs w !! c); [apply steps_ret; exact I | apply steps_set_fs].
  - sbind as dirs; [steps_by run_dirs_steps|].
    sbind as w1; [apply steps_get_world|].
    sbind; [apply steps_set_fs|].
    sbind; [apply steps_emit; eauto|].
    apply steps_ret. reflexivity.
Qed.

Lemma wait_until_run_job_finished_steps out :
  steps true (fun e => e = EvWait out) (fun _ => True)
    (wait_until_run_job_finished out).
Proof.
  unfold wait_until_run_job_finished. sbind.
  - destruct out as [rd|]; [|apply steps_ret; exact I].
    sbind; [steps_by open_job_force_load_steps | apply steps_ret; exact I].
  - apply steps_emit. reflexivity.
Qed.

Lemma start_run_steps model_parameters out years tolerance kind write tcf input wait :
  steps false
    (fun e => (wait = true /\ e = EvWait out) \/ exists req, e = EvStartRun out req)
    (fun _ => True)
    (start_run model_parameters out years tolerance kind write tcf input wait).
Proof.
  unfold start_run.
  sbind as w; [apply steps_get_world|].
  sbind.
  - destruct out as [[c k]|]; [apply steps_set_fs | apply steps_ret; exact I].
  - sbind; [apply steps_emit; eauto|].
    destruct wait; [|apply steps_ret; exact I].
    steps_by wait_until_run_job_finished_steps; try solve [intros e ->; auto].
Qed.

Lemma start_run_trajectory_steps model_parameters years tolerance kind write tcf input wait :
  steps true trajectory_event (fun _ => True)
    (start_run model_parameters TrajectoryTmp years tolerance kind write tcf input wait).
Proof.
  unfold start_run.
  sbind as w; [apply steps_get_world|].
  sbind; [apply steps_ret; exact I|].
  sbind; [apply steps_emit; exact I|].
  destruct wait; [|apply steps_ret; exact I].
  steps_by wait_until_run_job_finished_steps; try solve [intros e ->; exact I].
Qed.

Lemma matching_run_dir_fuel_steps fuel p opts sfc :
  steps false spinup_event
    (fun r => forall rd, r = Some rd -> exists index, rd.1 = Spinup index)
    (matching_run_dir_fuel fuel p opts sfc).
Proof.
  revert p opts. induction fuel as [|fuel IH]; intros p opts; simpl;
    [apply steps_raise|].
  unfold matching_run_dir_body.
  sbind as index; [steps_by spinup_dir_steps|].
  eapply steps_bind; [steps_by last_run_dir_steps; try solve [intros a Ha; exact Ha]|].
  intros last Hlast. simpl in Hlast.
  sbind as is_matching; [steps_by is_run_matching_options_steps|].
  destruct is_matching.
  { apply steps_ret. intros rd ->. rewrite (Hlast rd eq_refl). eauto. }
  sbind as parameters; [steps_by loadtxt_parameters_steps|].
  eapply (steps_bind _ _
            (fun r => forall rd, r = Some rd -> exists i, rd.1 = Spinup i)).
  { destruct (bool_decide (last = None) && sfc).
    - eapply steps_bind; [steps_by closest_parameter_set_dir_steps;
                          try solve [intros a Ha; exact Ha]|].
      intros closest ->. apply steps_raise.
    - apply steps_ret. intros rd ->. rewrite (Hlast rd eq_refl). eauto. }
  intros last' Hlast'.
  sbind.
  { destruct last' as [[c k]|]; [|apply steps_ret; exact I].
    destruct (Hlast' _ eq_refl) as [i Hi]. simpl in Hi. subst c.
    steps_by wait_until_run_job_finished_steps;
      try solve [intros e ->; simpl; eauto]. }
  destruct (String.eqb (combination opts) "or").
  - eapply steps_bind.
    { steps_by make_new_run_dir_steps;
        try solve [intros e [He|[k ->]];
                   [destruct e; try contradiction; exact I | simpl; eauto]];
        try solve [intros a Ha; exact Ha]. }
    intros [c n] Hc. simpl in Hc. subst c.
    sbind; [apply steps_lift; auto|].
    sbind; [destruct last'; [steps_by get_total_years_steps | apply steps_ret; exact I]|].
    sbind.
    { steps_by start_run_steps;
        try solve [intros e [[_ ->]|[req ->]]; simpl; eauto]. }
    apply steps_ret. intros rd [= <-]. simpl. eauto.
  - destruct (String.eqb (combination opts) "and"); [|apply steps_raise].
    sbind; [steps_by IH|].
    eapply steps_bind; [apply IH|]. intros r Hr. apply steps_ret. exact Hr.
Qed.

Lemma _get_trajectory_steps load rd model_parameters :
  steps true trajectory_event (fun _ => True)
    (_get_trajectory load rd model_parameters).
Proof.
  unfold _get_trajectory.
  sbind as w; [apply steps_get_world|].
  sbind; [apply start_run_trajectory_steps|].
  sbind as values; [apply steps_lift; auto|].
  sbind; [apply steps_emit; exact I|].
  destruct (negb _); [apply steps_raise | apply steps_ret; exact I].
Qed.

Lemma _f_steps load parameters opts :
  steps false spinup_event (fun _ => True) (_f load parameters opts).
Proof.
  clear coordinates_to_map_indices.
  unfold _f, matching_run_dir.
  sbind as r; [steps_by matching_run_dir_fuel_steps|].
  sbind as d; [apply steps_lift; auto|].
  steps_by _get_trajectory_steps.
Qed.

Lemma derivative_spinup_base_steps load parameters opts :
  steps false spinup_event (fun _ => True)
    (derivative_spinup_base load parameters opts).
Proof.
  unfold derivative_spinup_base, matching_run_dir.
  sbind as d; [steps_by parameter_set_dir_steps|].
  sbind as index; [destruct d; [apply steps_ret; exact I | apply steps_raise]|].
  sbind as rd; [steps_by matching_run_dir_fuel_steps|].
  sbind as run_years; [steps_by get_total_years_steps|].
  destruct (MODEL_DERIVATIVE_ACCURACY_ORDER =? 1); [|apply steps_ret; exact I].
  sbind as prev; [steps_by previous_run_dir_steps|].
  sbind as prev_years; [steps_by get_total_years_steps|].
  sbind as f; [apply _f_steps | apply steps_ret; exact I].
Qed.


Lemma remove_run_content_steps rd :
  steps false (fun e => e = EvRemoveRun rd) (fun _ => True) (remove_run_content rd).
Proof.
  unfold remove_run_content.
  sbind as w; [apply steps_get_world|].
  sbind; [apply steps_set_fs | apply steps_emit; reflexivity].
Qed.

Lemma start_partial_derivative_run_steps mask base v h_factors h_i
    parameter_index h_factor_index st :
  mask !! parameter_index = Some true ->
  steps false (launch_event mask) (fun _ => True)
    (start_partial_derivative_run base v h_factors h_i parameter_index
       h_factor_index st).
Proof.
  intros Hmask. unfold start_partial_derivative_run.
  sbind as h_factor; [apply steps_lift; auto|].
  sbind as p; [apply steps_lift; auto|].
  set (dir := PartialDerivative (base_parameter_set_dir base) parameter_index
                (Qsign (pert_h p))).
  assert (Hmake : forall k, launch_event mask (EvMakeRunDir (dir, k)))
    by (intros k; simpl; unfold dir; eauto 6).
  assert (Hremove : forall k, launch_event mask (EvRemoveRun (dir, k)))
    by (intros k; simpl; unfold dir; eauto 6).
  assert (Hstart : forall k req, launch_event mask (EvStartRun (RunPath (dir, k)) req))
    by (intros k req; simpl; unfold dir; eauto 6).
  eapply (steps_bind _ _ (fun r => forall rd, r = Some rd -> rd.1 = dir)).
  { apply steps_try.
    - steps_by last_run_dir_steps.
    - apply steps_ret. discriminate. }
  intros run_dir Hrun.
  sbind as spinup_run_dir.
  { destruct run_dir as [d|]; [|apply steps_ret; exact I].
    sbind as input; [|apply steps_ret; exact I].
    apply steps_try; [|apply steps_ret; exact I].
    sbind as j; [steps_by open_job_force_load_steps | apply steps_ret; exact I]. }
  sbind as matching; [steps_by is_run_matching_options_steps|].
  sbind as not_matching.
  { destruct (negb matching); [apply steps_ret; exact I|].
    sbind as input; [destruct spinup_run_dir; [apply steps_ret; exact I
                                              | apply steps_raise]|].
    sbind as matching'; [steps_by is_run_matching_options_steps|].
    apply steps_ret; exact I. }
  sbind as run_dir'; [|apply steps_ret; exact I].
  destruct not_matching; [|apply steps_ret; exact I].
  sbind.
  { destruct run_dir as [[c k]|]; [|apply steps_ret; exact I].
    specialize (Hrun _ eq_refl). simpl in Hrun. subst c.
    steps_by remove_run_content_steps. intros e ->. apply Hremove. }
  eapply steps_bind.
  { steps_by make_new_run_dir_steps.
    intros e [He|[k ->]]; [destruct e; try contradiction; exact I | apply Hmake]. }
  intros [c k] Hc. simpl in Hc. subst c.
  sbind as d; [apply steps_lift; auto|].
  sbind; [|apply steps_ret; exact I].
  steps_by start_run_steps.
  intros e [[Hw _]|[req ->]]; [discriminate | apply Hstart].
Qed.

Lemma start_partial_derivative_runs_steps base v h_factors mask :
  steps false (launch_event mask) (fun _ => True)
    (start_partial_derivative_runs base v h_factors mask).
Proof.
  unfold start_partial_derivative_runs.
  apply (steps_for_each _ _ (fun _ => True)); [|exact I].
  intros parameter_index st _ _.
  eapply steps_bind; [apply steps_lift; intros a Ha; exact Ha|].
  intros masked Hmasked. apply index_or_raise_inr in Hmasked.
  destruct masked; [|apply steps_ret; exact I].
  sbind as typical; [apply steps_lift; auto|].
  apply (steps_for_each _ _ (fun _ => True)); [|exact I].
  intros h_factor_index st' _ _.
  apply start_partial_derivative_run_steps. exact Hmasked.
Qed.

Lemma include_result_steps load v runs parameter_index h_factor_index df :
  steps true assembly_event (fun _ => True)
    (include_result load v runs parameter_index h_factor_index df).
Proof.
  clear coordinates_to_map_indices.
  unfold include_result.
  sbind as d.
  { destruct (dr_run_dirs runs !! _) as [[d|]|];
      [apply steps_ret; exact I | apply steps_raise | apply steps_raise]. }
  sbind; [steps_by wait_until_run_job_finished_steps; intros e ->; exact I|].
  sbind as parameters_dict; [apply steps_lift; auto|].
  sbind as trajectory; [steps_by _get_trajectory_steps|].
  apply steps_lift. auto.
Qed.

Lemma make_trajectories_and_calculate_df_steps load base v h_factors mask runs :
  steps true assembly_event (fun _ => True)
    (make_trajectories_and_calculate_df load base v h_factors mask runs).
Proof.
  unfold make_trajectories_and_calculate_df.
  apply (steps_for_each _ _ (fun _ => True)); [|exact I].
  intros parameter_index df _ _.
  sbind as masked; [apply steps_lift; auto|].
  destruct masked; [|apply steps_ret; exact I].
  sbind as df'; [|apply steps_lift; auto].
  apply (steps_for_each _ _ (fun _ => True)); [|exact I].
  intros h_factor_index df' _ _. apply include_result_steps.
Qed.

(** *** The spinup matching engine *)

Lemma open_job_force_load_fs rd w w' :
  fs w = fs w' ->
  (open_job_force_load rd w).1 = (open_job_force_load rd w').1.
Proof.
  intros Hfs. unfold open_job_force_load, bind, get_world. simpl. rewrite Hfs.
  destruct (fs w' !! rd.1) as [runs|]; [|reflexivity].
  destruct (runs !! rd.2) as [[j|]|]; reflexivity.
Qed.

Lemma open_job_force_load_inr rd w :
  (exists j, (open_job_force_load rd w).1 = inr j) ->
  exists j, open_job_force_load rd w = (inr j, w).
Proof.
  intros [j Hj]. exists j. pose proof (open_job_force_load_world rd w) as Hw.
  destruct (open_job_force_load rd w) as [r w0]. simpl in *. subst. reflexivity.
Qed.

Lemma last_run_dir_Some c w rd w' :
  last_run_dir c w = (inr (Some rd), w') ->
  w' = w /\ exists runs j,
    fs w !! c = Some runs /\ rd = (c, Nat.pred (length runs)) /\
    runs !! Nat.pred (length runs) = Some (Some j) /\
    open_job_force_load rd w = (inr j, w).
Proof.
  unfold last_run_dir, run_dirs, bind, get_world. simpl.
  destruct (fs w !! c) as [runs|] eqn:Hc; simpl.
  - rewrite length_map, length_seq.
    destruct (Z.leb_spec 0 (Z.of_nat (length runs) - 1)) as [Hle|Hlt];
      [|discriminate].
    replace (Z.to_nat (Z.of_nat (length runs) - 1)) with (Nat.pred (length runs))
      by lia.
    pose proof (open_job_force_load_world (c, Nat.pred (length runs)) w) as Hw.
    destruct (open_job_force_load (c, Nat.pred (length runs)) w) as [[e|j] w0] eqn:Ej;
      simpl in Hw; subst w0; [discriminate|].
    intros [= <- <-]. split; [reflexivity|]. exists runs, j.
    split_and!; try reflexivity; try assumption.
    unfold open_job_force_load, bind, get_world in Ej. simpl in Ej.
    rewrite Hc in Ej.
    destruct (runs !! Nat.pred (length runs)) as [[j'|]|]; simpl in Ej;
      try discriminate.
    injection Ej as ->. reflexivity.
  - discriminate.
Qed.

Lemma wait_until_run_job_finished_inr rd j w :
  open_job_force_load rd w = (inr j, w) ->
  wait_until_run_job_finished (RunPath rd) w
    = (inr tt, add_event w (EvWait (RunPath rd))).
Proof.
  intros Hj. unfold wait_until_run_job_finished, bind. rewrite Hj. reflexivity.
Qed.

Lemma bind_ext {A B} (m : M A) (k k' : A -> M B) w :
  (forall a w1, k a w1 = k' a w1) -> bind m k w = bind m k' w.
Proof.
  intros Hk. unfold bind. destruct (m w) as [[e|a] w1]; [reflexivity | apply Hk].
Qed.

(** Under 'or' the engine never calls itself. *)
Lemma matching_run_dir_body_or self self' p opts sfc w :
  combination opts = "or" ->
  matching_run_dir_body self p opts sfc w = matching_run_dir_body self' p opts sfc w.
Proof.
  intros Hc. unfold matching_run_dir_body. rewrite Hc. reflexivity.
Qed.

Lemma matching_run_dir_fuel_or fuel p opts sfc w :
  combination opts = "or" ->
  matching_run_dir_fuel (S fuel) p opts sfc w = matching_run_dir p opts sfc w.
Proof.
  intros Hc. unfold matching_run_dir. simpl. apply matching_run_dir_body_or, Hc.
Qed.

(** Its recursive calls are all under 'or' ... *)
Lemma matching_run_dir_body_ext self self' p opts sfc w :
  (forall p' opts' w', combination opts' = "or" ->
     self p' opts' sfc w' = self' p' opts' sfc w') ->
  matching_run_dir_body self p opts sfc w = matching_run_dir_body self' p opts sfc w.
Proof.
  intros Hself. unfold matching_run_dir_body.
  apply bind_ext; intros index w1.
  apply bind_ext; intros last w2.
  apply bind_ext; intros is_matching w3.
  destruct is_matching; [reflexivity|].
  apply bind_ext; intros parameters w4.
  apply bind_ext; intros last' w5.
  apply bind_ext; intros _ w6.
  destruct (String.eqb (combination opts) "or"); [reflexivity|].
  destruct (String.eqb (combination opts) "and"); [|reflexivity].
  unfold bind. rewrite Hself by reflexivity.
  destruct (self' _ _ _ w6) as [[e|r1] w7]; [reflexivity|].
  rewrite Hself by reflexivity. reflexivity.
Qed.

(** ... so the two levels of [matching_run_dir] are enough for every
    target: more fuel gives the same run, and [RecursionError] is never
    raised. *)
Lemma matching_run_dir_fuel_enough fuel p opts sfc w :
  matching_run_dir_fuel (S (S fuel)) p opts sfc w = matching_run_dir p opts sfc w.
Proof.
  unfold matching_run_dir.
  change (matching_run_dir_body (matching_run_dir_fuel (S fuel)) p opts sfc w
          = matching_run_dir_body (matching_run_dir_fuel 1) p opts sfc w).
  apply matching_run_dir_body_ext. intros p' opts' w' Hc.
  rewrite !matching_run_dir_fuel_or by exact Hc. reflexivity.
Qed.

(** C2: when the last run of the chain of the parameters satisfies the
    target, [matching_run_dir] returns that run directory and leaves the
    run directories as they are; the only events are warnings and, for
    parameters not yet in the database, their new entry: no run directory
    is made and no job is started.  This holds in every world, hence in
    the world a first, satisfying call has left: a second call starts no
    job. *)
Theorem matching_run_dir_idempotent p opts sfc w index w1 rd w2 w3 :
  spinup_dir p true w = (inr index, w1) ->
  last_run_dir (Spinup index) w1 = (inr (Some rd), w2) ->
  is_run_matching_options (Some rd) opts w2 = (inr true, w3) ->
  matching_run_dir p opts sfc w = (inr (Some rd), w3) /\
  fs w3 = fs w /\
  exists evs, trace w3 = trace w ++ evs /\
    Forall (fun e => match e with
                     | EvMakeRunDir _ | EvStartRun _ _ => False
                     | _ => lookup_event e
                     end) evs.
Proof.
  intros H1 H2 H3. split.
  - change (matching_run_dir p opts sfc w)
      with (matching_run_dir_body (matching_run_dir_fuel 1) p opts sfc w).
    unfold matching_run_dir_body, bind. rewrite H1, H2, H3. reflexivity.
  - destruct (spinup_dir_steps p true _ _ _ H1) as [E1 _].
    destruct (last_run_dir_steps (Spinup index) _ _ _ H2) as [E2 _].
    destruct (is_run_matching_options_steps (Some rd) opts _ _ _ H3) as [E3 _].
    assert (E : extends true lookup_event w w3).
    { eapply extends_trans; [exact E1|].
      eapply extends_trans;
        (eapply extends_weaken; [| |eassumption]; [event_cases|auto]). }
    destruct E as [Hfs [evs [Ht Hall]]].
    split; [apply Hfs; reflexivity|].
    exists evs. split; [exact Ht|].
    eapply Forall_impl; [exact Hall|].
    intros e He. destruct e; try contradiction; exact He.
Qed.

Lemma closest_parameter_set_dir_None parameters w r w' :
  closest_parameter_set_dir parameters false w = (inr r, w') -> r = None.
Proof.
  intros H. destruct (closest_parameter_set_dir_steps parameters _ _ _ H) as [_ Hr].
  apply Hr. reflexivity.
Qed.

Lemma loadtxt_parameters_world d w : (loadtxt_parameters d w).2 = w.
Proof.
  unfold loadtxt_parameters, bind, get_world. simpl.
  destruct (db w !! d); reflexivity.
Qed.

(** What [matching_run_dir] does between finding that the last run does
    not match and making a new run: it reads the parameter file and waits
    for the last run.  Looking for a seed run in the chain of the closest
    parameters always raises, so a call that goes on had no reason to
    look. *)
Lemma matching_run_dir_body_not_matching self p opts sfc w index w1 last w2 w3 :
  spinup_dir p true w = (inr index, w1) ->
  last_run_dir (Spinup index) w1 = (inr last, w2) ->
  is_run_matching_options last opts w2 = (inr false, w3) ->
  let w4 := match last with
            | Some d => add_event w3 (EvWait (RunPath d))
            | None => w3
            end in
  (forall r w', matching_run_dir_body self p opts sfc w = (inr r, w') ->
     (exists parameters, loadtxt_parameters index w3 = (inr parameters, w3)) /\
     (last = None -> sfc = false)) /\
  (forall parameters,
     loadtxt_parameters index w3 = (inr parameters, w3) ->
     (last = None -> sfc = false) ->
     matching_run_dir_body self p opts sfc w
     = (if String.eqb (combination opts) "or" then
          do run_dir <- make_new_run_dir (Spinup index);
          do total_concentration_factor <-
            lift (match last with
                  | None => last_or_raise parameters
                  | Some _ => inr 1%Q
                  end);
          do last_years <- (match last with
                            | Some _ => get_total_years last
                            | None => ret 0
                            end);
          run start_run (but_last parameters) (RunPath run_dir)
                (years opts - last_years) (tolerance opts) KindSpinup false
                total_concentration_factor last true;
          ret (Some run_dir)
        else if String.eqb (combination opts) "and" then
          do run_dir <- self (ParameterSetDir index)
                          {| years := years opts; tolerance := 0;
                             combination := "or" |} sfc;
          do run_dir <- self (ParameterSetDir index)
                          {| years := MODEL_SPINUP_MAX_YEARS;
                             tolerance := tolerance opts;
                             combination := "or" |} sfc;
          ret run_dir
        else raise UnboundLocalError) w4).
Proof.
  intros H1 H2 H3 w4.
  assert (Hwait : forall d, last = Some d ->
            wait_until_run_job_finished (RunPath d) w3
            = (inr tt, add_event w3 (EvWait (RunPath d)))).
  { intros d ->.
    apply last_run_dir_Some in H2 as [-> [runs [j [_ [_ [_ Hj]]]]]].
    destruct (is_run_matching_options_steps (Some d) opts _ _ _ H3) as [[Hfs _] _].
    specialize (Hfs eq_refl).
    destruct (open_job_force_load_inr d w3) as [j' Hj'].
    { exists j. rewrite (open_job_force_load_fs d w3 w1 Hfs), Hj. reflexivity. }
    apply (wait_until_run_job_finished_inr _ _ _ Hj'). }
  split.
  - intros r w' Hrun. unfold matching_run_dir_body in Hrun.
    unfold bind at 1 in Hrun. rewrite H1 in Hrun.
    unfold bind at 1 in Hrun. rewrite H2 in Hrun.
    unfold bind at 1 in Hrun. rewrite H3 in Hrun.
    unfold bind at 1 in Hrun.
    pose proof (loadtxt_parameters_world index w3) as Hw.
    destruct (loadtxt_parameters index w3) as [[e|parameters] w0];
      simpl in Hw; subst w0; [discriminate|].
    split; [eauto|]. intros ->. destruct sfc; [|reflexivity]. exfalso.
    simpl in Hrun. unfold bind at 1 2 in Hrun.
    destruct (closest_parameter_set_dir parameters false w3) as [[e|c] w0] eqn:Ec;
      [discriminate|].
    apply closest_parameter_set_dir_None in Ec. subst c. discriminate.
  - intros parameters H4 Hsfc. unfold matching_run_dir_body.
    unfold bind at 1. rewrite H1.
    unfold bind at 1. rewrite H2.
    unfold bind at 1. rewrite H3.
    unfold bind at 1. rewrite H4.
    assert (Hb : bool_decide (last = None) && sfc = false).
    { destruct last as [d|]; [reflexivity|]. rewrite (Hsfc eq_refl).
      apply andb_false_r. }
    rewrite Hb. unfold bind at 1 2. unfold ret at 1. cbv beta iota. unfold w4.
    destruct last as [d|]; [rewrite (Hwait d eq_refl)|]; reflexivity.
Qed.

(** C3: for an 'and' target that the last run does not match,
    [matching_run_dir] is, once the last run has been waited for, the
    sequence of two calls of itself on the same parameter set directory:
    first for [{years, 0, 'or'}], then, in the world the first call
    leaves, for [{MODEL_SPINUP_MAX_YEARS, tolerance, 'or'}].  A call that
    returns returns what the second call returns; whenever the parameter
    file can be read and no seed run is looked for in another chain, the
    call is these two calls, exceptions included. *)
Theorem matching_run_dir_and_as_two_or p opts sfc w index w1 last w2 w3 :
  combination opts = "and" ->
  spinup_dir p true w = (inr index, w1) ->
  last_run_dir (Spinup index) w1 = (inr last, w2) ->
  is_run_matching_options last opts w2 = (inr false, w3) ->
  let w4 := match last with
            | Some d => add_event w3 (EvWait (RunPath d))
            | None => w3
            end in
  let years_target :=
    {| years := years opts; tolerance := 0; combination := "or" |} in
  let tolerance_target :=
    {| years := MODEL_SPINUP_MAX_YEARS; tolerance := tolerance opts;
       combination := "or" |} in
  (forall r w', matching_run_dir p opts sfc w = (inr r, w') ->
     exists r1 w5,
       matching_run_dir (ParameterSetDir index) years_target sfc w4 = (inr r1, w5) /\
       matching_run_dir (ParameterSetDir index) tolerance_target sfc w5 = (inr r, w')) /\
  (forall parameters,
     loadtxt_parameters index w3 = (inr parameters, w3) ->
     (last = None -> sfc = false) ->
     matching_run_dir p opts sfc w
     = bind (matching_run_dir (ParameterSetDir index) years_target sfc)
         (fun _ => matching_run_dir (ParameterSetDir index) tolerance_target sfc)
         w4).
Proof.
  intros Hc H1 H2 H3 w4 years_target tolerance_target.
  destruct (matching_run_dir_body_not_matching (matching_run_dir_fuel 1)
              p opts sfc w index w1 last w2 w3 H1 H2 H3) as [Hret Heq].
  fold w4 in Heq.
  assert (Hgen : forall parameters,
            loadtxt_parameters index w3 = (inr parameters, w3) ->
            (last = None -> sfc = false) ->
            matching_run_dir p opts sfc w
            = bind (matching_run_dir (ParameterSetDir index) years_target sfc)
                (fun _ =>
                   matching_run_dir (ParameterSetDir index) tolerance_target sfc)
                w4).
  { intros parameters H4 Hsfc.
    change (matching_run_dir p opts sfc w)
      with (matching_run_dir_body (matching_run_dir_fuel 1) p opts sfc w).
    rewrite (Heq parameters H4 Hsfc), Hc.
    change (String.eqb "and" "or") with false.
    change (String.eqb "and" "and") with true. cbv iota.
    fold years_target tolerance_target.
    unfold bind at 1 3.
    rewrite (matching_run_dir_fuel_or 0) by reflexivity.
    destruct (matching_run_dir _ years_target sfc w4) as [[e|r1] w5]; [reflexivity|].
    unfold bind. rewrite (matching_run_dir_fuel_or 0) by reflexivity.
    destruct (matching_run_dir _ tolerance_target sfc w5) as [[e|r] w6]; reflexivity. }
  split; [|exact Hgen].
  intros r w' Hrun.
  destruct (Hret r w' Hrun) as [[parameters H4] Hsfc].
  rewrite (Hgen parameters H4 Hsfc) in Hrun.
  apply bind_inr in Hrun as [r1 [w5 [Hr1 Hr2]]]. eauto.
Qed.

Lemma open_job_force_load_eval rd w :
  open_job_force_load rd w
  = (match chain_runs w rd.1 !! rd.2 with
     | Some (Some j) => inr j
     | _ => inl OSError
     end, w).
Proof.
  unfold open_job_force_load, chain_runs, bind, get_world. simpl.
  destruct (fs w !! rd.1) as [runs|]; simpl; [|reflexivity].
  destruct (runs !! rd.2) as [[j|]|]; reflexivity.
Qed.

Lemma get_total_years_loop_eval c k total w :
  get_total_years_loop c k total w = (total_years_of (chain_runs w c) k total, w).
Proof.
  revert total. induction k as [|k IH]; intros total; simpl;
    unfold bind; rewrite open_job_force_load_eval; simpl;
    destruct (chain_runs w c !! _) as [[j|]|]; try reflexivity.
  apply IH.
Qed.

Lemma total_years_of_app runs extra k total :
  (k < length runs)%nat ->
  total_years_of (runs ++ extra) k total = total_years_of runs k total.
Proof.
  revert total. induction k as [|k IH]; intros total Hk; simpl;
    rewrite lookup_app_l by lia; destruct (runs !! _) as [[j|]|]; try reflexivity.
  apply IH. lia.
Qed.

Lemma make_new_run_dir_eval c w :
  make_new_run_dir c w
  = (inr (c, length (chain_runs w c)),
     {| db := db w;
        fs := <[c := chain_runs w c ++ [None]]> (fs w);
        trace := trace w ++ [EvMakeRunDir (c, length (chain_runs w c))] |}).
Proof.
  unfold make_new_run_dir, run_dirs, chain_runs, bind, get_world, set_fs, emit, ret.
  simpl. destruct (fs w !! c) as [runs|] eqn:Hc; simpl.
  - rewrite Hc. simpl. rewrite length_map, length_seq.
    rewrite <- (insert_id (fs w) c runs Hc) at 1.
    rewrite alter_insert_eq. reflexivity.
  - rewrite lookup_insert_eq. simpl.
    rewrite alter_insert_eq. reflexivity.
Qed.

Lemma start_run_wait_eval model_parameters c k years tolerance kind write tcf input w :
  (k < length (chain_runs w c))%nat ->
  let req := Build_job_request model_parameters years tolerance tcf write input kind in
  let j := {| job_request_of := req;
              last_year := (metos3d (fs w) req).1;
              last_tolerance := (metos3d (fs w) req).2 |} in
  start_run model_parameters (RunPath (c, k)) years tolerance kind write tcf input true w
  = (inr tt,
     {| db := db w;
        fs := alter (fun runs => <[k := Some j]> runs) c (fs w);
        trace := trace w ++ [EvStartRun (RunPath (c, k)) req]
                         ++ [EvWait (RunPath (c, k))] |}).
Proof.
  intros Hk req j.
  unfold start_run, wait_until_run_job_finished, bind, get_world, set_fs, emit.
  simpl. fold req. fold j. rewrite open_job_force_load_eval. unfold chain_runs in *.
  simpl. rewrite lookup_alter_eq.
  destruct (fs w !! c) as [runs|]; simpl in *; [|lia].
  rewrite list_lookup_insert_eq by exact Hk. simpl.
  rewrite <- app_assoc. reflexivity.
Qed.

Lemma last_run_dir_None c w w' :
  last_run_dir c w = (inr None, w') -> chain_runs w c = [].
Proof.
  unfold last_run_dir, run_dirs, chain_runs, bind, get_world. simpl.
  destruct (fs w !! c) as [runs|]; simpl; [|reflexivity].
  rewrite length_map, length_seq.
  destruct (Z.leb_spec 0 (Z.of_nat (length runs) - 1)) as [Hle|Hlt].
  - destruct (open_job_force_load _ w) as [[e|j] w0]; discriminate.
  - intros _. destruct runs; [reflexivity | simpl in Hlt; lia].
Qed.

(** C4: a new run made under 'or' requests the target years minus the
    total years of the chain so far, takes its tracer input from the last
    run of the chain (none when the chain is empty; looking for a seed
    run in the chain of the closest parameters never gets as far as a new
    run), and is given the last entry of the stored parameters as total
    concentration factor when the chain is empty and 1 otherwise.  The
    model parameters are the stored parameters without their last entry,
    the run directory is the next one of the chain, and the job is waited
    for. *)
Theorem matching_run_dir_or_new_run p opts sfc w index w1 last_run w2 w3 r w' :
  combination opts = "or" ->
  spinup_dir p true w = (inr index, w1) ->
  last_run_dir (Spinup index) w1 = (inr last_run, w2) ->
  is_run_matching_options last_run opts w2 = (inr false, w3) ->
  matching_run_dir p opts sfc w = (inr r, w') ->
  exists parameters last_years total_concentration_factor,
    let run_dir := (Spinup index, length (chain_runs w3 (Spinup index))) in
    db w3 !! index = Some parameters /\
    get_total_years last_run w3 = (inr last_years, w3) /\
    match last_run with
    | None => length (chain_runs w3 (Spinup index)) = 0%nat /\
              last parameters = Some total_concentration_factor
    | Some d => d = (Spinup index, Nat.pred (length (chain_runs w3 (Spinup index)))) /\
                total_concentration_factor = 1%Q
    end /\
    r = Some run_dir /\
    trace w' =
      trace w3
      ++ match last_run with
         | Some d => [EvWait (RunPath d)]
         | None => []
         end
      ++ [EvMakeRunDir run_dir;
          EvStartRun (RunPath run_dir)
            {| req_model_parameters := but_last parameters;
               req_years := years opts - last_years;
               req_tolerance := tolerance opts;
               req_total_concentration_factor := total_concentration_factor;
               req_write_trajectory := false;
               req_tracer_input_dir := last_run;
               req_job_setup := KindSpinup |};
          EvWait (RunPath run_dir)].
Proof.
  intros Hc H1 H2 H3 Hrun.
  change (matching_run_dir p opts sfc w)
    with (matching_run_dir_body (matching_run_dir_fuel 1) p opts sfc w) in Hrun.
  destruct (matching_run_dir_body_not_matching (matching_run_dir_fuel 1)
              p opts sfc w index w1 last_run w2 w3 H1 H2 H3) as [Hret Heq].
  destruct (Hret r w' Hrun) as [[parameters H4] Hsfc].
  rewrite (Heq parameters H4 Hsfc), Hc in Hrun.
  change (String.eqb "or" "or") with true in Hrun. cbv iota in Hrun.
  clear Hret Heq.
  (* the stored parameters *)
  assert (Hdb : db w3 !! index = Some parameters).
  { unfold loadtxt_parameters, bind, get_world in H4. simpl in H4.
    destruct (db w3 !! index); [|discriminate].
    injection H4 as ->. reflexivity. }
  (* the chain as the last run saw it *)
  destruct (is_run_matching_options_steps last_run opts _ _ _ H3) as [[Hfs32 _] _].
  specialize (Hfs32 eq_refl).
  set (w4 := match last_run with
             | Some d => add_event w3 (EvWait (RunPath d))
             | None => w3
             end) in *.
  assert (Hfs4 : fs w4 = fs w3) by (unfold w4; destruct last_run; reflexivity).
  assert (Hdb4 : db w4 = db w3) by (unfold w4; destruct last_run; reflexivity).
  assert (Hchain4 : chain_runs w4 (Spinup index) = chain_runs w3 (Spinup index))
    by (unfold chain_runs; rewrite Hfs4; reflexivity).
  set (n := length (chain_runs w3 (Spinup index))) in *.
  unfold bind at 1 in Hrun. rewrite make_new_run_dir_eval, Hchain4 in Hrun.
  fold n in Hrun.
  set (w5 := {| db := db w4;
                fs := <[Spinup index := chain_runs w3 (Spinup index) ++ [None]]> (fs w4);
                trace := trace w4 ++ [EvMakeRunDir (Spinup index, n)] |}) in *.
  assert (Hchain5 : chain_runs w5 (Spinup index)
                    = chain_runs w3 (Spinup index) ++ [None]).
  { unfold chain_runs at 1. simpl. rewrite lookup_insert_eq. reflexivity. }
  assert (Hchain31 : chain_runs w3 (Spinup index) = chain_runs w1 (Spinup index)).
  { unfold chain_runs. rewrite Hfs32.
    destruct (last_run_dir_steps (Spinup index) _ _ _ H2) as [[Hfs21 _] _].
    rewrite (Hfs21 eq_refl). reflexivity. }
  assert (Hlast : match last_run with
                  | None => n = 0%nat
                  | Some d => d = (Spinup index, Nat.pred n) /\ (0 < n)%nat
                  end).
  { destruct last_run as [d|].
    - apply last_run_dir_Some in H2 as [-> [runs [j [Hruns [-> [Hj _]]]]]].
      unfold n. rewrite Hchain31. unfold chain_runs. rewrite Hruns. simpl.
      split; [reflexivity|]. apply lookup_lt_Some in Hj.
      destruct runs; simpl in *; lia.
    - unfold n. rewrite Hchain31, (last_run_dir_None _ _ _ H2). reflexivity. }
  apply bind_inr in Hrun as [tcf [w6 [Htcf Hrun]]].
  apply lift_inr in Htcf as [Htcf ->].
  apply bind_inr in Hrun as [last_years [w6 [Hyears Hrun]]].
  assert (Hyears3 : get_total_years last_run w3 = (inr last_years, w3) /\ w6 = w5).
  { destruct last_run as [[c k]|].
    - destruct Hlast as [[= -> ->] Hn].
      simpl in Hyears. rewrite get_total_years_loop_eval in Hyears.
      injection Hyears as Hy <-. split; [|reflexivity].
      simpl. rewrite get_total_years_loop_eval. f_equal.
      rewrite Hchain5 in Hy. rewrite <- Hy. symmetry.
      apply total_years_of_app. fold n. lia.
    - injection Hyears as <- <-. split; reflexivity. }
  destruct Hyears3 as [Hyears3 ->].
  apply bind_inr in Hrun as [[] [w7 [Hstart Hret]]].
  injection Hret as <- <-.
  rewrite start_run_wait_eval in Hstart
    by (rewrite Hchain5, length_app; simpl; fold n; lia).
  injection Hstart as <-.
  exists parameters, last_years, tcf. cbv zeta. fold n.
  split_and!; try assumption; try reflexivity.
  - destruct last_run as [d|].
    + destruct Hlast as [-> _]. injection Htcf as <-. split; reflexivity.
    + split; [exact Hlast|].
      unfold last_or_raise in Htcf. destruct (last parameters); congruence.
  - simpl. unfold w4. destruct last_run as [d|]; simpl;
      rewrite <- ?app_assoc; reflexivity.
Qed.

(** *** Loops without effects *)

Lemma rfor_each_app {A S} (l1 l2 : list A) (body : A -> S -> result S) s :
  rfor_each (l1 ++ l2) body s = rbind (rfor_each l1 body s) (rfor_each l2 body).
Proof.
  revert s. induction l1 as [|x l1 IH]; intros s; simpl; [reflexivity|].
  destruct (body x s) as [e|s']; simpl; [reflexivity | apply IH].
Qed.

(** A loop that appends one value per index. *)
Lemma rfor_each_collect {A} (g : nat -> result A) start n acc out :
  rfor_each (seq start n)
    (fun t values => get x <- g t; inr (values ++ [x])) acc = inr out ->
  exists xs, out = acc ++ xs /\ length xs = n /\
    forall k, (k < n)%nat -> exists x, xs !! k = Some x /\ g (start + k)%nat = inr x.
Proof.
  revert start acc. induction n as [|n IH]; intros start acc; simpl.
  - intros [= <-]. exists []. rewrite app_nil_r. split_and!; [reflexivity..|].
    intros k Hk. lia.
  - destruct (g start) as [e|x] eqn:Eg; simpl; [discriminate|].
    intros H. apply IH in H as [xs [-> [Hlen Hxs]]].
    exists (x :: xs). rewrite <- app_assoc. split_and!; [reflexivity | simpl; lia |].
    intros [|k] Hk; simpl.
    + exists x. rewrite Nat.add_0_r. auto.
    + destruct (Hxs k ltac:(lia)) as [y [Hy Hg]]. exists y.
      split; [exact Hy|]. rewrite <- Hg. f_equal. lia.
Qed.

(** A loop whose pass [t] rewrites entry [t] of a list. *)
Lemma rfor_each_slots {X} (G : nat -> X -> X -> Prop)
    (body : nat -> list X -> result (list X)) start n df df' :
  (forall t d d', body t d = inr d' ->
     exists x y, d !! t = Some x /\ G t x y /\ d' = <[t := y]> d) ->
  rfor_each (seq start n) body df = inr df' ->
  length df' = length df /\
  (forall t, (start <= t < start + n)%nat ->
     exists x y, df !! t = Some x /\ G t x y /\ df' !! t = Some y) /\
  (forall t, (t < start \/ start + n <= t)%nat -> df' !! t = df !! t).
Proof.
  intros Hbody. revert start df. induction n as [|n IH]; intros start df; simpl.
  - intros [= <-]. split_and!; [reflexivity | intros t Ht; lia | reflexivity].
  - destruct (body start df) as [e|d1] eqn:Eb; simpl; [discriminate|].
    intros H. apply IH in H as [Hlen [Hin Hout]].
    destruct (Hbody _ _ _ Eb) as [x [y [Hx [HG ->]]]].
    rewrite length_insert in Hlen. split_and!; [exact Hlen | |].
    + intros t Ht. destruct (decide (t = start)) as [->|Hne].
      * exists x, y. split_and!; try assumption.
        rewrite Hout by lia. apply list_lookup_insert_eq.
        eapply lookup_lt_Some; eauto.
      * destruct (Hin t ltac:(lia)) as [x' [y' [Hx' [HG' Hy']]]].
        rewrite list_lookup_insert_ne in Hx' by lia. eauto.
    + intros t Ht. rewrite Hout by lia. apply list_lookup_insert_ne. lia.
Qed.

(** *** Rows selected by a mask *)

Lemma masked_indices_from_lookup start mask j i :
  masked_indices_from start mask !! j = Some i ->
  (start <= i)%nat /\ mask !! (i - start)%nat = Some true.
Proof.
  revert start j. induction mask as [|b mask IH]; intros start j; simpl;
    [discriminate|].
  destruct b.
  - destruct j as [|j]; simpl.
    + intros [= <-]. rewrite Nat.sub_diag. split; [lia | reflexivity].
    + intros H. apply IH in H as [Hle Hm]. split; [lia|].
      replace (i - start)%nat with (S (i - S start)) by lia. exact Hm.
  - intros H. apply IH in H as [Hle Hm]. split; [lia|].
    replace (i - start)%nat with (S (i - S start)) by lia. exact Hm.
Qed.

Lemma masked_indices_lookup mask j i :
  masked_indices mask !! j = Some i -> mask !! i = Some true.
Proof.
  intros H. apply masked_indices_from_lookup in H as [_ H].
  rewrite Nat.sub_0_r in H. exact H.
Qed.

Lemma masked_indices_from_length start mask :
  length (masked_indices_from start mask) = count_true mask.
Proof.
  unfold count_true. revert start.
  induction mask as [|b mask IH]; intros start; simpl; [reflexivity|].
  destruct b; simpl; rewrite IH; reflexivity.
Qed.

Lemma select_rows_lookup {A} start mask (a : list A) j i :
  length a = length mask ->
  masked_indices_from start mask !! j = Some i ->
  select_rows mask a !! j = a !! (i - start)%nat.
Proof.
  unfold select_rows. revert start a j.
  induction mask as [|b mask IH]; intros start a j Hlen; simpl; [discriminate|].
  destruct a as [|x a]; [discriminate|]. simpl in Hlen.
  injection Hlen as Hlen. destruct b; simpl.
  - destruct j as [|j]; simpl.
    + intros [= <-]. rewrite Nat.sub_diag. reflexivity.
    + intros H. pose proof (masked_indices_from_lookup _ _ _ _ H) as [Hle _].
      rewrite (IH _ _ _ Hlen H).
      replace (i - start)%nat with (S (i - S start)) by lia. reflexivity.
  - intros H. pose proof (masked_indices_from_lookup _ _ _ _ H) as [Hle _].
    rewrite (IH _ _ _ Hlen H).
    replace (i - start)%nat with (S (i - S start)) by lia. reflexivity.
Qed.

Lemma select_rows_length {A} mask (a : list A) :
  length a = length mask -> length (select_rows mask a) = count_true mask.
Proof.
  unfold select_rows, count_true. revert a.
  induction mask as [|b mask IH]; intros a Hlen; simpl; [reflexivity|].
  destruct a as [|x a]; [discriminate|]. injection Hlen as Hlen.
  destruct b; simpl; rewrite IH by exact Hlen; reflexivity.
Qed.

Lemma count_true_app_false mask : count_true (mask ++ [false]) = count_true mask.
Proof.
  unfold count_true. rewrite List.filter_app, length_app. simpl. lia.
Qed.

(** *** Arithmetic on arrays *)

Lemma rfor_each_ext {A S} (l : list A) (body body' : A -> S -> result S) s :
  (forall x s, body x s = body' x s) ->
  rfor_each l body s = rfor_each l body' s.
Proof.
  intros Hb. revert s. induction l as [|x l IH]; intros s; simpl; [reflexivity|].
  rewrite Hb. destruct (body' x s); simpl; [reflexivity | apply IH].
Qed.

Lemma lookup_map_Some {A B} (f : A -> B) (l : list A) i y :
  map f l !! i = Some y -> exists x, l !! i = Some x /\ y = f x.
Proof.
  revert i. induction l as [|a l IH]; intros [|i]; simpl; try discriminate.
  - intros [= <-]. eauto.
  - apply IH.
Qed.

Lemma broadcast_to_same {A} n (b : list A) :
  length b = n -> broadcast_to n b = inr b.
Proof. intros <-. unfold broadcast_to. rewrite Nat.eqb_refl. reflexivity. Qed.

Lemma broadcast_to_singleton {A} n (x : A) :
  broadcast_to n [x] = inr (replicate n x).
Proof.
  unfold broadcast_to. destruct n as [|[|n]]; reflexivity.
Qed.

Lemma inplace_same {A} (op : A -> A -> A) a b :
  length b = length a -> inplace op a b = inr (zip_with op a b).
Proof. intros H. unfold inplace. rewrite broadcast_to_same by exact H. reflexivity. Qed.

Lemma inplace_singleton {A} (op : A -> A -> A) a x :
  inplace op a [x] = inr (zip_with op a (replicate (length a) x)).
Proof. unfold inplace. rewrite broadcast_to_singleton. reflexivity. Qed.

Lemma length_zip_with_same {A B C} (f : A -> B -> C) a b :
  length b = length a -> length (zip_with f a b) = length a.
Proof.
  revert b. induction a as [|x a IH]; intros [|y b]; simpl; try discriminate;
    try reflexivity.
  intros [= H]. rewrite IH by exact H. reflexivity.
Qed.

Lemma sum_abs_two a b : (sum_abs [a; b] == Qabs a + Qabs b)%Q.
Proof. unfold sum_abs. simpl. ring. Qed.

(** *** Quotients of array elements *)

Lemma Qeqb_comp a a' b b' :
  (a == a')%Q -> (b == b')%Q -> Qeqb a b = Qeqb a' b'.
Proof.
  intros Ha Hb. unfold Qeqb.
  destruct (Qeq_bool a b) eqn:E, (Qeq_bool a' b') eqn:E'; try reflexivity.
  - apply Qeq_bool_iff in E. rewrite Ha, Hb in E.
    apply Qeq_bool_iff in E. congruence.
  - apply Qeq_bool_iff in E'. rewrite <- Ha, <- Hb in E'.
    apply Qeq_bool_iff in E'. congruence.
Qed.

Lemma Qltb_comp a a' b b' :
  (a == a')%Q -> (b == b')%Q -> Qltb a b = Qltb a' b'.
Proof.
  intros Ha Hb.
  destruct (Qltb a b) eqn:E, (Qltb a' b') eqn:E'; try reflexivity.
  - apply Qltb_lt in E. rewrite Ha, Hb in E. apply Qltb_lt in E. congruence.
  - apply Qltb_lt in E'. rewrite <- Ha, <- Hb in E'. apply Qltb_lt in E'.
    congruence.
Qed.

Lemma fl_div_comp a a' b b' :
  (a == a')%Q -> (b == b')%Q ->
  fl_eq (fl_div (Num a) (Num b)) (fl_div (Num a') (Num b')).
Proof.
  intros Ha Hb. unfold fl_div.
  rewrite (Qeqb_comp b b' 0 0 Hb (Qeq_refl 0)).
  rewrite (Qeqb_comp a a' 0 0 Ha (Qeq_refl 0)).
  rewrite (Qltb_comp 0 0 a a' (Qeq_refl 0) Ha).
  destruct (Qeqb b' 0) eqn:Eb.
  - destruct (Qeqb a' 0); [exact I|]. destruct (Qltb 0 a'); exact I.
  - simpl. unfold Qdiv. apply Qmult_comp; [exact Ha|].
    apply Qinv_comp. exact Hb.
Qed.

(** Where the divisor is not 0, the quotient is the number of the
    rationals. *)
Lemma fl_div_number a b : ~ (b == 0)%Q -> fl_div (Num a) (Num b) = Num (a / b).
Proof.
  intros Hb. unfold fl_div, Qeqb.
  destruct (Qeq_bool b 0) eqn:E; [|reflexivity].
  apply Qeq_bool_iff in E. contradiction.
Qed.

(** Where the divisor is 0, the quotient is no number. *)
Lemma fl_div_by_zero a b x :
  (b == 0)%Q -> fl_div (Num a) (Num b) = x ->
  x = NaN /\ (a == 0)%Q \/ x = PlusInf /\ (0 < a)%Q \/ x = MinusInf /\ (a < 0)%Q.
Proof.
  intros Hb <-. unfold fl_div, Qeqb.
  apply Qeq_bool_iff in Hb. rewrite Hb.
  destruct (Qeq_bool a 0) eqn:Ea.
  - left. apply Qeq_bool_iff in Ea. auto.
  - destruct (Qltb 0 a) eqn:El.
    + right. left. apply Qltb_lt in El. auto.
    + right. right. unfold Qltb in El. apply negb_false_iff in El.
      apply Qle_bool_iff in El. split; [reflexivity|].
      apply Qeq_bool_neq in Ea. apply Qle_lteq in El as [El|El]; [exact El|].
      contradiction.
Qed.

(** *** One pass of the loops over the tracers *)

Lemma add_to_df_slot v i hfi trajectory t d d' :
  add_to_df v i hfi trajectory t d = inr d' ->
  exists x y, d !! t = Some x /\
    (exists tracer_trajectory,
       trajectory !! t = Some tracer_trajectory /\
       add_slot (dv_parameters_len v) i hfi tracer_trajectory x = inr y) /\
    d' = <[t := y]> d.
Proof.
  unfold add_to_df, add_slot. intros H.
  apply rbind_inr in H as [T [HT H]]. apply index_or_raise_inr in HT.
  apply rbind_inr in H as [x [Hx H]]. apply index_or_raise_inr in Hx.
  apply rbind_inr in H as [row [Hrow H]].
  apply rbind_inr in H as [row' [Hrow' H]]. injection H as <-.
  exists x. eexists. split; [exact Hx|]. split; [|reflexivity].
  exists T. split; [exact HT|]. rewrite Hrow. simpl. rewrite Hrow'. reflexivity.
Qed.

Lemma calculate_df_slot f h_row i t d d' :
  calculate_df f h_row i t d = inr d' ->
  exists x y, d !! t = Some x /\ calculate_slot f h_row i t x = inr y /\
    d' = <[t := y]> d.
Proof.
  unfold calculate_df, calculate_slot. intros H.
  apply rbind_inr in H as [x [Hx H]]. apply index_or_raise_inr in Hx.
  apply rbind_inr in H as [a [Ha H]].
  apply rbind_inr in H as [row [Hrow H]].
  apply rbind_inr in H as [row' [Hrow' H]]. injection H as <-.
  exists x. eexists. split; [exact Hx|]. split; [|reflexivity].
  rewrite Ha. simpl. rewrite Hrow. simpl. rewrite Hrow'. reflexivity.
Qed.

Lemma add_slot_Some n i hfi T a row :
  a !! i = Some row -> length T = length row ->
  add_slot n i hfi T (Some a)
  = inr (Some (<[i := zip_with fl_add row
                        (map (fun x => Num (minus_one_pow hfi * x)) T)]> a)).
Proof.
  intros Hrow Hlen. unfold add_slot.
  rewrite (proj2 (index_or_raise_inr a i row) Hrow). simpl.
  rewrite inplace_same by (rewrite length_map; exact Hlen). reflexivity.
Qed.

Lemma add_slot_None n i hfi T :
  add_slot n i hfi T None
  = add_slot n i hfi T (Some (replicate n (replicate (length T) (Num 0)))).
Proof. reflexivity. Qed.

(** *** The rows of one tracer *)

Section Slots.

Variable load : load_trajectory_function.
Variable fs1 : gmap run_chain (list (option job)).
Variable base : derivative_base.
Variable v : derivative_values.
Variable runs : derivative_runs.
Variable mask : list bool.
Variable shape : nat -> nat.

Let ok := slot_ok load fs1 base v runs mask shape.
Let N := dv_parameters_len v.

Lemma slot_ok_matrix k t slot :
  ok k t slot ->
  ok k t (Some match slot with
               | None => replicate N (replicate (shape t) (Num 0))
               | Some a => a
               end).
Proof.
  destruct slot as [a|]; [auto|]. intros Hnone. split.
  - apply length_replicate.
  - intros i Hi. exists (replicate (shape t) (Num 0)).
    split; [apply lookup_replicate_2; exact Hi|].
    split; [apply length_replicate|].
    split; [|reflexivity]. intros Hk Hm. destruct (Hnone i Hk Hm).
Qed.

Lemma slot_ok_row k t a :
  ok k t (Some a) -> (k < N)%nat -> a !! k = Some (replicate (shape t) (Num 0)).
Proof.
  intros [_ Hrows] Hk. destruct (Hrows k Hk) as [row [Hrow [_ [_ Hzero]]]].
  rewrite Hrow, Hzero; [reflexivity | lia].
Qed.

Lemma slot_ok_insert k t a row :
  ok k t (Some a) -> (k < N)%nat -> length row = shape t ->
  (mask !! k = Some true -> is_derivative_row load fs1 base runs k t row) ->
  (mask !! k <> Some true -> row = replicate (shape t) (Num 0)) ->
  ok (S k) t (Some (<[k := row]> a)).
Proof.
  intros [Hlen Hrows] Hk Hrow Hder Hzero. split.
  - rewrite length_insert. exact Hlen.
  - intros i Hi. destruct (decide (i = k)) as [->|Hne].
    + exists row. split; [apply list_lookup_insert_eq; fold N in Hlen; lia|].
      split; [exact Hrow|]. split; [auto|].
      intros Hn. apply Hzero. intros Hm. apply Hn. split; [lia | exact Hm].
    + destruct (Hrows i Hi) as [row' [Hrow' [Hlen' [Hd Hz]]]].
      exists row'. rewrite list_lookup_insert_ne by auto.
      split; [exact Hrow'|]. split; [exact Hlen'|]. split.
      * intros Hlt. apply Hd. lia.
      * intros Hn. apply Hz. intros [Hlt Hm]. apply Hn. split; [lia | exact Hm].
Qed.

Lemma slot_ok_skip k t slot :
  mask !! k <> Some true -> ok k t slot -> ok (S k) t slot.
Proof.
  intros Hmask. destruct slot as [a|]; simpl.
  - intros [Hlen Hrows]. split; [exact Hlen|]. intros i Hi.
    destruct (Hrows i Hi) as [row [Hrow [Hlen' [Hd Hz]]]].
    exists row. split; [exact Hrow|]. split; [exact Hlen'|]. split.
    + intros Hlt Hm. apply Hd; [|exact Hm].
      destruct (decide (i = k)) as [->|]; [contradiction | lia].
    + intros Hn. apply Hz. intros [Hlt Hm]. apply Hn. split; [lia | exact Hm].
  - intros Hnone i Hi. destruct (decide (i = k)) as [->|]; [exact Hmask|].
    apply Hnone. lia.
Qed.

(** The first trajectory added to a row of zeros. *)
Lemma add_slot_first k t slot T s1 :
  ok k t slot -> (k < N)%nat -> length T = shape t ->
  add_slot N k 0 T slot = inr s1 ->
  exists a, ok k t (Some a) /\
    s1 = Some (<[k := zip_with fl_add (replicate (shape t) (Num 0))
                         (map (fun x => Num (1 * x)) T)]> a).
Proof.
  intros Hok Hk HT Hadd. apply slot_ok_matrix in Hok.
  set (a := match slot with
            | None => replicate N (replicate (shape t) (Num 0))
            | Some a => a
            end) in *.
  assert (Hadd' : add_slot N k 0 T (Some a) = inr s1).
  { destruct slot as [a0|]; [exact Hadd|].
    rewrite add_slot_None, HT in Hadd. exact Hadd. }
  pose proof (slot_ok_row _ _ _ Hok Hk) as Hrow.
  rewrite (add_slot_Some _ _ _ _ _ _ Hrow) in Hadd'
    by (rewrite length_replicate; exact HT).
  injection Hadd' as <-. exists a. split; [exact Hok | reflexivity].
Qed.

Lemma zip_with_zeros_lookup (T : list Q) n c j x :
  length T = n ->
  zip_with fl_add (replicate n (Num 0)) (map (fun y => Num (c * y)) T) !! j
  = Some x ->
  exists p, T !! j = Some p /\ x = Num (0 + c * p).
Proof.
  intros HT H. apply lookup_zip_with_Some in H as (z & y & -> & Hz & Hy).
  apply lookup_replicate in Hz as [-> _].
  apply lookup_map_Some in Hy as [p [Hp ->]]. eauto.
Qed.

Lemma slot_step_order_1 k t slot T0 s1 s2 :
  MODEL_DERIVATIVE_ACCURACY_ORDER = 1 ->
  ok k t slot -> (k < N)%nat -> mask !! k = Some true ->
  perturbed_trajectory load fs1 runs k 0 t = inr T0 ->
  length T0 = shape t ->
  (forall f f_t, base_f base = Some f -> f !! t = Some f_t ->
                 length f_t = shape t) ->
  add_slot N k 0 T0 slot = inr s1 ->
  calculate_slot (base_f base) (h_row runs 1 k) k t s1 = inr s2 ->
  ok (S k) t s2.
Proof.
  intros Horder Hok Hk Hmask HT0 Hlen0 Hf Hadd Hcalc.
  destruct (add_slot_first _ _ _ _ _ Hok Hk Hlen0 Hadd) as [a [Ha ->]].
  set (row1 := zip_with fl_add (replicate (shape t) (Num 0))
                 (map (fun x => Num (1 * x)) T0)) in *.
  assert (Hlen1 : length row1 = shape t).
  { unfold row1. rewrite length_zip_with_same; rewrite ?length_replicate, ?length_map;
      auto. }
  assert (HkN : (k < length a)%nat) by (destruct Ha as [-> _]; exact Hk).
  unfold calculate_slot in Hcalc. simpl in Hcalc.
  rewrite (proj2 (index_or_raise_inr _ k row1)) in Hcalc
    by (apply list_lookup_insert_eq; exact HkN).
  simpl in Hcalc. rewrite Horder in Hcalc. simpl in Hcalc.
  destruct (base_f base) as [f|] eqn:Ebase; simpl in Hcalc; [|discriminate].
  destruct (index_or_raise f t) as [e|f_t] eqn:Eft; simpl in Hcalc; [discriminate|].
  apply index_or_raise_inr in Eft.
  pose proof (Hf f f_t eq_refl Eft) as Hlenf.
  rewrite inplace_same in Hcalc by (rewrite length_map; congruence).
  simpl in Hcalc.
  unfold h_row in Hcalc. simpl in Hcalc. rewrite inplace_singleton in Hcalc.
  simpl in Hcalc. injection Hcalc as <-.
  rewrite list_insert_insert_eq.
  assert (Hlen2 : length (zip_with fl_sub row1 (map Num f_t)) = shape t).
  { rewrite length_zip_with_same; rewrite ?length_map; congruence. }
  apply slot_ok_insert; try assumption.
  - rewrite length_zip_with_same; rewrite ?length_replicate; auto.
  - intros _. unfold is_derivative_row. rewrite Horder. simpl.
    exists T0, f, f_t. split_and!; try assumption; try reflexivity.
    + rewrite length_zip_with_same; rewrite ?length_replicate; congruence.
    + intros j x Hx.
      apply lookup_zip_with_Some in Hx as (y & h & -> & Hy & Hh).
      apply lookup_replicate in Hh as [-> _].
      apply lookup_zip_with_Some in Hy as (z & b' & -> & Hz & Hb).
      apply (zip_with_zeros_lookup _ _ _ _ _ Hlen0) in Hz as [p [Hp ->]].
      apply lookup_map_Some in Hb as [b [Hb ->]].
      exists p, b. split_and!; try assumption.
      apply fl_div_comp; [ring | reflexivity].
  - intros Hn. contradiction.
Qed.

Lemma slot_step_order_2 k t slot T0 T1 s1 s2 s3 :
  MODEL_DERIVATIVE_ACCURACY_ORDER <> 1 ->
  ok k t slot -> (k < N)%nat -> mask !! k = Some true ->
  perturbed_trajectory load fs1 runs k 0 t = inr T0 ->
  perturbed_trajectory load fs1 runs k 1 t = inr T1 ->
  length T0 = shape t -> length T1 = shape t ->
  add_slot N k 0 T0 slot = inr s1 ->
  add_slot N k 1 T1 s1 = inr s2 ->
  calculate_slot (base_f base) (h_row runs 2 k) k t s2 = inr s3 ->
  ok (S k) t s3.
Proof.
  intros Horder Hok Hk Hmask HT0 HT1 Hlen0 Hlen1 Hadd0 Hadd1 Hcalc.
  destruct (add_slot_first _ _ _ _ _ Hok Hk Hlen0 Hadd0) as [a [Ha ->]].
  set (row1 := zip_with fl_add (replicate (shape t) (Num 0))
                 (map (fun x => Num (1 * x)) T0)) in *.
  assert (Hrow1 : length row1 = shape t).
  { unfold row1. rewrite length_zip_with_same; rewrite ?length_replicate, ?length_map;
      auto. }
  assert (HkN : (k < length a)%nat) by (destruct Ha as [-> _]; exact Hk).
  rewrite (add_slot_Some _ _ _ _ _ row1) in Hadd1;
    [|apply list_lookup_insert_eq; exact HkN | congruence].
  injection Hadd1 as <-. rewrite list_insert_insert_eq in Hcalc.
  set (row2 := zip_with fl_add row1
                 (map (fun x => Num (minus_one_pow 1 * x)) T1)) in *.
  assert (Hrow2 : length row2 = shape t).
  { unfold row2. rewrite length_zip_with_same; rewrite ?length_map; congruence. }
  unfold calculate_slot in Hcalc. simpl in Hcalc.
  rewrite (proj2 (index_or_raise_inr _ k row2)) in Hcalc
    by (apply list_lookup_insert_eq; exact HkN).
  simpl in Hcalc. apply Z.eqb_neq in Horder. rewrite Horder in Hcalc.
  simpl in Hcalc. injection Hcalc as <-.
  rewrite list_insert_insert_eq.
  apply slot_ok_insert; try assumption.
  - rewrite length_map. exact Hrow2.
  - intros _. unfold is_derivative_row. rewrite Horder.
    exists T0, T1. split_and!; try assumption.
    + rewrite length_map. congruence.
    + intros j x Hx.
      apply lookup_map_Some in Hx as [y [Hy ->]].
      apply lookup_zip_with_Some in Hy as (z & m & -> & Hz & Hm).
      apply (zip_with_zeros_lookup _ _ _ _ _ Hlen0) in Hz as [p [Hp ->]].
      apply lookup_map_Some in Hm as [q [Hq ->]].
      exists p, q. split_and!; try assumption.
      unfold h_row. simpl seq. simpl map.
      apply fl_div_comp.
      * unfold minus_one_pow. simpl. ring.
      * apply sum_abs_two.
  - intros Hn. contradiction.
Qed.

End Slots.

(** *** Loops with effects *)

Lemma for_each_invariant {A S} (I : nat -> S -> world -> Prop) (l : list A)
    (body : A -> S -> M S) s w s' w' :
  (forall k x s w s' w',
     l !! k = Some x -> I k s w -> body x s w = (inr s', w') -> I (Datatypes.S k) s' w') ->
  I 0%nat s w -> for_each l body s w = (inr s', w') -> I (length l) s' w'.
Proof.
  revert I s w. induction l as [|x l IH]; intros I s w Hbody H0; simpl.
  - intros [= <- <-]. exact H0.
  - intros H. apply bind_inr in H as [s1 [w1 [H1 H]]].
    apply (IH (fun k => I (Datatypes.S k)) s1 w1); [| |exact H].
    + intros k y t u t' u' Hy. apply (Hbody (Datatypes.S k)). exact Hy.
    + apply (Hbody 0%nat x s w); [reflexivity | exact H0 | exact H1].
Qed.

(** *** Trajectories *)

Lemma _get_trajectory_inr load rd model_parameters w trajectory w' :
  _get_trajectory load rd model_parameters w = (inr trajectory, w') ->
  fs w' = fs w /\ length trajectory = METOS_TRACER_DIM /\
  forall t, (t < METOS_TRACER_DIM)%nat ->
    exists a, trajectory !! t = Some a /\
      load (metos3d_trajectory (fs w)
              (Build_job_request model_parameters 1 0 1 true rd KindTrajectory))
           t = inr a.
Proof.
  intros H.
  destruct (_get_trajectory_steps load rd model_parameters _ _ _ H) as [[Hfs _] _].
  split; [apply Hfs; reflexivity|].
  unfold _get_trajectory in H.
  apply bind_inr in H as [w0 [w1 [Hw H]]]. injection Hw as <- <-.
  apply bind_inr in H as [[] [w2 [_ H]]].
  apply bind_inr in H as [values [w3 [Hvalues H]]].
  apply lift_inr in Hvalues as [Hvalues ->].
  apply bind_inr in H as [[] [w4 [_ H]]].
  destruct (negb (length values =? METOS_TRACER_DIM)%nat) eqn:Hlen; [discriminate|].
  injection H as <- <-.
  apply rfor_each_collect in Hvalues as [xs [-> [Hxs Hload]]].
  split; [simpl; exact Hxs|]. intros t Ht.
  destruct (Hload t Ht) as [a [Ha Hg]]. exists a. split; assumption.
Qed.

Lemma include_result_inr load v runs i hfi df w df' w' :
  include_result load v runs i hfi df w = (inr df', w') ->
  fs w' = fs w /\ length df' = length df /\
  forall t, (t < METOS_TRACER_DIM)%nat ->
    exists x y T, df !! t = Some x /\
      perturbed_trajectory load (fs w) runs i hfi t = inr T /\
      add_slot (dv_parameters_len v) i hfi T x = inr y /\
      df' !! t = Some y.
Proof.
  intros H.
  destruct (include_result_steps load v runs i hfi df _ _ _ H) as [[Hfs _] _].
  split; [apply Hfs; reflexivity|].
  unfold include_result in H.
  apply bind_inr in H as [d [w1 [Hd H]]].
  assert (Hdir : dr_run_dirs runs !! (i, hfi) = Some (Some d) /\ w1 = w).
  { destruct (dr_run_dirs runs !! (i, hfi)) as [[d'|]|]; try discriminate.
    injection Hd as <- <-. split; reflexivity. }
  destruct Hdir as [Hdir ->].
  apply bind_inr in H as [[] [w2 [Hwait H]]].
  destruct (wait_until_run_job_finished_steps _ _ _ _ Hwait) as [[Hfs2 _] _].
  specialize (Hfs2 eq_refl).
  apply bind_inr in H as [dict [w3 [Hdict H]]].
  apply lift_inr in Hdict as [Hdict ->].
  apply bind_inr in H as [trajectory [w4 [Htraj H]]].
  apply lift_inr in H as [H ->].
  apply _get_trajectory_inr in Htraj as [_ [Hlen Hload]].
  apply (rfor_each_slots
           (fun t x y => exists T, trajectory !! t = Some T /\
                           add_slot (dv_parameters_len v) i hfi T x = inr y))
    in H as [Hlen' [Hin _]]; [|intros t d0 d1; apply add_to_df_slot].
  split; [exact Hlen'|]. intros t Ht.
  destruct (Hin t ltac:(lia)) as [x [y [Hx [[T [HT Hadd]] Hy]]]].
  exists x, y, T. split_and!; try assumption.
  destruct (Hload t Ht) as [a [Ha Hl]]. rewrite HT in Ha. injection Ha as <-.
  unfold perturbed_trajectory. rewrite Hdir, Hdict. simpl.
  rewrite <- Hfs2. exact Hl.
Qed.

Lemma perturbed_trajectory_shape load shape fs1 runs i hfi t T :
  (forall files t a, load files t = inr a -> length a = shape t) ->
  perturbed_trajectory load fs1 runs i hfi t = inr T -> length T = shape t.
Proof.
  intros Hshape. unfold perturbed_trajectory.
  destruct (dr_run_dirs runs !! (i, hfi)) as [[d|]|]; try discriminate.
  intros H. apply rbind_inr in H as [dict [_ H]]. eapply Hshape, H.
Qed.

(** "make trajectories and calculate df" leaves the run directories as
    they are and fills, for every tracer, the rows of the masked
    parameters with their derivatives. *)
Lemma make_trajectories_and_calculate_df_inr load base v h_factors mask runs
    shape w df w' :
  (forall files t a, load files t = inr a -> length a = shape t) ->
  (forall t f f_t, base_f base = Some f -> f !! t = Some f_t ->
                   length f_t = shape t) ->
  (MODEL_DERIVATIVE_ACCURACY_ORDER = 1 /\ h_factors = [1%Q]) \/
  (MODEL_DERIVATIVE_ACCURACY_ORDER <> 1 /\ h_factors = [1%Q; (-1)%Q]) ->
  make_trajectories_and_calculate_df load base v h_factors mask runs w
    = (inr df, w') ->
  fs w' = fs w /\ length df = METOS_TRACER_DIM /\
  forall t, (t < METOS_TRACER_DIM)%nat ->
    exists slot, df !! t = Some slot /\
      slot_ok load (fs w) base v runs mask shape (dv_parameters_len v) t slot.
Proof.
  intros Hshape Hf Horder H.
  unfold make_trajectories_and_calculate_df in H.
  set (I := fun (k : nat) (d : list (option (list (list float64)))) (u : world) =>
              fs u = fs w /\ length d = METOS_TRACER_DIM /\
              forall t, (t < METOS_TRACER_DIM)%nat ->
                exists slot, d !! t = Some slot /\
                  slot_ok load (fs w) base v runs mask shape k t slot).
  apply (for_each_invariant I) in H.
  - rewrite length_seq in H. exact H.
  - clear H. intros k x d u d' u' Hx [Hfs [Hlen Hslots]] Hbody.
    apply lookup_seq in Hx as [-> Hk]. simpl in Hbody.
    apply bind_inr in Hbody as [masked [u1 [Hmasked Hbody]]].
    apply lift_inr in Hmasked as [Hmasked ->].
    apply index_or_raise_inr in Hmasked.
    destruct masked.
    2:{ injection Hbody as <- <-. split; [exact Hfs|]. split; [exact Hlen|].
        intros t Ht. destruct (Hslots t Ht) as [slot [Hslot Hok]].
        exists slot. split; [exact Hslot|].
        apply slot_ok_skip; [congruence | exact Hok]. }
    apply bind_inr in Hbody as [d1 [u1 [Hinc Hcalc]]].
    apply lift_inr in Hcalc as [Hcalc ->].
    destruct Horder as [[Horder ->]|[Horder ->]]; simpl in Hinc, Hcalc.
    + (* forward differences *)
      apply bind_inr in Hinc as [d0 [u0 [Hinc Hret]]]. injection Hret as <- <-.
      apply include_result_inr in Hinc as [Hfs0 [Hlen0 Hadd]].
      apply (rfor_each_slots
               (fun t x y => calculate_slot (base_f base) (h_row runs 1 k) k t x
                             = inr y))
        in Hcalc as [Hlen1 [Hin _]]; [|intros t a b; apply calculate_df_slot].
      split; [congruence|]. split; [congruence|]. intros t Ht.
      destruct (Hslots t Ht) as [slot [Hslot Hok]].
      destruct (Hadd t Ht) as [x [y [T [Hx [HT [Hy Hd0]]]]]].
      rewrite Hslot in Hx. injection Hx as <-.
      destruct (Hin t ltac:(lia)) as [x' [y' [Hx' [Hcalc' Hy']]]].
      rewrite Hd0 in Hx'. injection Hx' as <-.
      exists y'. split; [exact Hy'|]. rewrite Hfs in HT.
      eapply slot_step_order_1; eauto.
      eapply perturbed_trajectory_shape; eauto.
    + (* central differences *)
      apply bind_inr in Hinc as [d0 [u0 [Hinc0 Hinc]]].
      apply bind_inr in Hinc as [d2 [u2 [Hinc1 Hret]]]. injection Hret as <- <-.
      apply include_result_inr in Hinc0 as [Hfs0 [Hlen0 Hadd0]].
      apply include_result_inr in Hinc1 as [Hfs1 [Hlen1 Hadd1]].
      apply (rfor_each_slots
               (fun t x y => calculate_slot (base_f base) (h_row runs 2 k) k t x
                             = inr y))
        in Hcalc as [Hlen2 [Hin _]]; [|intros t a b; apply calculate_df_slot].
      split; [congruence|]. split; [congruence|]. intros t Ht.
      destruct (Hslots t Ht) as [slot [Hslot Hok]].
      destruct (Hadd0 t Ht) as [x [y [T0 [Hx [HT0 [Hy Hd0]]]]]].
      rewrite Hslot in Hx. injection Hx as <-.
      destruct (Hadd1 t Ht) as [x1 [y1 [T1 [Hx1 [HT1 [Hy1 Hd1]]]]]].
      rewrite Hd0 in Hx1. injection Hx1 as <-.
      destruct (Hin t ltac:(lia)) as [x' [y' [Hx' [Hcalc' Hy']]]].
      rewrite Hd1 in Hx'. injection Hx' as <-.
      exists y'. split; [exact Hy'|].
      rewrite Hfs in HT0. rewrite Hfs0, Hfs in HT1.
      eapply slot_step_order_2; eauto;
        eapply perturbed_trajectory_shape; eauto.
  - split; [reflexivity|]. split; [apply length_replicate|]. intros t Ht.
    exists None. split; [apply lookup_replicate_2; exact Ht|].
    intros i Hi. lia.
Qed.

(** *** The blocks of [_df] *)

Lemma choose_h_factors_inr h_factors :
  choose_h_factors = inr h_factors ->
  (MODEL_DERIVATIVE_ACCURACY_ORDER = 1 /\ h_factors = [1%Q]) \/
  (MODEL_DERIVATIVE_ACCURACY_ORDER <> 1 /\ MODEL_DERIVATIVE_ACCURACY_ORDER = 2 /\
   h_factors = [1%Q; (-1)%Q]).
Proof.
  unfold choose_h_factors.
  destruct (Z.eqb_spec MODEL_DERIVATIVE_ACCURACY_ORDER 1) as [E1|E1].
  - intros [= <-]. left. auto.
  - destruct (Z.eqb_spec MODEL_DERIVATIVE_ACCURACY_ORDER 2) as [E2|E2];
      [|discriminate].
    intros [= <-]. right. auto.
Qed.

Lemma _f_inr load parameters opts w f w' :
  _f load parameters opts w = (inr f, w') ->
  length f = METOS_TRACER_DIM /\
  forall t f_t, f !! t = Some f_t -> exists files, load files t = inr f_t.
Proof.
  unfold _f. intros H.
  apply bind_inr in H as [rd [w1 [_ H]]].
  apply bind_inr in H as [dict [w2 [_ H]]].
  apply _get_trajectory_inr in H as [_ [Hlen Hload]].
  split; [exact Hlen|]. intros t f_t Ht.
  assert (Hlt : (t < METOS_TRACER_DIM)%nat)
    by (rewrite <- Hlen; eapply lookup_lt_Some; eauto).
  destruct (Hload t Hlt) as [a [Ha Hl]]. rewrite Ht in Ha. injection Ha as <-.
  eauto.
Qed.

Lemma derivative_spinup_base_f load parameters opts w base w' :
  derivative_spinup_base load parameters opts w = (inr base, w') ->
  forall f, base_f base = Some f ->
    length f = METOS_TRACER_DIM /\
    forall t f_t, f !! t = Some f_t -> exists files, load files t = inr f_t.
Proof.
  unfold derivative_spinup_base. intros H.
  apply bind_inr in H as [d [w1 [_ H]]].
  apply bind_inr in H as [index [w2 [_ H]]].
  apply bind_inr in H as [rd [w3 [_ H]]].
  apply bind_inr in H as [run_years [w4 [_ H]]].
  destruct (MODEL_DERIVATIVE_ACCURACY_ORDER =? 1).
  - apply bind_inr in H as [prev [w5 [_ H]]].
    apply bind_inr in H as [prev_years [w6 [_ H]]].
    apply bind_inr in H as [f [w7 [Hf H]]]. injection H as <- <-. simpl.
    intros f' [= <-]. eapply _f_inr, Hf.
  - injection H as <- <-. simpl. discriminate.
Qed.

Lemma apply_partial_derivatives_mask_inr mask df out :
  apply_partial_derivatives_mask mask df = inr out ->
  length out = METOS_TRACER_DIM /\
  forall t, (t < METOS_TRACER_DIM)%nat ->
    exists a, df !! t = Some (Some a) /\ length a = length mask /\
      out !! t = Some (select_rows mask a).
Proof.
  unfold apply_partial_derivatives_mask. intros H.
  apply rbind_inr in H as [out' [Hloop H]].
  destruct (negb (length out' =? METOS_TRACER_DIM)%nat); [discriminate|].
  injection H as <-.
  rewrite (rfor_each_ext _ _
             (fun t values =>
                get x <- (get slot <- index_or_raise df t;
                          get df_tracer <- (match slot with
                                            | Some a => inr a
                                            | None => inl TypeError
                                            end);
                          if negb (length mask =? length df_tracer)%nat
                          then inl IndexError
                          else inr (select_rows mask df_tracer));
                inr (values ++ [x]))) in Hloop.
  2:{ intros t values. destruct (index_or_raise df t) as [e|[a|]]; simpl;
        try reflexivity.
      destruct (negb (length mask =? length a)%nat); reflexivity. }
  apply rfor_each_collect in Hloop as [xs [-> [Hlen Hxs]]].
  split; [exact Hlen|]. intros t Ht.
  destruct (Hxs t Ht) as [x [Hx Hg]]. simpl in Hg.
  apply rbind_inr in Hg as [slot [Hslot Hg]]. apply index_or_raise_inr in Hslot.
  destruct slot as [a|]; simpl in Hg; [|discriminate].
  destruct (Nat.eqb_spec (length mask) (length a)) as [E|E]; simpl in Hg;
    [|discriminate].
  injection Hg as <-. exists a. split_and!; auto.
Qed.

Lemma prepare_partial_derivatives_mask_inr parameters partial_derivatives_mask mask :
  prepare_partial_derivatives_mask parameters partial_derivatives_mask = inr mask ->
  let given := default (replicate (length parameters) true)
                 partial_derivatives_mask in
  length given = length parameters /\
  mask = if total_concentration_factor_included_in_parameters
         then given else given ++ [false].
Proof.
  unfold prepare_partial_derivatives_mask. intros H. cbv zeta.
  apply rbind_inr in H as [m [Hm H]].
  assert (Hgiven : m = default (replicate (length parameters) true)
                         partial_derivatives_mask /\
                   length m = length parameters).
  { destruct partial_derivatives_mask as [m'|]; simpl in *.
    - destruct (Nat.eqb_spec (length m') (length parameters)) as [E|E];
        simpl in Hm; [|discriminate].
      injection Hm as <-. auto.
    - injection Hm as <-. split; [reflexivity | apply length_replicate]. }
  destruct Hgiven as [<- Hlen]. split; [exact Hlen|].
  destruct total_concentration_factor_included_in_parameters; simpl in H;
    injection H as <-; reflexivity.
Qed.

(** The blocks of a call of [_df] that returns, and the events of each:
    up to the end of "start partial derivative runs" no job of a partial
    derivative run is waited for, and from then on no directory is made
    or emptied and no job is started in a run directory. *)
Lemma _df_inr load parameters opts partial_derivatives_mask w df w' :
  _df load parameters opts partial_derivatives_mask w = (inr df, w') ->
  exists mask h_factors base w0 v runs w1 full,
    prepare_partial_derivatives_mask parameters partial_derivatives_mask
      = inr mask /\
    choose_h_factors = inr h_factors /\
    derivative_spinup_base load parameters opts w = (inr base, w0) /\
    init_values parameters = inr v /\
    start_partial_derivative_runs base v h_factors mask w0 = (inr runs, w1) /\
    make_trajectories_and_calculate_df load base v h_factors mask runs w1
      = (inr full, w') /\
    apply_partial_derivatives_mask mask full = inr df /\
    extends false spinup_event w w0 /\
    extends false (launch_event mask) w0 w1 /\
    extends true assembly_event w1 w'.
Proof.
  unfold _df. intros H.
  apply bind_inr in H as [mask [u [Hmask H]]]. apply lift_inr in Hmask as [Hmask ->].
  apply bind_inr in H as [h_factors [u [Hh H]]]. apply lift_inr in Hh as [Hh ->].
  apply bind_inr in H as [base [w0 [Hbase H]]].
  apply bind_inr in H as [v [u [Hv H]]]. apply lift_inr in Hv as [Hv ->].
  apply bind_inr in H as [runs [w1 [Hruns H]]].
  apply bind_inr in H as [full [w2 [Hfull H]]].
  apply lift_inr in H as [H ->].
  exists mask, h_factors, base, w0, v, runs, w1, full.
  split_and!; try assumption.
  - apply (derivative_spinup_base_steps _ _ _ _ _ _ Hbase).
  - apply (start_partial_derivative_runs_steps _ _ _ _ _ _ _ Hruns).
  - apply (make_trajectories_and_calculate_df_steps _ _ _ _ _ _ _ _ _ Hfull).
Qed.

(** *** The arrays of the partial derivative runs *)

Lemma start_partial_derivative_run_inr base v h_factors h_i i hfi st w st' w' :
  start_partial_derivative_run base v h_factors h_i i hfi st w = (inr st', w') ->
  exists h_factor p d,
    h_factors !! hfi = Some h_factor /\
    perturb v h_i h_factor i = inr p /\
    d.1 = PartialDerivative (base_parameter_set_dir base) i (Qsign (pert_h p)) /\
    dr_h st' = <[(i, hfi) := pert_h p]> (dr_h st) /\
    dr_parameters_for_derivative st'
      = <[(i, hfi) := pert_parameters p]> (dr_parameters_for_derivative st) /\
    dr_run_dirs st' = <[(i, hfi) := Some d]> (dr_run_dirs st).
Proof.
  unfold start_partial_derivative_run. intros H.
  apply bind_inr in H as [h_factor [u [Hh H]]]. apply lift_inr in Hh as [Hh ->].
  apply index_or_raise_inr in Hh.
  apply bind_inr in H as [p [u [Hp H]]]. apply lift_inr in Hp as [Hp ->].
  set (dir := PartialDerivative (base_parameter_set_dir base) i (Qsign (pert_h p)))
    in *.
  apply bind_inr in H as [run_dir [w1 [Hrun H]]].
  assert (Hdir : forall d, run_dir = Some d -> d.1 = dir).
  { eapply (steps_try true warning_event
              (fun r => forall rd, r = Some rd -> rd.1 = dir)); [| |exact Hrun|].
    - apply last_run_dir_steps.
    - apply steps_ret. discriminate.
    - reflexivity. }
  apply bind_inr in H as [spinup_run_dir [w2 [_ H]]].
  apply bind_inr in H as [matching [w3 [Hmatching H]]].
  apply bind_inr in H as [not_matching [w4 [Hnot H]]].
  apply bind_inr in H as [run_dir' [w5 [Hrun' H]]].
  injection H as <- <-. simpl.
  assert (Hd : exists d, run_dir' = Some d /\ d.1 = dir).
  { destruct not_matching.
    - apply bind_inr in Hrun' as [[] [w6 [_ Hrun']]].
      apply bind_inr in Hrun' as [d [w7 [Hmake Hrun']]].
      rewrite make_new_run_dir_eval in Hmake. injection Hmake as <- <-.
      apply bind_inr in Hrun' as [dict [w8 [_ Hrun']]].
      apply bind_inr in Hrun' as [[] [w9 [_ Hrun']]].
      injection Hrun' as <- <-. eexists. split; reflexivity.
    - injection Hrun' as <- <-.
      destruct matching; simpl in Hnot; [|discriminate].
      destruct run_dir as [d|]; [|discriminate].
      exists d. split; [reflexivity | apply Hdir; reflexivity]. }
  destruct Hd as [d [-> Hd]].
  exists h_factor, p, d. split_and!; auto.
Qed.

Lemma entry_ok_insert base v h_factors st st' i hfi i' hfi' h pfd d :
  (i', hfi') <> (i, hfi) ->
  dr_h st' = <[(i, hfi) := h]> (dr_h st) ->
  dr_parameters_for_derivative st'
    = <[(i, hfi) := pfd]> (dr_parameters_for_derivative st) ->
  dr_run_dirs st' = <[(i, hfi) := d]> (dr_run_dirs st) ->
  entry_ok base v h_factors st i' hfi' -> entry_ok base v h_factors st' i' hfi'.
Proof.
  intros Hne Hh Hp Hd (typical & h_factor & p & d' & H1 & H2 & H3 & H4 & H5 & H6 & H7).
  exists typical, h_factor, p, d'. rewrite Hh, Hp, Hd.
  rewrite !lookup_insert_ne by congruence. split_and!; assumption.
Qed.

(** Every entry of a masked parameter has been written when "start
    partial derivative runs" is through. *)
Lemma start_partial_derivative_runs_inr base v h_factors mask w runs w' :
  start_partial_derivative_runs base v h_factors mask w = (inr runs, w') ->
  forall i hfi, (i < dv_parameters_len v)%nat -> mask !! i = Some true ->
    (hfi < length h_factors)%nat -> entry_ok base v h_factors runs i hfi.
Proof.
  unfold start_partial_derivative_runs. intros H.
  set (I := fun (k : nat) (st : derivative_runs) (_ : world) =>
              forall i hfi, (i < k)%nat -> mask !! i = Some true ->
                (hfi < length h_factors)%nat ->
                entry_ok base v h_factors st i hfi).
  apply (for_each_invariant I) in H.
  - rewrite length_seq in H. exact H.
  - clear H. unfold I. intros k x st u st' u' Hx Hinv Hbody.
    apply lookup_seq in Hx as [-> Hk]. simpl in Hbody.
    apply bind_inr in Hbody as [masked [u1 [Hmasked Hbody]]].
    apply lift_inr in Hmasked as [Hmasked ->].
    apply index_or_raise_inr in Hmasked.
    destruct masked.
    2:{ injection Hbody as <- <-. intros i hfi Hi Hm.
        destruct (decide (i = k)) as [->|]; [congruence|]. apply Hinv; [lia|exact Hm]. }
    apply bind_inr in Hbody as [typical [u1 [Htyp Hbody]]].
    apply lift_inr in Htyp as [Htyp ->]. apply index_or_raise_inr in Htyp.
    set (J := fun (m : nat) (st : derivative_runs) (_ : world) =>
                (forall i hfi, (i < k)%nat -> mask !! i = Some true ->
                   (hfi < length h_factors)%nat ->
                   entry_ok base v h_factors st i hfi) /\
                (forall hfi, (hfi < m)%nat -> entry_ok base v h_factors st k hfi)).
    apply (for_each_invariant J) in Hbody.
    + rewrite length_seq in Hbody. destruct Hbody as [Hold Hnew].
      intros i hfi Hi Hm Hhfi. destruct (decide (i = k)) as [->|].
      * apply Hnew. exact Hhfi.
      * apply Hold; [lia | exact Hm | exact Hhfi].
    + clear Hbody. unfold J. intros m y s t s' t' Hy [Hold Hnew] Hstep.
      apply lookup_seq in Hy as [-> Hm]. simpl in Hstep.
      apply start_partial_derivative_run_inr in Hstep
        as (h_factor & p & d & Hh & Hp & Hd & Eh & Ep & Ed).
      split.
      * intros i hfi Hi Hmi Hhfi.
        eapply entry_ok_insert; eauto. intros [= -> _]. lia.
      * intros hfi Hhfi. destruct (decide (hfi = m)) as [->|].
        -- exists typical, h_factor, p, d. rewrite Eh, Ep, Ed.
           rewrite !lookup_insert_eq. split_and!; auto.
        -- eapply entry_ok_insert; eauto; [intros [= ->]; congruence|].
           apply Hnew. lia.
    + split; [exact Hinv|]. intros hfi Hhfi. lia.
  - unfold I. intros i hfi Hi. lia.
Qed.

(** *** The result of [_df] *)

Lemma extends_trace keep_fs P w w' :
  extends keep_fs P w w' -> exists evs, trace w' = trace w ++ evs /\ Forall P evs.
Proof. intros [_ H]. exact H. Qed.

(** A call of [_df] with a given mask that returns had a mask as long as
    the parameters and returns one array per tracer, each with as many
    rows as the mask has True components; row [j] is the row that "make
    trajectories and calculate df" has computed for the [j]-th masked
    parameter, in increasing order of the parameter index.  When the
    total concentration factor is not part of
    the parameters, the mask used is the given one followed by False for
    the concentration factor: every returned row belongs to a parameter
    of the vector, and no run directory of a partial derivative with
    respect to the concentration factor is made, emptied or started. *)
Theorem _df_rows_follow_mask load parameters opts given w df w' :
  _df load parameters opts (Some given) w = (inr df, w') ->
  length given = length parameters /\
  length df = METOS_TRACER_DIM /\
  exists mask h_factors base v runs w1 full,
    mask = (if total_concentration_factor_included_in_parameters
            then given else given ++ [false]) /\
    prepare_partial_derivatives_mask parameters (Some given) = inr mask /\
    make_trajectories_and_calculate_df load base v h_factors mask runs w1
      = (inr full, w') /\
    length (masked_indices mask) = count_true given /\
    (forall t, (t < METOS_TRACER_DIM)%nat ->
       exists a rows,
         full !! t = Some (Some a) /\ length a = length mask /\
         df !! t = Some rows /\ length rows = count_true given /\
         forall j i, masked_indices mask !! j = Some i -> rows !! j = a !! i) /\
    (total_concentration_factor_included_in_parameters = false ->
       mask !! length parameters = Some false /\
       (forall j i, masked_indices mask !! j = Some i ->
                    (i < length parameters)%nat) /\
       exists evs, trace w' = trace w ++ evs /\
         Forall (fun e => ~ partial_derivative_launch (length parameters) e) evs).
Proof.
  intros H.
  apply _df_inr in H
    as (mask & h_factors & base & w0 & v & runs & w1 & full
        & Hmask & Hh & Hbase & Hv & Hruns & Hfull & Happly & E0 & E1 & E2).
  pose proof (prepare_partial_derivatives_mask_inr _ _ _ Hmask) as [Hlen Hm].
  simpl in Hlen, Hm.
  apply apply_partial_derivatives_mask_inr in Happly as [Hdf Hrows].
  assert (Hcount : count_true mask = count_true given).
  { rewrite Hm. destruct total_concentration_factor_included_in_parameters;
      [reflexivity | apply count_true_app_false]. }
  split; [exact Hlen|]. split; [exact Hdf|].
  exists mask, h_factors, base, v, runs, w1, full.
  split; [exact Hm|]. split; [exact Hmask|]. split; [exact Hfull|].
  split; [unfold masked_indices; rewrite masked_indices_from_length; exact Hcount|].
  split.
  - intros t Ht. destruct (Hrows t Ht) as [a [Ha [Hla Hout]]].
    exists a, (select_rows mask a). split_and!; try assumption.
    + rewrite select_rows_length by exact Hla. exact Hcount.
    + intros j i Hj. rewrite (select_rows_lookup 0 mask a j i Hla Hj).
      rewrite Nat.sub_0_r. reflexivity.
  - intros Hincl. rewrite Hincl in Hm.
    assert (Hfalse : mask !! length parameters = Some false).
    { rewrite Hm, <- Hlen. apply list_lookup_middle. reflexivity. }
    split; [exact Hfalse|]. split.
    + intros j i Hj. apply masked_indices_lookup in Hj.
      assert (Hi : (i < length mask)%nat) by (eapply lookup_lt_Some; eauto).
      rewrite Hm, length_app, Hlen in Hi. simpl in Hi.
      destruct (decide (i = length parameters)) as [->|]; [congruence | lia].
    + destruct (extends_trace _ _ _ _ E0) as [e0 [Ht0 Ha0]].
      destruct (extends_trace _ _ _ _ E1) as [e1 [Ht1 Ha1]].
      destruct (extends_trace _ _ _ _ E2) as [e2 [Ht2 Ha2]].
      exists (e0 ++ e1 ++ e2). split.
      * rewrite Ht2, Ht1, Ht0, <- !app_assoc. reflexivity.
      * rewrite !Forall_app. split_and!.
        -- eapply Forall_impl; [exact Ha0|].
           intros e He Hp. destruct e as [| |[c k]|[[c k]|]| |[c k]|];
             simpl in *; try contradiction;
             destruct He as [index ->]; destruct Hp as (? & ? & [=]).
        -- eapply Forall_impl; [exact Ha1|].
           intros e He Hp. destruct e as [| |[c k]|[[c k]|]| |[c k]|];
             simpl in *; try contradiction;
             destruct He as (index & pi & hf & -> & Hpi);
             destruct Hp as (? & ? & [= _ -> _]); congruence.
        -- eapply Forall_impl; [exact Ha2|].
           intros e He Hp. destruct e as [| |[c k]|[[c k]|]| |[c k]|];
             simpl in *; contradiction.
Qed.

(** *** Waiting for the perturbation runs *)

Lemma mask_length_parameters_len parameters partial_derivatives_mask mask v :
  prepare_partial_derivatives_mask parameters partial_derivatives_mask = inr mask ->
  init_values parameters = inr v ->
  length mask = dv_parameters_len v.
Proof.
  intros Hmask Hv.
  apply prepare_partial_derivatives_mask_inr in Hmask as [Hlen ->].
  unfold init_values in Hv.
  apply rbind_inr in Hv as [entry [Hentry Hv]].
  apply rbind_inr in Hv as [[] [_ Hv]]. injection Hv as <-. simpl.
  unfold set_last. rewrite length_insert.
  unfold database_parameter_entry in Hentry.
  apply rbind_inr in Hentry as [ps [_ Hentry]].
  destruct total_concentration_factor_included_in_parameters;
    injection Hentry as <-; rewrite ?length_app; simpl; lia.
Qed.

(** One pass of "include result" first waits for the job of its partial
    derivative run. *)
Lemma include_result_waits load v runs i hfi df w df' w' :
  include_result load v runs i hfi df w = (inr df', w') ->
  exists d evs, dr_run_dirs runs !! (i, hfi) = Some (Some d) /\
    trace w' = trace w ++ EvWait (RunPath d) :: evs.
Proof.
  clear coordinates_to_map_indices.
  unfold include_result. intros H.
  apply bind_inr in H as [d [w1 [Hd H]]].
  assert (Hdir : dr_run_dirs runs !! (i, hfi) = Some (Some d) /\ w1 = w).
  { destruct (dr_run_dirs runs !! (i, hfi)) as [[d'|]|]; try discriminate.
    injection Hd as <- <-. split; reflexivity. }
  destruct Hdir as [Hdir ->].
  apply bind_inr in H as [[] [w2 [Hwait H]]].
  assert (Hw2 : trace w2 = trace w ++ [EvWait (RunPath d)]).
  { unfold wait_until_run_job_finished in Hwait.
    apply bind_inr in Hwait as [[] [w3 [Hopen Hemit]]].
    apply bind_inr in Hopen as [j [w4 [Hopen Hret]]]. injection Hret as <-.
    pose proof (open_job_force_load_world d w) as Hw.
    rewrite Hopen in Hw. simpl in Hw. subst w4.
    unfold emit in Hemit. injection Hemit as <-. reflexivity. }
  apply bind_inr in H as [dict [w3 [Hdict H]]].
  apply lift_inr in Hdict as [_ ->].
  apply bind_inr in H as [trajectory [w4 [Htraj H]]].
  apply lift_inr in H as [_ ->].
  destruct (_get_trajectory_steps _ _ _ _ _ _ Htraj) as [[_ [evs [Hevs _]]] _].
  exists d, evs. split; [exact Hdir|].
  rewrite Hevs, Hw2, <- app_assoc. reflexivity.
Qed.

Lemma include_results_wait load v runs i n df w df' w' :
  for_each (seq 0 n) (include_result load v runs i) df w = (inr df', w') ->
  exists evs, trace w' = trace w ++ evs /\
    forall hfi, (hfi < n)%nat ->
      exists d, dr_run_dirs runs !! (i, hfi) = Some (Some d) /\
        In (EvWait (RunPath d)) evs.
Proof.
  intros H.
  set (I := fun (k : nat) (_ : list (option (list (list float64)))) (u : world) =>
              exists evs, trace u = trace w ++ evs /\
                forall hfi, (hfi < k)%nat ->
                  exists d, dr_run_dirs runs !! (i, hfi) = Some (Some d) /\
                    In (EvWait (RunPath d)) evs).
  apply (for_each_invariant I) in H.
  - rewrite length_seq in H. exact H.
  - clear H. intros k x s u s' u' Hx [evs [Hevs Hwaits]] Hbody.
    apply lookup_seq in Hx as [-> Hk]. simpl in Hbody.
    apply include_result_waits in Hbody as [d [evs' [Hd Hevs']]].
    exists (evs ++ EvWait (RunPath d) :: evs'). split.
    + rewrite Hevs', Hevs, <- app_assoc. reflexivity.
    + intros hfi Hhfi. destruct (decide (hfi = k)) as [->|Hne].
      * exists d. split; [exact Hd|]. apply in_or_app. right. left. reflexivity.
      * destruct (Hwaits hfi ltac:(lia)) as [d' [Hd' Hin]].
        exists d'. split; [exact Hd'|]. apply in_or_app. left. exact Hin.
  - exists []. split; [rewrite app_nil_r; reflexivity|]. intros hfi Hhfi. lia.
Qed.

(** "make trajectories and calculate df" waits for the job of every
    partial derivative run of every masked parameter. *)
Lemma make_trajectories_and_calculate_df_waits load base v h_factors mask runs
    w df w' :
  make_trajectories_and_calculate_df load base v h_factors mask runs w
    = (inr df, w') ->
  exists evs, trace w' = trace w ++ evs /\
    forall i hfi, (i < dv_parameters_len v)%nat -> mask !! i = Some true ->
      (hfi < length h_factors)%nat ->
      exists d, dr_run_dirs runs !! (i, hfi) = Some (Some d) /\
        In (EvWait (RunPath d)) evs.
Proof.
  unfold make_trajectories_and_calculate_df. intros H.
  set (I := fun (k : nat) (_ : list (option (list (list float64)))) (u : world) =>
              exists evs, trace u = trace w ++ evs /\
                forall i hfi, (i < k)%nat -> mask !! i = Some true ->
                  (hfi < length h_factors)%nat ->
                  exists d, dr_run_dirs runs !! (i, hfi) = Some (Some d) /\
                    In (EvWait (RunPath d)) evs).
  apply (for_each_invariant I) in H.
  - rewrite length_seq in H. exact H.
  - clear H. intros k x s u s' u' Hx [evs [Hevs Hwaits]] Hbody.
    apply lookup_seq in Hx as [-> Hk]. simpl in Hbody.
    apply bind_inr in Hbody as [masked [u1 [Hmasked Hbody]]].
    apply lift_inr in Hmasked as [Hmasked ->].
    apply index_or_raise_inr in Hmasked.
    destruct masked.
    + apply bind_inr in Hbody as [s1 [u1 [Hinc Hcalc]]].
      apply lift_inr in Hcalc as [_ ->].
      apply include_results_wait in Hinc as [evs' [Hevs' Hwaits']].
      exists (evs ++ evs'). split.
      * rewrite Hevs', Hevs, <- app_assoc. reflexivity.
      * intros i hfi Hi Hm Hhfi. destruct (decide (i = k)) as [->|Hne].
        -- destruct (Hwaits' hfi Hhfi) as [d [Hd Hin]].
           exists d. split; [exact Hd|]. apply in_or_app. right. exact Hin.
        -- destruct (Hwaits i hfi ltac:(lia) Hm Hhfi) as [d [Hd Hin]].
           exists d. split; [exact Hd|]. apply in_or_app. left. exact Hin.
    + injection Hbody as <- <-. exists evs. split; [exact Hevs|].
      intros i hfi Hi Hm Hhfi. destruct (decide (i = k)) as [->|Hne].
      * congruence.
      * apply Hwaits; [lia | exact Hm | exact Hhfi].
  - exists []. split; [rewrite app_nil_r; reflexivity|]. intros i hfi Hi. lia.
Qed.

(** C7: a call of [_df] that returns has launched every perturbation run
    before it waits for the first of them; while it assembles it waits
    for the job of every partial derivative run of every masked
    parameter, and makes, empties and starts nothing in a run directory;
    the row returned for a tracer and a masked parameter is the row
    [is_derivative_row] for the arrays ([h], perturbed parameters, run
    directories) that "start partial derivative runs" has filled:
    (perturbed - f) / h under accuracy order 1, (forward - backward) /
    (|h_forward| + |h_backward|) under accuracy order 2, the quotient
    being the one of float64 arrays. *)
Theorem _df_assembly load shape parameters opts partial_derivatives_mask w df w' :
  (forall files t a, load files t = inr a -> length a = shape t) ->
  _df load parameters opts partial_derivatives_mask w = (inr df, w') ->
  exists mask h_factors base w0 v runs w1,
    prepare_partial_derivatives_mask parameters partial_derivatives_mask
      = inr mask /\
    choose_h_factors = inr h_factors /\
    derivative_spinup_base load parameters opts w = (inr base, w0) /\
    init_values parameters = inr v /\
    start_partial_derivative_runs base v h_factors mask w0 = (inr runs, w1) /\
    (exists launched, trace w1 = trace w ++ launched /\
       Forall (fun e => ~ partial_derivative_wait e) launched) /\
    (exists assembled, trace w' = trace w1 ++ assembled /\
       Forall (fun e => ~ run_launch e) assembled /\
       forall j i hfi,
         masked_indices mask !! j = Some i -> (hfi < length h_factors)%nat ->
         exists d, dr_run_dirs runs !! (i, hfi) = Some (Some d) /\
           In (EvWait (RunPath d)) assembled) /\
    fs w' = fs w1 /\
    forall t j i, (t < METOS_TRACER_DIM)%nat -> masked_indices mask !! j = Some i ->
      (forall hfi, (hfi < length h_factors)%nat ->
                   entry_ok base v h_factors runs i hfi) /\
      exists rows row,
        df !! t = Some rows /\ rows !! j = Some row /\ length row = shape t /\
        is_derivative_row load (fs w1) base runs i t row.
Proof.
  intros Hshape H.
  apply _df_inr in H
    as (mask & h_factors & base & w0 & v & runs & w1 & full
        & Hmask & Hh & Hbase & Hv & Hruns & Hfull & Happly & E0 & E1 & E2).
  exists mask, h_factors, base, w0, v, runs, w1.
  split; [exact Hmask|]. split; [exact Hh|]. split; [exact Hbase|].
  split; [exact Hv|]. split; [exact Hruns|].
  destruct (extends_trace _ _ _ _ E0) as [e0 [Ht0 Ha0]].
  destruct (extends_trace _ _ _ _ E1) as [e1 [Ht1 Ha1]].
  destruct (extends_trace _ _ _ _ E2) as [e2 [Ht2 Ha2]].
  split.
  { exists (e0 ++ e1). split; [rewrite Ht1, Ht0, <- app_assoc; reflexivity|].
    rewrite Forall_app. split.
    - eapply Forall_impl; [exact Ha0|].
      intros e He Hp. destruct e as [| |[c k]|[[c k]|]|[[c k]|]|[c k]|];
        simpl in *; try contradiction.
      destruct He as [index ->]. exact Hp.
    - eapply Forall_impl; [exact Ha1|].
      intros e He Hp. destruct e as [| |[c k]|[[c k]|]|[[c k]|]|[c k]|];
        simpl in *; contradiction. }
  split.
  { exists e2. split; [exact Ht2|]. split.
    - eapply Forall_impl; [exact Ha2|].
      intros e He Hp. destruct e as [| |[c k]|[[c k]|]|[[c k]|]|[c k]|];
        simpl in *; contradiction.
    - destruct (make_trajectories_and_calculate_df_waits _ _ _ _ _ _ _ _ _ Hfull)
        as [evs [Hevs Hwaits]].
      rewrite Ht2 in Hevs. apply app_inv_head in Hevs. subst evs.
      intros j i hfi Hj Hhfi.
      pose proof (masked_indices_lookup _ _ _ Hj) as Hmi.
      apply Hwaits; [|exact Hmi | exact Hhfi].
      rewrite <- (mask_length_parameters_len _ _ _ _ Hmask Hv).
      eapply lookup_lt_Some; eauto. }
  assert (Horder : (MODEL_DERIVATIVE_ACCURACY_ORDER = 1 /\ h_factors = [1%Q]) \/
                   (MODEL_DERIVATIVE_ACCURACY_ORDER <> 1 /\
                    h_factors = [1%Q; (-1)%Q])).
  { destruct (choose_h_factors_inr _ Hh) as [?|[? [_ ?]]]; [left|right]; auto. }
  assert (Hf : forall t f f_t, base_f base = Some f -> f !! t = Some f_t ->
                               length f_t = shape t).
  { intros t f f_t Hbf Hft.
    destruct (derivative_spinup_base_f _ _ _ _ _ _ Hbase f Hbf) as [_ Hload].
    destruct (Hload t f_t Hft) as [files Hfiles]. eapply Hshape, Hfiles. }
  destruct (make_trajectories_and_calculate_df_inr _ _ _ _ _ _ shape _ _ _
              Hshape Hf Horder Hfull) as [Hfs [Hlen Hslots]].
  split; [exact Hfs|].
  apply apply_partial_derivatives_mask_inr in Happly as [Hdf Hrows].
  intros t j i Ht Hj.
  destruct (Hrows t Ht) as [a [Ha [Hla Hout]]].
  destruct (Hslots t Ht) as [slot [Hslot Hok]].
  rewrite Ha in Hslot. injection Hslot as <-.
  destruct Hok as [HlenN Hok].
  pose proof (masked_indices_lookup _ _ _ Hj) as Hmi.
  assert (Hi : (i < dv_parameters_len v)%nat).
  { rewrite <- HlenN, Hla. eapply lookup_lt_Some; eauto. }
  split.
  - intros hfi Hhfi.
    eapply start_partial_derivative_runs_inr; eauto.
  - destruct (Hok i Hi) as [row [Hrow [Hlrow [Hder _]]]].
    exists (select_rows mask a), row. split_and!; try assumption.
    + rewrite (select_rows_lookup 0 mask a j i Hla Hj), Nat.sub_0_r. exact Hrow.
    + apply Hder; assumption.
Qed.

(** *** Calls that cannot return *)

(** With [no_spinup_okay=False] and at least one candidate in the
    database, [closest_parameter_set_dir] raises a TypeError at the first
    test of its loop, where the method [spinup_dir_with_index] is
    subscripted; nothing is written before. *)
Theorem closest_parameter_set_dir_subscripts_method parameters entry w :
  database_parameter_entry parameters = inr entry ->
  db_closest_indices (db w) entry <> [] ->
  closest_parameter_set_dir parameters false w = (inl TypeError, w).
Proof.
  intros Hentry Hcandidates.
  unfold closest_parameter_set_dir, bind, lift, get_world. rewrite Hentry.
  simpl. destruct (db_closest_indices (db w) entry) as [|i indices] eqn:E;
    [contradiction|].
  reflexivity.
Qed.

(** A mask without a True component leaves every [df[tracer_index]]
    unallocated: with at least one tracer, "apply partial_derivatives_mask"
    subscripts None and [_df] does not return. *)
Theorem _df_mask_without_True load parameters opts given w df w' :
  Forall (fun b : bool => b = false) given ->
  (0 < METOS_TRACER_DIM)%nat ->
  _df load parameters opts (Some given) w <> (inr df, w').
Proof.
  intros Hall Hdim H.
  apply _df_inr in H
    as (mask & h_factors & base & w0 & v & runs & w1 & full
        & Hmask & _ & _ & _ & _ & Hfull & Happly & _).
  apply prepare_partial_derivatives_mask_inr in Hmask as [_ Hmask].
  simpl in Hmask.
  assert (Hfalse : forall i b, mask !! i = Some b -> b = false).
  { intros i b Hi. rewrite Forall_lookup in Hall. subst mask.
    destruct total_concentration_factor_included_in_parameters;
      [exact (Hall i b Hi)|].
    apply lookup_app_Some in Hi as [Hi|[_ Hi]]; [exact (Hall i b Hi)|].
    apply list_lookup_singleton_Some in Hi as [_ <-]. reflexivity. }
  unfold make_trajectories_and_calculate_df in Hfull.
  set (I := fun (_ : nat) (s : list (option (list (list float64)))) (_ : world) =>
              s = replicate METOS_TRACER_DIM None).
  apply (for_each_invariant I) in Hfull; unfold I in *.
  - apply apply_partial_derivatives_mask_inr in Happly as [_ Hslots].
    destruct (Hslots 0%nat Hdim) as (a & Ha & _).
    rewrite Hfull, lookup_replicate in Ha.
    destruct Ha as [Ha _]. discriminate.
  - intros k i s u s' u' _ -> Hbody.
    apply bind_inr in Hbody as [masked [u1 [Hm Hbody]]].
    apply lift_inr in Hm as [Hm ->]. apply index_or_raise_inr in Hm.
    rewrite (Hfalse _ _ Hm) in Hbody. injection Hbody as <- _. reflexivity.
  - reflexivity.
Qed.

(** ** Parameter vectors and database entries *)

Lemma Qltb_false a b : Qltb a b = false <-> (b <= a)%Q.
Proof.
  unfold Qltb. rewrite negb_false_iff. apply Qle_bool_iff.
Qed.

Lemma any_lt_false a b :
  any_lt a b = false <->
  forall i x y, a !! i = Some x -> b !! i = Some y -> (y <= x)%Q.
Proof.
  unfold any_lt. revert b. induction a as [|x a IH]; intros b.
  - split; [intros _ i x y Hx; discriminate | reflexivity].
  - destruct b as [|y b]; [split; [intros _ i x' y' _ Hy; discriminate | reflexivity]|].
    simpl. rewrite orb_false_iff, Qltb_false, IH. split.
    + intros [Hxy Hrest] [|i] x' y'; simpl.
      * intros [= <-] [= <-]. exact Hxy.
      * apply Hrest.
    + intros H. split; [exact (H 0%nat x y eq_refl eq_refl)|].
      intros i x' y'. exact (H (S i) x' y').
Qed.

(** [check_parameters] hands the parameters back exactly when the total
    concentration factor (if it is part of them) is not negative, there
    are as many model parameters as bounds and every model parameter lies
    between its lower and its upper bound. *)
Theorem check_parameters_accepts parameters out :
  length parameters_upper_bound = length parameters_lower_bound ->
  check_parameters parameters = inr out <->
  (out = parameters /\
   exists model_parameters total_concentration_factor,
     metos3d_model_parameters_dict parameters
       = inr (model_parameters, total_concentration_factor) /\
     (total_concentration_factor_included_in_parameters = true ->
        (0 <= total_concentration_factor)%Q) /\
     length model_parameters = model_parameter_len /\
     forall i x, model_parameters !! i = Some x ->
       exists lower upper,
         parameters_lower_bound !! i = Some lower /\
         parameters_upper_bound !! i = Some upper /\
         (lower <= x)%Q /\ (x <= upper)%Q).
Proof.
  intros Hbounds. unfold check_parameters. split.
  - intros H. apply rbind_inr in H as [[model factor] [Hdict H]].
    apply rbind_inr in H as [[] [Hfactor H]]. simpl in H, Hfactor.
    destruct (Nat.eqb_spec (length model) model_parameter_len) as [Hlen|];
      simpl in H; [|discriminate].
    destruct (any_lt model parameters_lower_bound) eqn:Hlow; [discriminate|].
    destruct (any_lt parameters_upper_bound model) eqn:Hup; [discriminate|].
    injection H as <-. split; [reflexivity|].
    exists model, factor. split; [exact Hdict|]. split.
    { intros Hincl. rewrite Hincl in Hfactor. simpl in Hfactor.
      destruct (Qltb factor 0) eqn:E; [discriminate|].
      apply Qltb_false. exact E. }
    split; [exact Hlen|]. intros i x Hx.
    assert (Hi : (i < length parameters_lower_bound)%nat).
    { fold model_parameter_len. rewrite <- Hlen. eapply lookup_lt_Some; eauto. }
    destruct (lookup_lt_is_Some_2 parameters_lower_bound i Hi) as [lower Hl].
    rewrite <- Hbounds in Hi.
    destruct (lookup_lt_is_Some_2 parameters_upper_bound i Hi) as [upper Hu].
    exists lower, upper. split; [exact Hl|]. split; [exact Hu|]. split.
    + exact (proj1 (any_lt_false _ _) Hlow i x lower Hx Hl).
    + exact (proj1 (any_lt_false _ _) Hup i upper x Hu Hx).
  - intros [-> (model & factor & Hdict & Hfactor & Hlen & Hin)].
    rewrite Hdict. simpl.
    assert (Hq : total_concentration_factor_included_in_parameters = true ->
                 Qltb factor 0 = false)
      by (intros E; apply Qltb_false; auto).
    assert (Hl : any_lt model parameters_lower_bound = false).
    { apply any_lt_false. intros i x y Hx Hy.
      destruct (Hin i x Hx) as (l & u & Hl & _ & Hle & _).
      rewrite Hy in Hl. injection Hl as <-. exact Hle. }
    assert (Hu : any_lt parameters_upper_bound model = false).
    { apply any_lt_false. intros i y x Hy Hx.
      destruct (Hin i x Hx) as (l & u & _ & Hu & _ & Hle).
      rewrite Hy in Hu. injection Hu as <-. exact Hle. }
    destruct total_concentration_factor_included_in_parameters;
      [rewrite (Hq eq_refl)|]; simpl; rewrite Hlen, Nat.eqb_refl; simpl;
      rewrite Hl, Hu; reflexivity.
Qed.

Lemma last_or_raise_inr {A} (l : list A) x :
  last_or_raise l = inr x -> l = but_last l ++ [x].
Proof.
  unfold last_or_raise, but_last. intros H.
  destruct (last l) as [y|] eqn:E; [|discriminate]. injection H as ->.
  apply last_Some in E as [l' ->]. rewrite removelast_last. reflexivity.
Qed.

Lemma but_last_snoc {A} (l : list A) x : but_last (l ++ [x]) = l.
Proof. apply removelast_last. Qed.

Lemma last_or_raise_snoc {A} (l : list A) x : last_or_raise (l ++ [x]) = inr x.
Proof. unfold last_or_raise. rewrite last_snoc. reflexivity. Qed.

(** The database entry of checked parameters holds the model parameters
    followed by the total concentration factor (1 when the parameters do
    not carry one), and reading it back with
    [database_parameter_entry_to_metos3d_model_parameters_dict] gives the
    dictionary that [metos3d_model_parameters_dict] gives for the
    parameters. *)
Theorem database_parameter_entry_round_trip parameters entry :
  database_parameter_entry parameters = inr entry ->
  exists model_parameters total_concentration_factor,
    metos3d_model_parameters_dict parameters
      = inr (model_parameters, total_concentration_factor) /\
    entry = model_parameters ++ [total_concentration_factor] /\
    length entry = S model_parameter_len /\
    database_parameter_entry_to_metos3d_model_parameters_dict entry
      = inr (model_parameters, total_concentration_factor).
Proof.
  unfold database_parameter_entry. intros H.
  apply rbind_inr in H as [checked [Hcheck H]].
  unfold check_parameters in Hcheck.
  apply rbind_inr in Hcheck as [[model factor] [Hdict Hcheck]].
  apply rbind_inr in Hcheck as [[] [_ Hcheck]]. simpl in Hcheck.
  destruct (Nat.eqb_spec (length model) model_parameter_len) as [Hlen|];
    simpl in Hcheck; [|discriminate].
  exists model, factor. split; [exact Hdict|].
  assert (Hentry : entry = model ++ [factor]).
  { unfold metos3d_model_parameters_dict in Hdict.
    destruct total_concentration_factor_included_in_parameters.
    - apply rbind_inr in Hdict as [x [Hlast Hdict]].
      injection Hdict as <- <-. injection H as <-.
      apply last_or_raise_inr. exact Hlast.
    - injection Hdict as <- <-. injection H as <-. reflexivity. }
  split; [exact Hentry|]. subst entry. split.
  - rewrite length_app, Hlen. simpl. lia.
  - unfold database_parameter_entry_to_metos3d_model_parameters_dict.
    rewrite but_last_snoc, last_or_raise_snoc. reflexivity.
Qed.
(** ** The parameter index and the run directories *)

(** [parameter_set_dir] never touches the run directories.  It returns
    the index the database finds for the entry of the parameters; when
    the database finds none, [create=False] gives None and writes
    nothing, and [create=True] appends the entry: the index returned is
    the new one, and the parameter file read at that index is the
    entry. *)
Theorem parameter_set_dir_creates parameters create w r w' :
  parameter_set_dir parameters create w = (inr r, w') ->
  exists entry,
    database_parameter_entry parameters = inr entry /\
    fs w' = fs w /\
    match db_index (db w) entry with
    | Some index => r = Some index /\ w' = w
    | None =>
        if create then
          r = Some (length (db w)) /\ db w' = db w ++ [entry] /\
          trace w' = trace w ++ [EvAddValue (length (db w)) entry] /\
          loadtxt_parameters (length (db w)) w' = (inr entry, w')
        else r = None /\ w' = w
    end.
Proof.
  unfold parameter_set_dir. intros H.
  apply bind_inr in H as [entry [u [Hentry H]]].
  apply lift_inr in Hentry as [Hentry ->].
  exists entry. split; [exact Hentry|].
  unfold bind, get_world in H. simpl in H.
  destruct (db_index (db w) entry) as [index|]; simpl in H.
  - destruct create; simpl in H; injection H as <- <-; auto.
  - destruct create; simpl in H; injection H as <- <-; simpl.
    + split; [reflexivity|]. split_and!; try reflexivity.
      unfold loadtxt_parameters, bind, get_world. simpl.
      rewrite lookup_app_r by lia. rewrite Nat.sub_diag. reflexivity.
    + auto.
Qed.

Lemma start_run_eval model_parameters c k years tolerance kind write tcf input
    wait w :
  (k < length (chain_runs w c))%nat ->
  let req := Build_job_request model_parameters years tolerance tcf write input kind in
  let j := {| job_request_of := req;
              last_year := (metos3d (fs w) req).1;
              last_tolerance := (metos3d (fs w) req).2 |} in
  start_run model_parameters (RunPath (c, k)) years tolerance kind write tcf input
    wait w
  = (inr tt,
     {| db := db w;
        fs := alter (fun runs => <[k := Some j]> runs) c (fs w);
        trace := trace w ++ [EvStartRun (RunPath (c, k)) req]
                         ++ (if wait then [EvWait (RunPath (c, k))] else []) |}).
Proof.
  intros Hk req j. destruct wait; [apply start_run_wait_eval; exact Hk|].
  reflexivity.
Qed.

Lemma last_run_dir_snoc c w runs r :
  fs w !! c = Some (runs ++ [r]) ->
  last_run_dir c w
  = (match r with
     | Some _ => inr (Some (c, length runs))
     | None => inl OSError
     end, w).
Proof.
  intros Hc. unfold last_run_dir, run_dirs, bind, get_world. simpl.
  rewrite Hc. simpl. rewrite length_map, length_seq, length_app. simpl.
  destruct (Z.leb_spec 0 (Z.of_nat (length runs + 1) - 1)); [|lia].
  rewrite open_job_force_load_eval. unfold chain_runs. simpl. rewrite Hc. simpl.
  replace (Z.to_nat (Z.of_nat (length runs + 1) - 1)) with (length runs) by lia.
  rewrite lookup_app_r by lia. rewrite Nat.sub_diag. simpl.
  destruct r; reflexivity.
Qed.

(** A run directory made by [make_new_run_dir] is named after the number
    of run directories the chain had, and holds no job yet: looking for
    the last run of the chain fails until a job is started there.  Once
    [start_run] has started one, the chain is the old chain followed by
    the new run, the other chains are as before, [last_run_dir] finds the
    new run and [get_real_tolerance] reads what the job has reached. *)
Theorem new_run_is_last_run c w rd w1 model_parameters years tolerance kind
    write tcf input wait w2 :
  make_new_run_dir c w = (inr rd, w1) ->
  start_run model_parameters (RunPath rd) years tolerance kind write tcf input
    wait w1 = (inr tt, w2) ->
  let req := Build_job_request model_parameters years tolerance tcf write input kind in
  let j := {| job_request_of := req;
              last_year := (metos3d (fs w1) req).1;
              last_tolerance := (metos3d (fs w1) req).2 |} in
  rd = (c, length (chain_runs w c)) /\
  last_run_dir c w1 = (inl OSError, w1) /\
  chain_runs w2 c = chain_runs w c ++ [Some j] /\
  (forall c', c' <> c -> fs w2 !! c' = fs w !! c') /\
  db w2 = db w /\
  last_run_dir c w2 = (inr (Some rd), w2) /\
  get_real_tolerance rd w2 = (inr (last_tolerance j), w2).
Proof.
  intros Hmake Hstart req j. rewrite make_new_run_dir_eval in Hmake.
  injection Hmake as <- <-.
  set (n := length (chain_runs w c)) in *.
  set (w1 := {| db := db w; fs := <[c := chain_runs w c ++ [None]]> (fs w);
                trace := trace w ++ [EvMakeRunDir (c, n)] |}) in *.
  assert (Hfs1 : fs w1 !! c = Some (chain_runs w c ++ [None]))
    by (simpl; apply lookup_insert_eq).
  assert (Hchain1 : chain_runs w1 c = chain_runs w c ++ [None])
    by (unfold chain_runs at 1; rewrite Hfs1; reflexivity).
  rewrite start_run_eval in Hstart
    by (rewrite Hchain1, length_app; simpl; fold n; lia).
  assert (Hfs2 : alter (fun runs => <[n := Some j]> runs) c (fs w1)
                 = <[c := chain_runs w c ++ [Some j]]> (fs w)).
  { unfold w1. simpl. rewrite alter_insert_eq. f_equal.
    unfold n. rewrite insert_app_r_alt by lia.
    rewrite Nat.sub_diag. reflexivity. }
  assert (Hw2 : w2 = {| db := db w;
                        fs := <[c := chain_runs w c ++ [Some j]]> (fs w);
                        trace := trace w1 ++ [EvStartRun (RunPath (c, n)) req]
                                   ++ (if wait then [EvWait (RunPath (c, n))]
                                       else []) |}).
  { injection Hstart as <-. f_equal. exact Hfs2. }
  clear Hstart. subst w2.
  set (w2 := {| db := db w;
                fs := <[c := chain_runs w c ++ [Some j]]> (fs w);
                trace := trace w1 ++ [EvStartRun (RunPath (c, n)) req]
                           ++ (if wait then [EvWait (RunPath (c, n))] else []) |}).
  assert (Hfs2' : fs w2 !! c = Some (chain_runs w c ++ [Some j]))
    by (simpl; apply lookup_insert_eq).
  split; [reflexivity|]. split.
  { rewrite (last_run_dir_snoc _ _ _ _ Hfs1). reflexivity. }
  split.
  { unfold chain_runs at 1. simpl. rewrite lookup_insert_eq. reflexivity. }
  split.
  { intros c' Hc'. simpl. rewrite lookup_insert_ne by congruence. reflexivity. }
  split; [reflexivity|]. split.
  - rewrite (last_run_dir_snoc _ _ _ _ Hfs2'). reflexivity.
  - unfold get_real_tolerance, bind. rewrite open_job_force_load_eval.
    unfold chain_runs at 1. simpl. rewrite lookup_insert_eq. simpl.
    fold n. rewrite lookup_app_r by (unfold n; lia).
    unfold n. rewrite Nat.sub_diag. reflexivity.
Qed.

Lemma total_years_of_jobs runs k total jobs :
  take (S k) runs = map Some jobs -> length jobs = S k ->
  total_years_of runs k total
  = inr (total + fold_right Z.add 0 (map last_year jobs)).
Proof.
  revert total jobs. induction k as [|k IH]; intros total jobs Htake Hlen.
  - destruct runs as [|r runs]; destruct jobs as [|j [|j' jobs]];
      simpl in Htake, Hlen; try discriminate.
    injection Htake as ->. simpl. f_equal. lia.
  - destruct jobs as [|j jobs _] using rev_ind; [discriminate|].
    rewrite length_app in Hlen. simpl in Hlen.
    assert (Hruns : (S k < length runs)%nat).
    { pose proof (f_equal length Htake) as E.
      rewrite length_take, length_map, length_app in E.
      change (length [j]) with 1%nat in E. lia. }
    destruct (lookup_lt_is_Some_2 runs (S k) Hruns) as [r Hr].
    rewrite (take_S_r _ _ _ Hr), map_app in Htake. simpl in Htake.
    apply app_inj_tail in Htake as [Htake ->].
    change (total_years_of runs (S k) total)
      with (match runs !! S k with
            | Some (Some j) => total_years_of runs k (total + last_year j)
            | _ => inl OSError
            end).
    rewrite Hr, (IH _ _ Htake) by lia.
    f_equal. rewrite map_app, fold_right_app. simpl.
    assert (Hsum : forall l a, fold_right Z.add a l = fold_right Z.add 0 l + a).
    { intros l a. induction l as [|x l IHl]; simpl; lia. }
    rewrite (Hsum _ (last_year j + 0)). lia.
Qed.

Lemma total_years_of_missing runs k total i :
  (i <= k)%nat -> (forall j, runs !! i <> Some (Some j)) ->
  total_years_of runs k total = inl OSError.
Proof.
  revert total. induction k as [|k IH]; intros total Hi Hmissing.
  - assert (i = 0%nat) as -> by lia. simpl.
    destruct (runs !! 0%nat) as [[j|]|] eqn:E; try reflexivity.
    exfalso. exact (Hmissing j eq_refl).
  - change (total_years_of runs (S k) total)
      with (match runs !! S k with
            | Some (Some j) => total_years_of runs k (total + last_year j)
            | _ => inl OSError
            end).
    destruct (runs !! S k) as [[j|]|] eqn:E; try reflexivity.
    apply IH; [|exact Hmissing].
    destruct (Nat.eq_dec i (S k)) as [->|]; [|lia].
    exfalso. exact (Hmissing j E).
Qed.

(** [get_total_years] of the run [k] of a chain adds up the years of the
    jobs of the runs 0 to [k], without writing anything; it raises an
    OSError as soon as one of these runs has no readable job. *)
Theorem get_total_years_sums_chain c k w :
  (forall jobs,
     take (S k) (chain_runs w c) = map Some jobs -> length jobs = S k ->
     get_total_years (Some (c, k)) w
     = (inr (fold_right Z.add 0 (map last_year jobs)), w)) /\
  (forall i,
     (i <= k)%nat -> (forall j, chain_runs w c !! i <> Some (Some j)) ->
     get_total_years (Some (c, k)) w = (inl OSError, w)).
Proof.
  simpl. rewrite get_total_years_loop_eval. split.
  - intros jobs Htake Hlen.
    rewrite (total_years_of_jobs _ _ _ _ Htake Hlen). reflexivity.
  - intros i Hi Hmissing.
    rewrite (total_years_of_missing _ _ _ _ Hi Hmissing). reflexivity.
Qed.
(** ** Matching runs *)

(** A run that satisfies spinup options satisfies every weaker target:
    fewer years and a larger tolerance under the same combination, and
    also the 'or' combination of a target it satisfies under 'and', as
    long as the years asked for do not exceed the maximal spinup years. *)
Theorem is_run_matching_options_monotone rd opts opts' w w1 :
  years opts' <= years opts ->
  (tolerance opts <= tolerance opts')%Q ->
  combination opts' = combination opts \/
    (combination opts = "and" /\ combination opts' = "or" /\
     years opts <= MODEL_SPINUP_MAX_YEARS) ->
  is_run_matching_options rd opts w = (inr true, w1) ->
  exists w2, is_run_matching_options rd opts' w = (inr true, w2).
Proof.
  intros Hyears Htol Hcomb H.
  destruct rd as [rd|]; [|discriminate].
  unfold is_run_matching_options in *.
  apply bind_inr in H as [Y [u [HY H]]].
  pose proof (get_total_years_world (Some rd) w) as E.
  rewrite HY in E. simpl in E. subst u.
  apply bind_inr in H as [T [u [HT H]]].
  pose proof (get_real_tolerance_world rd w) as E.
  rewrite HT in E. simpl in E. subst u.
  unfold bind at 1. rewrite HY. unfold bind at 1. rewrite HT.
  assert (Hor : (years opts <=? Y) || Qleb T (tolerance opts) = true ->
                (years opts' <=? Y) || Qleb T (tolerance opts') = true).
  { rewrite !orb_true_iff, !Z.leb_le, !Qleb_le. intros [Hy|Ht].
    - left. lia.
    - right. eapply Qle_trans; eauto. }
  assert (Hand : (years opts <=? Y) && Qleb T (tolerance opts)
                 || (MODEL_SPINUP_MAX_YEARS <=? Y) = true ->
                 (years opts' <=? Y) && Qleb T (tolerance opts')
                 || (MODEL_SPINUP_MAX_YEARS <=? Y) = true).
  { rewrite !orb_true_iff, !andb_true_iff, !Z.leb_le, !Qleb_le.
    intros [[Hy Ht]|Hcap]; [left; split; [lia | eapply Qle_trans; eauto] | right; exact Hcap]. }
  destruct Hcomb as [Hc | (Hc & Hc' & Hmax)].
  - rewrite Hc. destruct (String.eqb (combination opts) "and").
    + unfold bind in H.
      destruct ((years opts <=? Y) && Qleb T (tolerance opts)
                || (MODEL_SPINUP_MAX_YEARS <=? Y)) eqn:Eb.
      2:{ simpl in H. discriminate. }
      rewrite (Hand eq_refl). unfold bind.
      destruct (true && Qltb (tolerance opts') T); simpl; eauto.
    + destruct (String.eqb (combination opts) "or"); [|discriminate].
      injection H as Hb _. rewrite (Hor Hb). eauto.
  - rewrite Hc in H. rewrite Hc'.
    change (String.eqb "and" "and") with true in H.
    change (String.eqb "or" "and") with false.
    change (String.eqb "or" "or") with true. cbv iota in *.
    unfold bind in H.
    destruct ((years opts <=? Y) && Qleb T (tolerance opts)
              || (MODEL_SPINUP_MAX_YEARS <=? Y)) eqn:Eb.
    2:{ simpl in H. discriminate. }
    exists w. unfold ret. f_equal. f_equal. apply Hor.
    rewrite orb_true_iff, andb_true_iff, !Z.leb_le, Qleb_le in Eb.
    rewrite orb_true_iff, Z.leb_le, Qleb_le.
    destruct Eb as [[Hy _]|Hcap]; left; lia.
Qed.
(** ** What the engine never loses *)

Lemma kept_refl chains w : kept chains w w.
Proof. split; [exists []; rewrite app_nil_r; reflexivity | auto]. Qed.

Lemma kept_trans chains w1 w2 w3 :
  kept chains w1 w2 -> kept chains w2 w3 -> kept chains w1 w3.
Proof.
  intros [[a1 Hd1] Hf1] [[a2 Hd2] Hf2]. split.
  - exists (a1 ++ a2). rewrite Hd2, Hd1, app_assoc. reflexivity.
  - intros c k j Hc Hj. apply (Hf2 c k j Hc). apply (Hf1 c k j Hc). exact Hj.
Qed.

Lemma kept_same_store chains w w' :
  db w' = db w -> fs w' = fs w -> kept chains w w'.
Proof.
  intros Hdb Hfs. split.
  - exists []. rewrite app_nil_r. exact Hdb.
  - intros c k j _. unfold chain_runs. rewrite Hfs. auto.
Qed.

Lemma kept_weaken (chains chains' : run_chain -> Prop) w w' :
  (forall c, chains' c -> chains c) -> kept chains w w' -> kept chains' w w'.
Proof. intros Hsub [Hdb Hfs]. split; [exact Hdb|]. intros c k j Hc. eauto. Qed.

Lemma keeps_weaken {A} (chains chains' : run_chain -> Prop) (m : M A) :
  (forall c, chains' c -> chains c) -> keeps chains m -> keeps chains' m.
Proof. intros Hsub Hm w r w' Hrun. eapply kept_weaken; eauto. Qed.

Lemma keeps_ret {A} chains (a : A) : keeps chains (ret a).
Proof. intros w r w' [= _ <-]. apply kept_refl. Qed.

Lemma keeps_raise {A} chains e : keeps chains (@raise A e).
Proof. intros w r w' [= _ <-]. apply kept_refl. Qed.

Lemma keeps_lift {A} chains (r : result A) : keeps chains (lift r).
Proof. intros w r' w' [= _ <-]. apply kept_refl. Qed.

Lemma keeps_get_world chains : keeps chains get_world.
Proof. intros w r w' [= _ <-]. apply kept_refl. Qed.

Lemma keeps_emit chains e : keeps chains (emit e).
Proof. intros w r w' [= _ <-]. apply kept_same_store; reflexivity. Qed.

Lemma keeps_bind {A B} chains (m : M A) (k : A -> M B) :
  keeps chains m -> (forall a, keeps chains (k a)) -> keeps chains (bind m k).
Proof.
  intros Hm Hk w r w' Hrun. unfold bind in Hrun.
  destruct (m w) as [[e|a] w1] eqn:E.
  - injection Hrun as _ <-. exact (Hm _ _ _ E).
  - eapply kept_trans; [exact (Hm _ _ _ E) | exact (Hk a _ _ _ Hrun)].
Qed.

(** A bind whose continuation needs what [steps] says of the value. *)
Lemma keeps_bind_steps {A B} chains keep_fs P (R : A -> Prop)
    (m : M A) (k : A -> M B) :
  steps keep_fs P R m -> keeps chains m ->
  (forall a, R a -> keeps chains (k a)) -> keeps chains (bind m k).
Proof.
  intros Hs Hm Hk w r w' Hrun. unfold bind in Hrun.
  destruct (m w) as [[e|a] w1] eqn:E.
  - injection Hrun as _ <-. exact (Hm _ _ _ E).
  - eapply kept_trans; [exact (Hm _ _ _ E)|].
    destruct (Hs _ _ _ E) as [_ HR].
    exact (Hk a (HR a eq_refl) _ _ _ Hrun).
Qed.

Lemma keeps_try {A} chains (m h : M A) :
  keeps chains m -> keeps chains h -> keeps chains (try_except_OSError m h).
Proof.
  intros Hm Hh w r w' Hrun. unfold try_except_OSError in Hrun.
  destruct (m w) as [[e|a] w1] eqn:E.
  - destruct e; try (injection Hrun as _ <-; exact (Hm _ _ _ E)).
    eapply kept_trans; [exact (Hm _ _ _ E) | exact (Hh _ _ _ Hrun)].
  - injection Hrun as _ <-. exact (Hm _ _ _ E).
Qed.

Lemma keeps_for_each {A S} chains (l : list A) (body : A -> S -> M S) s :
  (forall x s, keeps chains (body x s)) -> keeps chains (for_each l body s).
Proof.
  intros Hbody. revert s. induction l as [|x l IH]; intros s; simpl.
  - apply keeps_ret.
  - apply keeps_bind; [apply Hbody | exact IH].
Qed.

Create HintDb keeps discriminated.
#[local] Hint Resolve keeps_ret keeps_raise keeps_lift keeps_get_world
  keeps_emit : keeps.

(** Follow the structure of a computation down to its calls. *)
Ltac keeps_go :=
  repeat first
    [ progress intros
    | progress cbv zeta
    | solve [eauto with keeps]
    | apply keeps_bind
    | apply keeps_try
    | apply keeps_for_each
    | match goal with
      | |- keeps _ (match ?x with _ => _ end) => destruct x
      end ].

Lemma keeps_open_job_force_load chains rd : keeps chains (open_job_force_load rd).
Proof. unfold open_job_force_load. keeps_go. Qed.
#[local] Hint Resolve keeps_open_job_force_load : keeps.

Lemma keeps_run_dirs chains c : keeps chains (run_dirs c).
Proof. unfold run_dirs, warn. keeps_go. Qed.
#[local] Hint Resolve keeps_run_dirs : keeps.

Lemma keeps_last_run_dir chains c : keeps chains (last_run_dir c).
Proof. unfold last_run_dir. keeps_go. Qed.
#[local] Hint Resolve keeps_last_run_dir : keeps.

Lemma keeps_previous_run_dir chains rd : keeps chains (previous_run_dir rd).
Proof. unfold previous_run_dir. keeps_go. Qed.
#[local] Hint Resolve keeps_previous_run_dir : keeps.

Lemma keeps_get_total_years_loop chains c k total :
  keeps chains (get_total_years_loop c k total).
Proof.
  revert total. induction k as [|k IH]; intros total; simpl; keeps_go.
Qed.
#[local] Hint Resolve keeps_get_total_years_loop : keeps.

Lemma keeps_get_total_years chains rd : keeps chains (get_total_years rd).
Proof. unfold get_total_years. keeps_go. Qed.
#[local] Hint Resolve keeps_get_total_years : keeps.

Lemma keeps_get_real_tolerance chains rd : keeps chains (get_real_tolerance rd).
Proof. unfold get_real_tolerance. keeps_go. Qed.
#[local] Hint Resolve keeps_get_real_tolerance : keeps.

Lemma keeps_is_run_matching_options chains rd opts :
  keeps chains (is_run_matching_options rd opts).
Proof. unfold is_run_matching_options, warn. keeps_go. Qed.
#[local] Hint Resolve keeps_is_run_matching_options : keeps.

Lemma keeps_add_value chains entry : keeps chains (add_value entry).
Proof.
  intros w r w' [= _ <-]. split; [exists [entry]; reflexivity | auto].
Qed.
#[local] Hint Resolve keeps_add_value : keeps.

Lemma keeps_closest_parameter_set_dir chains parameters no_spinup_okay :
  keeps chains (closest_parameter_set_dir parameters no_spinup_okay).
Proof. unfold closest_parameter_set_dir. keeps_go. Qed.
#[local] Hint Resolve keeps_closest_parameter_set_dir : keeps.

Lemma keeps_parameter_set_dir chains parameters create :
  keeps chains (parameter_set_dir parameters create).
Proof. unfold parameter_set_dir. keeps_go. Qed.
#[local] Hint Resolve keeps_parameter_set_dir : keeps.

Lemma keeps_spinup_dir chains p create : keeps chains (spinup_dir p create).
Proof. unfold spinup_dir. keeps_go. Qed.
#[local] Hint Resolve keeps_spinup_dir : keeps.

Lemma keeps_loadtxt_parameters chains d : keeps chains (loadtxt_parameters d).
Proof. unfold loadtxt_parameters. keeps_go. Qed.
#[local] Hint Resolve keeps_loadtxt_parameters : keeps.

Lemma keeps_wait_until_run_job_finished chains out :
  keeps chains (wait_until_run_job_finished out).
Proof. unfold wait_until_run_job_finished. keeps_go. Qed.
#[local] Hint Resolve keeps_wait_until_run_job_finished : keeps.

Lemma keeps_make_new_run_dir chains c : keeps chains (make_new_run_dir c).
Proof.
  intros w r w' Hrun. rewrite make_new_run_dir_eval in Hrun.
  injection Hrun as _ <-. split; [exists []; simpl; rewrite app_nil_r; reflexivity|].
  intros c' k j _ Hj. unfold chain_runs at 1. simpl.
  destruct (decide (c' = c)) as [->|Hne].
  - rewrite lookup_insert_eq. simpl. apply lookup_app_l_Some. exact Hj.
  - rewrite lookup_insert_ne by congruence. exact Hj.
Qed.
#[local] Hint Resolve keeps_make_new_run_dir : keeps.

(** Starting a job in a run directory that holds none loses nothing. *)
Lemma start_run_kept chains model_parameters c k years tolerance kind write tcf
    input wait w r w' :
  (forall j, chain_runs w c !! k <> Some (Some j)) ->
  start_run model_parameters (RunPath (c, k)) years tolerance kind write tcf input
    wait w = (r, w') ->
  kept chains w w'.
Proof.
  intros Hfree Hrun. unfold start_run in Hrun.
  unfold bind at 1, get_world in Hrun.
  unfold bind at 1, set_fs in Hrun. unfold bind at 1, emit in Hrun.
  match type of Hrun with
  | (if wait then _ else _) ?w1 = _ =>
      assert (H1 : kept chains w w1); [|set (u := w1) in *]
  end.
  { split; [exists []; simpl; rewrite app_nil_r; reflexivity|].
    intros c' k' j _ Hj. unfold chain_runs in *. simpl.
    destruct (decide (c' = c)) as [->|Hne].
    - rewrite lookup_alter_eq. destruct (fs w !! c) as [runs|]; simpl in *;
        [|discriminate].
      rewrite list_lookup_insert_ne; [exact Hj|].
      intros ->. exact (Hfree j Hj).
    - rewrite lookup_alter_ne by congruence. exact Hj. }
  eapply kept_trans; [exact H1|].
  destruct wait; [|injection Hrun as _ <-; apply kept_refl].
  exact (keeps_wait_until_run_job_finished chains _ _ _ _ Hrun).
Qed.

(** Starting a job outside the chains looked at loses nothing there. *)
Lemma keeps_start_run_other (chains : run_chain -> Prop) model_parameters out
    years tolerance kind write tcf input wait :
  match out with
  | RunPath rd => ~ chains rd.1
  | TrajectoryTmp => True
  end ->
  keeps chains
    (start_run model_parameters out years tolerance kind write tcf input wait).
Proof.
  intros Hout w r w' Hrun. unfold start_run in Hrun.
  unfold bind at 1, get_world in Hrun.
  destruct out as [[c k]|].
  - unfold bind at 1, set_fs in Hrun. unfold bind at 1, emit in Hrun.
    match type of Hrun with
    | (if wait then _ else _) ?w1 = _ =>
        assert (H1 : kept chains w w1); [|set (u := w1) in *]
    end.
    { split; [exists []; simpl; rewrite app_nil_r; reflexivity|].
      intros c' k' j Hc' Hj. unfold chain_runs in *. simpl.
      rewrite lookup_alter_ne; [exact Hj|]. intros <-. exact (Hout Hc'). }
    eapply kept_trans; [exact H1|].
    destruct wait; [|injection Hrun as _ <-; apply kept_refl].
    exact (keeps_wait_until_run_job_finished chains _ _ _ _ Hrun).
  - unfold bind at 1, ret in Hrun. unfold bind at 1, emit in Hrun.
    match type of Hrun with
    | (if wait then _ else _) ?w1 = _ =>
        assert (H1 : kept chains w w1);
          [apply kept_same_store; reflexivity | set (u := w1) in *]
    end.
    eapply kept_trans; [exact H1|].
    destruct wait; [|injection Hrun as _ <-; apply kept_refl].
    exact (keeps_wait_until_run_job_finished chains _ _ _ _ Hrun).
Qed.

(** The new run of [matching_run_dir]: a directory is made, and the job
    is started in that directory. *)
Lemma keeps_new_spinup_run chains index (last_run : option run_dir) parameters
    opts :
  keeps chains
    (do run_dir <- make_new_run_dir (Spinup index);
     do total_concentration_factor <-
       lift (match last_run with
             | None => last_or_raise parameters
             | Some _ => inr 1%Q
             end);
     let model_parameters := but_last parameters in
     do last_years <-
       (match last_run with
        | Some _ => get_total_years last_run
        | None => ret 0
        end);
     run start_run model_parameters (RunPath run_dir) (years opts - last_years)
           (tolerance opts) KindSpinup false total_concentration_factor last_run
           true;
     ret (Some run_dir)).
Proof.
  intros w r w' Hrun. unfold bind at 1 in Hrun.
  rewrite make_new_run_dir_eval in Hrun.
  set (c := Spinup index) in *.
  set (n := length (chain_runs w c)) in *.
  set (w1 := {| db := db w; fs := <[c := chain_runs w c ++ [None]]> (fs w);
                trace := trace w ++ [EvMakeRunDir (c, n)] |}) in *.
  assert (H1 : kept chains w w1).
  { apply (keeps_make_new_run_dir chains c w (inr (c, n))).
    apply make_new_run_dir_eval. }
  eapply kept_trans; [exact H1|].
  unfold bind at 1, lift in Hrun.
  match type of Hrun with
  | match ?t with _ => _ end = _ => destruct t as [e|tcf]
  end.
  { injection Hrun as _ <-. apply kept_refl. }
  cbv zeta in Hrun. unfold bind at 1 in Hrun.
  assert (Hyears : exists y,
            (match last_run with
             | Some _ => get_total_years last_run
             | None => ret 0
             end) w1 = (y, w1)).
  { destruct last_run as [d|]; [|eexists; reflexivity].
    pose proof (get_total_years_world (Some d) w1) as E.
    destruct (get_total_years (Some d) w1) as [y u]. simpl in E. subst u.
    eexists; reflexivity. }
  destruct Hyears as [y Hy]. rewrite Hy in Hrun.
  destruct y as [e|y].
  { injection Hrun as _ <-. apply kept_refl. }
  unfold bind at 1 in Hrun.
  destruct (start_run (but_last parameters) (RunPath (c, n)) (years opts - y)
              (tolerance opts) KindSpinup false tcf last_run true w1)
    as [r2 w2] eqn:E.
  assert (H2 : kept chains w1 w2).
  { eapply start_run_kept; [|exact E].
    intros j. unfold chain_runs at 1. unfold w1 at 1. simpl.
    rewrite lookup_insert_eq. simpl.
    rewrite lookup_app_r by (unfold n; lia).
    unfold n. rewrite Nat.sub_diag. discriminate. }
  destruct r2 as [e|[]]; injection Hrun as _ <-; exact H2.
Qed.

Lemma keeps_matching_run_dir_body chains self p opts sfc :
  (forall p' opts' sfc', keeps chains (self p' opts' sfc')) ->
  keeps chains (matching_run_dir_body self p opts sfc).
Proof.
  intros Hself. unfold matching_run_dir_body.
  apply keeps_bind; [eauto with keeps|]. intros index.
  apply keeps_bind; [eauto with keeps|]. intros last.
  apply keeps_bind; [eauto with keeps|]. intros is_matching.
  destruct is_matching; [apply keeps_ret|].
  apply keeps_bind; [eauto with keeps|]. intros parameters.
  apply keeps_bind; [keeps_go|]. intros last'.
  apply keeps_bind; [keeps_go|]. intros _.
  cbv zeta.
  destruct (String.eqb (combination opts) "or");
    [apply keeps_new_spinup_run|].
  destruct (String.eqb (combination opts) "and"); keeps_go.
Qed.

Lemma keeps_matching_run_dir_fuel chains fuel p opts sfc :
  keeps chains (matching_run_dir_fuel fuel p opts sfc).
Proof.
  revert p opts sfc. induction fuel as [|fuel IH]; intros p opts sfc; simpl.
  - apply keeps_raise.
  - apply keeps_matching_run_dir_body. exact IH.
Qed.

(** [matching_run_dir] only adds: whatever its outcome (exceptions
    included), every entry of the parameter database is still at its
    index, and every job that a run directory of any chain held is still
    there; the runs of a chain are never removed, emptied or started
    again. *)
Theorem matching_run_dir_only_adds p opts sfc w r w' :
  matching_run_dir p opts sfc w = (r, w') ->
  (exists added, db w' = db w ++ added) /\
  forall c k j,
    chain_runs w c !! k = Some (Some j) -> chain_runs w' c !! k = Some (Some j).
Proof.
  intros Hrun.
  destruct (keeps_matching_run_dir_fuel (fun _ => True) 2 p opts sfc _ _ _ Hrun)
    as [Hdb Hfs].
  split; [exact Hdb|]. intros c k j. apply Hfs. exact I.
Qed.
Lemma keeps_start_run_trajectory chains model_parameters years tolerance kind
    write tcf input wait :
  keeps chains
    (start_run model_parameters TrajectoryTmp years tolerance kind write tcf input
       wait).
Proof. apply keeps_start_run_other. exact I. Qed.
#[local] Hint Resolve keeps_start_run_trajectory : keeps.

Lemma keeps__get_trajectory chains load rd model_parameters :
  keeps chains (_get_trajectory load rd model_parameters).
Proof. unfold _get_trajectory. keeps_go. Qed.
#[local] Hint Resolve keeps__get_trajectory : keeps.

Lemma keeps_matching_run_dir chains p opts sfc :
  keeps chains (matching_run_dir p opts sfc).
Proof. apply keeps_matching_run_dir_fuel. Qed.
#[local] Hint Resolve keeps_matching_run_dir : keeps.

Lemma keeps__f chains load parameters opts : keeps chains (_f load parameters opts).
Proof. unfold _f. keeps_go. Qed.
#[local] Hint Resolve keeps__f : keeps.

Lemma keeps_derivative_spinup_base chains load parameters opts :
  keeps chains (derivative_spinup_base load parameters opts).
Proof. unfold derivative_spinup_base. keeps_go. Qed.
#[local] Hint Resolve keeps_derivative_spinup_base : keeps.

Lemma keeps_remove_run_content (chains : run_chain -> Prop) rd :
  ~ chains rd.1 -> keeps chains (remove_run_content rd).
Proof.
  intros Hrd w r w' [= _ <-].
  split; [exists []; simpl; rewrite app_nil_r; reflexivity|].
  intros c k j Hc Hj. unfold chain_runs in *. simpl.
  rewrite lookup_alter_ne; [exact Hj|]. intros <-. exact (Hrd Hc).
Qed.

Lemma not_spinup_partial_derivative index parameter_index h_factor :
  ~ is_spinup (PartialDerivative index parameter_index h_factor).
Proof. intros [i Hi]. discriminate. Qed.

Lemma keeps_start_partial_derivative_run base v h_factors h_i parameter_index
    h_factor_index st :
  keeps is_spinup
    (start_partial_derivative_run base v h_factors h_i parameter_index
       h_factor_index st).
Proof.
  unfold start_partial_derivative_run.
  apply keeps_bind; [keeps_go|]. intros h_factor.
  apply keeps_bind; [keeps_go|]. intros p.
  cbv zeta.
  set (chain := PartialDerivative (base_parameter_set_dir base) parameter_index
                  (Qsign (pert_h p))).
  assert (Hchain : forall rd : run_dir, rd.1 = chain -> ~ is_spinup rd.1).
  { intros rd ->. apply not_spinup_partial_derivative. }
  apply (keeps_bind_steps _ true warning_event
           (fun r => forall rd, r = Some rd -> rd.1 = chain)).
  { apply steps_try; [apply last_run_dir_steps | apply steps_ret; discriminate]. }
  { keeps_go. }
  intros run_dir Hrun_dir.
  apply keeps_bind; [keeps_go|]. intros spinup_run_dir.
  apply keeps_bind; [keeps_go|]. intros matching.
  apply keeps_bind; [keeps_go|]. intros not_matching.
  apply keeps_bind; [|keeps_go].
  destruct not_matching; [|apply keeps_ret].
  apply keeps_bind.
  { destruct run_dir as [d|]; [|apply keeps_ret].
    apply keeps_remove_run_content. apply Hchain, Hrun_dir. reflexivity. }
  intros _.
  apply (keeps_bind_steps _ false
           (fun e => warning_event e \/ exists k, e = EvMakeRunDir (chain, k))
           (fun rd => rd.1 = chain)).
  { apply make_new_run_dir_steps. }
  { keeps_go. }
  intros d Hd.
  apply keeps_bind; [keeps_go|]. intros parameters_dict.
  apply keeps_bind; [|keeps_go].
  apply keeps_start_run_other. apply Hchain, Hd.
Qed.
#[local] Hint Resolve keeps_start_partial_derivative_run : keeps.

Lemma keeps_start_partial_derivative_runs base v h_factors mask :
  keeps is_spinup (start_partial_derivative_runs base v h_factors mask).
Proof. unfold start_partial_derivative_runs. keeps_go. Qed.
#[local] Hint Resolve keeps_start_partial_derivative_runs : keeps.

Lemma keeps_include_result chains load v runs parameter_index h_factor_index df :
  keeps chains (include_result load v runs parameter_index h_factor_index df).
Proof. unfold include_result. keeps_go. Qed.
#[local] Hint Resolve keeps_include_result : keeps.

Lemma keeps_make_trajectories_and_calculate_df chains load base v h_factors mask
    runs :
  keeps chains (make_trajectories_and_calculate_df load base v h_factors mask runs).
Proof. unfold make_trajectories_and_calculate_df. keeps_go. Qed.
#[local] Hint Resolve keeps_make_trajectories_and_calculate_df : keeps.

Lemma keeps__df load parameters opts partial_derivatives_mask :
  keeps is_spinup (_df load parameters opts partial_derivatives_mask).
Proof. unfold _df. keeps_go. Qed.
#[local] Hint Resolve keeps__df : keeps.

(** The derivative scheduler removes and restarts runs only in partial
    derivative chains.  Whatever the outcome of [_df], [df_points] or
    [df_boxes] (exceptions included), every entry of the parameter
    database is still at its index and every job of a run directory of a
    spinup chain is still in its place. *)
Theorem derivatives_keep_spinup_runs load parameters opts points
    time_dim_desired partial_derivatives_mask w :
  let kept_from_w w' :=
    (exists added, db w' = db w ++ added) /\
    forall index k j,
      chain_runs w (Spinup index) !! k = Some (Some j) ->
      chain_runs w' (Spinup index) !! k = Some (Some j) in
  kept_from_w (_df load parameters opts partial_derivatives_mask w).2 /\
  kept_from_w (df_points parameters points partial_derivatives_mask w).2 /\
  kept_from_w (df_boxes parameters time_dim_desired partial_derivatives_mask w).2.
Proof.
  cbv zeta.
  assert (Hkept : forall A (m : M A),
            keeps is_spinup m ->
            (exists added, db (m w).2 = db w ++ added) /\
            forall index k j,
              chain_runs w (Spinup index) !! k = Some (Some j) ->
              chain_runs (m w).2 (Spinup index) !! k = Some (Some j)).
  { intros A m Hm. destruct (m w) as [r w'] eqn:E.
    destruct (Hm _ _ _ E) as [Hdb Hfs]. split; [exact Hdb|].
    intros index k j. apply Hfs. exists index. reflexivity. }
  split; [|split]; apply Hkept.
  - apply keeps__df.
  - unfold df_points. keeps_go.
  - unfold df_boxes. keeps_go.
Qed.

(** Evaluating the model only adds to the database: whatever the outcome
    of [_f], [f_points] or [f_boxes], every entry of the parameter
    database is still at its index and every job of a run directory of
    any chain is still in its place. *)
Theorem evaluations_only_add load parameters opts points time_dim_desired w :
  let kept_from_w w' :=
    (exists added, db w' = db w ++ added) /\
    forall c k j,
      chain_runs w c !! k = Some (Some j) ->
      chain_runs w' c !! k = Some (Some j) in
  kept_from_w (_f load parameters opts w).2 /\
  kept_from_w (f_points parameters points w).2 /\
  kept_from_w (f_boxes parameters time_dim_desired w).2.
Proof.
  cbv zeta.
  assert (Hkept : forall A (m : M A),
            keeps (fun _ => True) m ->
            (exists added, db (m w).2 = db w ++ added) /\
            forall c k j,
              chain_runs w c !! k = Some (Some j) ->
              chain_runs (m w).2 c !! k = Some (Some j)).
  { intros A m Hm. destruct (m w) as [r w'] eqn:E.
    destruct (Hm _ _ _ E) as [Hdb Hfs]. split; [exact Hdb|].
    intros c k j. apply Hfs. exact I. }
  split; [|split]; apply Hkept.
  - apply keeps__f.
  - unfold f_points. keeps_go.
  - unfold f_boxes. keeps_go.
Qed.
(** ** What a call of [matching_run_dir] leaves *)

Lemma last_run_dir_fs c w w' rd :
  fs w' = fs w ->
  last_run_dir c w = (inr (Some rd), w) ->
  last_run_dir c w' = (inr (Some rd), w').
Proof.
  intros Hfs H. apply last_run_dir_Some in H as [_ (runs & j & Hruns & -> & Hj & _)].
  assert (Hn : (0 < length runs)%nat)
    by (apply lookup_lt_Some in Hj; destruct runs; simpl in *; lia).
  destruct runs as [|r runs _] using rev_ind; [simpl in Hn; lia|].
  rewrite length_app in *. simpl in *.
  replace (Nat.pred (length runs + 1)) with (length runs) in * by lia.
  rewrite lookup_app_r, Nat.sub_diag in Hj by lia. injection Hj as ->.
  rewrite <- Hfs in Hruns. rewrite (last_run_dir_snoc _ _ _ _ Hruns). reflexivity.
Qed.

Lemma get_total_years_fs rd w w' :
  fs w' = fs w -> (get_total_years rd w').1 = (get_total_years rd w).1.
Proof.
  intros Hfs. destruct rd as [[c k]|]; [|reflexivity]. simpl.
  rewrite !get_total_years_loop_eval. unfold chain_runs. rewrite Hfs. reflexivity.
Qed.

(** Every way in which a call for an 'or' target returns: the last run
    of the chain matches and is returned as it is, or it does not and
    one run is added to the chain. *)
Lemma matching_run_dir_or_inr p opts sfc w r w' :
  combination opts = "or" ->
  matching_run_dir p opts sfc w = (inr r, w') ->
  exists index w1 last_run w2 b w3,
    spinup_dir p true w = (inr index, w1) /\
    last_run_dir (Spinup index) w1 = (inr last_run, w2) /\
    is_run_matching_options last_run opts w2 = (inr b, w3) /\
    fs w3 = fs w /\
    (exists found, trace w3 = trace w ++ found /\ Forall lookup_event found) /\
    if b then r = last_run /\ w' = w3
    else
      exists parameters last_years total_concentration_factor j,
        let n := length (chain_runs w3 (Spinup index)) in
        let req := {| req_model_parameters := but_last parameters;
                      req_years := years opts - last_years;
                      req_tolerance := tolerance opts;
                      req_total_concentration_factor := total_concentration_factor;
                      req_write_trajectory := false;
                      req_tracer_input_dir := last_run;
                      req_job_setup := KindSpinup |} in
        db w3 !! index = Some parameters /\
        get_total_years last_run w3 = (inr last_years, w3) /\
        (last_run <> None -> last_years < years opts) /\
        r = Some (Spinup index, n) /\
        job_request_of j = req /\
        (last_year j, last_tolerance j)
          = metos3d (<[Spinup index := chain_runs w3 (Spinup index) ++ [None]]>
                       (fs w3)) req /\
        db w' = db w3 /\
        fs w' = <[Spinup index := chain_runs w3 (Spinup index) ++ [Some j]]> (fs w3) /\
        trace w' =
          trace w3
          ++ match last_run with
             | Some d => [EvWait (RunPath d)]
             | None => []
             end
          ++ [EvMakeRunDir (Spinup index, n);
              EvStartRun (RunPath (Spinup index, n)) req;
              EvWait (RunPath (Spinup index, n))].
Proof.
  intros Hc Hrun.
  change (matching_run_dir p opts sfc w)
    with (matching_run_dir_body (matching_run_dir_fuel 1) p opts sfc w) in Hrun.
  pose proof Hrun as Hbody. unfold matching_run_dir_body in Hbody.
  apply bind_inr in Hbody as [index [w1 [H1 Hbody]]].
  apply bind_inr in Hbody as [last_run [w2 [H2 Hbody]]].
  apply bind_inr in Hbody as [b [w3 [H3 Hbody]]].
  exists index, w1, last_run, w2, b, w3.
  split; [exact H1|]. split; [exact H2|]. split; [exact H3|].
  destruct (spinup_dir_steps p true _ _ _ H1) as [[Hfs1 (e1 & Ht1 & He1)] _].
  destruct (last_run_dir_steps (Spinup index) _ _ _ H2) as [[Hfs2 (e2 & Ht2 & He2)] _].
  destruct (is_run_matching_options_steps last_run opts _ _ _ H3)
    as [[Hfs3 (e3 & Ht3 & He3)] _].
  specialize (Hfs1 eq_refl). specialize (Hfs2 eq_refl). specialize (Hfs3 eq_refl).
  split; [congruence|]. split.
  { exists (e1 ++ e2 ++ e3). split.
    - rewrite Ht3, Ht2, Ht1, <- !app_assoc. reflexivity.
    - rewrite !Forall_app. split_and!; [exact He1| |];
        (eapply Forall_impl; [eassumption|]);
        intros [] He; try contradiction; exact I. }
  destruct b.
  { injection Hbody as <- <-. split; reflexivity. }
  clear Hbody.
  destruct (matching_run_dir_body_not_matching (matching_run_dir_fuel 1)
              p opts sfc w index w1 last_run w2 w3 H1 H2 H3) as [Hret Heq].
  destruct (Hret r w' Hrun) as [[parameters H4] Hsfc].
  rewrite (Heq parameters H4 Hsfc), Hc in Hrun.
  change (String.eqb "or" "or") with true in Hrun. cbv iota in Hrun.
  clear Hret Heq.
  assert (Hdb : db w3 !! index = Some parameters).
  { unfold loadtxt_parameters, bind, get_world in H4. simpl in H4.
    destruct (db w3 !! index); [|discriminate].
    injection H4 as ->. reflexivity. }
  set (w4 := match last_run with
             | Some d => add_event w3 (EvWait (RunPath d))
             | None => w3
             end) in *.
  assert (Hfs4 : fs w4 = fs w3) by (unfold w4; destruct last_run; reflexivity).
  assert (Hdb4 : db w4 = db w3) by (unfold w4; destruct last_run; reflexivity).
  assert (Hchain4 : chain_runs w4 (Spinup index) = chain_runs w3 (Spinup index))
    by (unfold chain_runs; rewrite Hfs4; reflexivity).
  set (n := length (chain_runs w3 (Spinup index))) in *.
  unfold bind at 1 in Hrun. rewrite make_new_run_dir_eval, Hchain4 in Hrun.
  fold n in Hrun.
  set (w5 := {| db := db w4;
                fs := <[Spinup index := chain_runs w3 (Spinup index) ++ [None]]> (fs w4);
                trace := trace w4 ++ [EvMakeRunDir (Spinup index, n)] |}) in *.
  assert (Hchain5 : chain_runs w5 (Spinup index)
                    = chain_runs w3 (Spinup index) ++ [None]).
  { unfold chain_runs at 1. simpl. rewrite lookup_insert_eq. reflexivity. }
  assert (Hchain31 : chain_runs w3 (Spinup index) = chain_runs w1 (Spinup index)).
  { unfold chain_runs. rewrite Hfs3, Hfs2. reflexivity. }
  assert (Hlast : match last_run with
                  | None => n = 0%nat
                  | Some d => d = (Spinup index, Nat.pred n) /\ (0 < n)%nat
                  end).
  { destruct last_run as [d|].
    - apply last_run_dir_Some in H2 as [-> [runs [j [Hruns [-> [Hj _]]]]]].
      unfold n. rewrite Hchain31. unfold chain_runs. rewrite Hruns. simpl.
      split; [reflexivity|]. apply lookup_lt_Some in Hj.
      destruct runs; simpl in *; lia.
    - unfold n. rewrite Hchain31, (last_run_dir_None _ _ _ H2). reflexivity. }
  apply bind_inr in Hrun as [tcf [w6 [Htcf Hrun]]].
  apply lift_inr in Htcf as [Htcf ->].
  apply bind_inr in Hrun as [last_years [w6 [Hyears Hrun]]].
  assert (Hyears3 : get_total_years last_run w3 = (inr last_years, w3) /\ w6 = w5).
  { destruct last_run as [[c k]|].
    - destruct Hlast as [[= -> ->] Hn].
      simpl in Hyears. rewrite get_total_years_loop_eval in Hyears.
      injection Hyears as Hy <-. split; [|reflexivity].
      simpl. rewrite get_total_years_loop_eval. f_equal.
      rewrite Hchain5 in Hy. rewrite <- Hy. symmetry.
      apply total_years_of_app. fold n. lia.
    - injection Hyears as <- <-. split; reflexivity. }
  destruct Hyears3 as [Hyears3 ->].
  apply bind_inr in Hrun as [[] [w7 [Hstart Hret]]].
  injection Hret as <- <-.
  rewrite start_run_wait_eval in Hstart
    by (rewrite Hchain5, length_app; simpl; fold n; lia).
  injection Hstart as <-.
  set (req := {| req_model_parameters := but_last parameters;
                 req_years := years opts - last_years;
                 req_tolerance := tolerance opts;
                 req_total_concentration_factor := tcf;
                 req_write_trajectory := false;
                 req_tracer_input_dir := last_run;
                 req_job_setup := KindSpinup |}).
  exists parameters, last_years, tcf,
    {| job_request_of := req;
       last_year := (metos3d (fs w5) req).1;
       last_tolerance := (metos3d (fs w5) req).2 |}.
  cbv zeta. fold n. fold req.
  split; [exact Hdb|]. split; [exact Hyears3|]. split.
  { (* the last run did not match: it has fewer years than asked for *)
    intros Hsome. destruct last_run as [d|]; [|contradiction].
    unfold is_run_matching_options in H3.
    apply bind_inr in H3 as [Y [u [HY H3]]].
    pose proof (get_total_years_world (Some d) w2) as E.
    rewrite HY in E. simpl in E. subst u.
    apply bind_inr in H3 as [T [u [HT H3]]].
    rewrite Hc in H3. change (String.eqb "or" "and") with false in H3.
    change (String.eqb "or" "or") with true in H3. cbv iota in H3.
    injection H3 as Hb _. apply orb_false_iff in Hb as [Hb _].
    apply Z.leb_gt in Hb.
    pose proof (get_total_years_fs (Some d) w2 w3 Hfs3) as E.
    rewrite HY, Hyears3 in E. simpl in E. injection E as ->. exact Hb. }
  split; [reflexivity|]. split; [reflexivity|]. split.
  { simpl. rewrite Hfs4. destruct (metos3d _ req). reflexivity. }
  split; [exact Hdb4|]. split.
  - simpl. rewrite alter_insert_eq, Hfs4. f_equal.
    fold n. unfold n. rewrite insert_app_r_alt by lia.
    rewrite Nat.sub_diag. reflexivity.
  - simpl. unfold w4. destruct last_run as [d|]; simpl;
      rewrite <- ?app_assoc; reflexivity.
Qed.
Lemma matching_run_dir_last_matching index w1 last_run w2 opts w3 :
  last_run_dir (Spinup index) w1 = (inr last_run, w2) ->
  is_run_matching_options last_run opts w2 = (inr true, w3) ->
  exists rd, last_run = Some rd /\ rd.1 = Spinup index /\
    last_run_dir (Spinup index) w3 = (inr (Some rd), w3).
Proof.
  intros H2 H3. destruct last_run as [rd|]; [|discriminate].
  exists rd. split; [reflexivity|].
  destruct (is_run_matching_options_steps (Some rd) opts _ _ _ H3) as [[Hfs3 _] _].
  pose proof H2 as H2'.
  apply last_run_dir_Some in H2' as [-> (runs & j & _ & -> & _)].
  split; [reflexivity|].
  apply (last_run_dir_fs _ w1); [apply Hfs3; reflexivity | exact H2].
Qed.

Lemma matching_run_dir_or_last p opts sfc w r w' :
  combination opts = "or" ->
  matching_run_dir p opts sfc w = (inr r, w') ->
  exists index w1 rd,
    spinup_dir p true w = (inr index, w1) /\
    r = Some rd /\ rd.1 = Spinup index /\
    last_run_dir (Spinup index) w' = (inr (Some rd), w').
Proof.
  intros Hc Hrun.
  destruct (matching_run_dir_or_inr _ _ _ _ _ _ Hc Hrun)
    as (index & w1 & last_run & w2 & b & w3 & H1 & H2 & H3 & Hfs & _ & Hb).
  exists index, w1. destruct b.
  - destruct Hb as [-> ->].
    destruct (matching_run_dir_last_matching _ _ _ _ _ _ H2 H3)
      as (rd & -> & Hrd & Hlast).
    exists rd. auto.
  - destruct Hb as (parameters & last_years & tcf & j & _ & _ & _ & -> & _ & _
                    & _ & Hfs' & _).
    eexists. split; [exact H1|]. split; [reflexivity|]. split; [reflexivity|].
    assert (Hchain : fs w' !! Spinup index
                     = Some (chain_runs w3 (Spinup index) ++ [Some j]))
      by (rewrite Hfs'; apply lookup_insert_eq).
    rewrite (last_run_dir_snoc _ _ _ _ Hchain). reflexivity.
Qed.

(** What a returning call for an 'and' target is made of. *)
Lemma matching_run_dir_and_inr p opts sfc w r w' :
  combination opts = "and" ->
  matching_run_dir p opts sfc w = (inr r, w') ->
  exists index w1 last_run w2 b w3,
    spinup_dir p true w = (inr index, w1) /\
    last_run_dir (Spinup index) w1 = (inr last_run, w2) /\
    is_run_matching_options last_run opts w2 = (inr b, w3) /\
    (exists found, trace w3 = trace w ++ found /\ Forall lookup_event found) /\
    if b then r = last_run /\ w' = w3
    else
      exists r1 w5,
        let w4 := match last_run with
                  | Some d => add_event w3 (EvWait (RunPath d))
                  | None => w3
                  end in
        matching_run_dir (ParameterSetDir index)
          {| years := years opts; tolerance := 0; combination := "or" |} sfc w4
        = (inr r1, w5) /\
        matching_run_dir (ParameterSetDir index)
          {| years := MODEL_SPINUP_MAX_YEARS; tolerance := tolerance opts;
             combination := "or" |} sfc w5
        = (inr r, w').
Proof.
  intros Hc Hrun.
  change (matching_run_dir p opts sfc w)
    with (matching_run_dir_body (matching_run_dir_fuel 1) p opts sfc w) in Hrun.
  pose proof Hrun as Hbody. unfold matching_run_dir_body in Hbody.
  apply bind_inr in Hbody as [index [w1 [H1 Hbody]]].
  apply bind_inr in Hbody as [last_run [w2 [H2 Hbody]]].
  apply bind_inr in Hbody as [b [w3 [H3 Hbody]]].
  exists index, w1, last_run, w2, b, w3.
  split; [exact H1|]. split; [exact H2|]. split; [exact H3|].
  destruct (spinup_dir_steps p true _ _ _ H1) as [[_ (e1 & Ht1 & He1)] _].
  destruct (last_run_dir_steps (Spinup index) _ _ _ H2) as [[_ (e2 & Ht2 & He2)] _].
  destruct (is_run_matching_options_steps last_run opts _ _ _ H3)
    as [[_ (e3 & Ht3 & He3)] _].
  split.
  { exists (e1 ++ e2 ++ e3). split.
    - rewrite Ht3, Ht2, Ht1, <- !app_assoc. reflexivity.
    - rewrite !Forall_app. split_and!; [exact He1| |];
        (eapply Forall_impl; [eassumption|]);
        intros [] He; try contradiction; exact I. }
  destruct b.
  { injection Hbody as <- <-. split; reflexivity. }
  clear Hbody.
  destruct (matching_run_dir_body_not_matching (matching_run_dir_fuel 1)
              p opts sfc w index w1 last_run w2 w3 H1 H2 H3) as [Hret Heq].
  destruct (Hret r w' Hrun) as [[parameters H4] Hsfc].
  rewrite (Heq parameters H4 Hsfc), Hc in Hrun.
  change (String.eqb "and" "or") with false in Hrun.
  change (String.eqb "and" "and") with true in Hrun. cbv iota in Hrun.
  apply bind_inr in Hrun as [r1 [w5 [Hr1 Hrun]]].
  apply bind_inr in Hrun as [r2 [w6 [Hr2 Hrun]]].
  injection Hrun as <- <-.
  rewrite (matching_run_dir_fuel_or 0) in Hr1, Hr2 by reflexivity.
  exists r1, w5. split; assumption.
Qed.

(** A call of [matching_run_dir] that returns (for an 'or' or an 'and'
    target) returns a run directory of the spinup chain of the
    parameters, and in the world the call leaves this directory is the
    last run of the chain, with a readable job. *)
Theorem matching_run_dir_returns_last_run p opts sfc w r w' :
  combination opts = "or" \/ combination opts = "and" ->
  matching_run_dir p opts sfc w = (inr r, w') ->
  exists index w1 rd,
    spinup_dir p true w = (inr index, w1) /\
    r = Some rd /\ rd.1 = Spinup index /\
    last_run_dir (Spinup index) w' = (inr (Some rd), w').
Proof.
  intros [Hc|Hc] Hrun; [exact (matching_run_dir_or_last _ _ _ _ _ _ Hc Hrun)|].
  destruct (matching_run_dir_and_inr _ _ _ _ _ _ Hc Hrun)
    as (index & w1 & last_run & w2 & b & w3 & H1 & H2 & H3 & _ & Hb).
  exists index, w1. destruct b.
  - destruct Hb as [-> ->].
    destruct (matching_run_dir_last_matching _ _ _ _ _ _ H2 H3)
      as (rd & -> & Hrd & Hlast).
    exists rd. auto.
  - destruct Hb as (r1 & w5 & _ & Hr2).
    apply matching_run_dir_or_last in Hr2
      as (index' & w1' & rd & H1' & -> & Hrd & Hlast); [|reflexivity].
    injection H1' as <- _.
    exists rd. auto.
Qed.

Lemma continues_with_positive_years_or p opts sfc w r w' :
  combination opts = "or" ->
  matching_run_dir p opts sfc w = (inr r, w') ->
  exists evs, trace w' = trace w ++ evs /\
    Forall (fun e =>
              match e with
              | EvStartRun _ req =>
                  req_tracer_input_dir req <> None -> 0 < req_years req
              | EvRemoveRun _ => False
              | _ => True
              end) evs.
Proof.
  intros Hc Hrun.
  destruct (matching_run_dir_or_inr _ _ _ _ _ _ Hc Hrun)
    as (index & w1 & last_run & w2 & b & w3 & _ & _ & _ & _
        & (found & Hfound & Hlookup) & Hb).
  assert (Hfound' : Forall (fun e =>
              match e with
              | EvStartRun _ req =>
                  req_tracer_input_dir req <> None -> 0 < req_years req
              | EvRemoveRun _ => False
              | _ => True
              end) found).
  { eapply Forall_impl; [exact Hlookup|]. intros [] He; try contradiction; exact I. }
  destruct b.
  - destruct Hb as [_ ->]. exists found. auto.
  - destruct Hb as (parameters & last_years & tcf & j & _ & _ & Hpos & _ & _ & _
                    & _ & _ & Htrace).
    eexists. split; [rewrite Htrace, Hfound, <- app_assoc; reflexivity|].
    rewrite !Forall_app. split; [exact Hfound'|]. split.
    + destruct last_run; repeat constructor.
    + constructor; [exact I|].
      constructor; [simpl; intros Hsome; specialize (Hpos Hsome); lia|].
      constructor; [exact I | constructor].
Qed.

(** Whenever [matching_run_dir] starts a run that continues another one
    (a job with a tracer input directory), it asks for a positive number
    of years: the years still missing.  It never removes a run. *)
Theorem matching_run_dir_continues_with_positive_years p opts sfc w r w' :
  combination opts = "or" \/ combination opts = "and" ->
  matching_run_dir p opts sfc w = (inr r, w') ->
  exists evs, trace w' = trace w ++ evs /\
    Forall (fun e =>
              match e with
              | EvStartRun _ req =>
                  req_tracer_input_dir req <> None -> 0 < req_years req
              | EvRemoveRun _ => False
              | _ => True
              end) evs.
Proof.
  intros [Hc|Hc] Hrun;
    [exact (continues_with_positive_years_or _ _ _ _ _ _ Hc Hrun)|].
  destruct (matching_run_dir_and_inr _ _ _ _ _ _ Hc Hrun)
    as (index & w1 & last_run & w2 & b & w3 & _ & _ & _
        & (found & Hfound & Hlookup) & Hb).
  assert (Hfound' : Forall (fun e =>
              match e with
              | EvStartRun _ req =>
                  req_tracer_input_dir req <> None -> 0 < req_years req
              | EvRemoveRun _ => False
              | _ => True
              end) found).
  { eapply Forall_impl; [exact Hlookup|]. intros [] He; try contradiction; exact I. }
  destruct b.
  - destruct Hb as [_ ->]. exists found. auto.
  - destruct Hb as (r1 & w5 & Hr1 & Hr2).
    apply continues_with_positive_years_or in Hr1 as (evs1 & Ht1 & He1);
      [|reflexivity].
    apply continues_with_positive_years_or in Hr2 as (evs2 & Ht2 & He2);
      [|reflexivity].
    exists (found ++ match last_run with
                     | Some d => [EvWait (RunPath d)]
                     | None => []
                     end ++ evs1 ++ evs2).
    split.
    + rewrite Ht2, Ht1. destruct last_run; simpl; rewrite Hfound, <- !app_assoc;
        reflexivity.
    + rewrite !Forall_app. split_and!; try assumption.
      destruct last_run; repeat constructor.
Qed.

Lemma is_run_matching_options_unknown rd opts :
  combination opts <> "or" -> combination opts <> "and" ->
  steps true warning_event (fun b => b = false) (is_run_matching_options rd opts).
Proof.
  intros Hor Hand. unfold is_run_matching_options.
  destruct rd as [rd|]; [|apply steps_ret; reflexivity].
  sbind as run_years; [steps_by get_total_years_steps|].
  sbind as run_tolerance; [steps_by get_real_tolerance_steps|].
  destruct (String.eqb_spec (combination opts) "and") as [E|_]; [contradiction|].
  destruct (String.eqb_spec (combination opts) "or") as [E|_]; [contradiction|].
  apply steps_raise.
Qed.

Lemma matching_run_dir_body_unknown self p opts sfc :
  combination opts <> "or" -> combination opts <> "and" ->
  steps true (fun e => lookup_event e \/ exists out, e = EvWait out)
    (fun _ => False) (matching_run_dir_body self p opts sfc).
Proof.
  intros Hor Hand. unfold matching_run_dir_body.
  sbind as index.
  { eapply steps_weaken; [| | |apply spinup_dir_steps]; auto. }
  sbind as last_run.
  { eapply steps_weaken; [| | |apply last_run_dir_steps]; auto.
    intros [] He; try contradiction; left; exact I. }
  eapply (steps_bind _ _ (fun b => b = false)).
  { eapply steps_weaken; [| | |apply (is_run_matching_options_unknown _ _ Hor Hand)];
      auto.
    intros [] He; try contradiction; left; exact I. }
  intros b ->.
  sbind as parameters.
  { eapply steps_weaken; [| | |apply loadtxt_parameters_steps]; auto.
    intros e []. }
  sbind as last_run'.
  { destruct (bool_decide (last_run = None) && sfc); [|apply steps_ret; exact I].
    sbind as closest.
    { eapply steps_weaken; [| | |apply closest_parameter_set_dir_steps]; auto.
      intros e []. }
    destruct closest as [closest|]; [|apply steps_raise].
    eapply steps_weaken; [| | |apply last_run_dir_steps]; auto.
    intros [] He; try contradiction; left; exact I. }
  sbind.
  { destruct last_run' as [d|]; [|apply steps_ret; exact I].
    eapply steps_weaken; [| | |apply wait_until_run_job_finished_steps]; auto.
    intros e ->. right. eauto. }
  cbv zeta.
  destruct (String.eqb_spec (combination opts) "or") as [E|_]; [contradiction|].
  destruct (String.eqb_spec (combination opts) "and") as [E|_]; [contradiction|].
  apply steps_raise.
Qed.

(** For a combination other than 'or' and 'and', [matching_run_dir] never
    returns a run directory: it ends in an exception without having made
    a run directory or started a job, and leaves the run directories as
    they were.  When the chain of the parameters has no run, no seed run
    is looked for and the parameter file can be read, the exception is
    the UnboundLocalError of the unassigned [run_dir]. *)
Theorem matching_run_dir_unknown_combination p opts sfc w r w' :
  combination opts <> "or" -> combination opts <> "and" ->
  matching_run_dir p opts sfc w = (r, w') ->
  (exists e, r = inl e) /\
  fs w' = fs w /\
  (exists evs, trace w' = trace w ++ evs /\
     Forall (fun e => ~ run_launch e) evs) /\
  (forall index w1 w2 parameters,
     spinup_dir p true w = (inr index, w1) ->
     last_run_dir (Spinup index) w1 = (inr None, w2) ->
     db w2 !! index = Some parameters ->
     sfc = false ->
     r = inl UnboundLocalError).
Proof.
  intros Hor Hand Hrun.
  destruct (matching_run_dir_body_unknown (matching_run_dir_fuel 1) p opts sfc
              Hor Hand _ _ _ Hrun) as [[Hfs (evs & Ht & Hevs)] Hpost].
  split.
  { destruct r as [e|a]; [eauto|]. destruct (Hpost a eq_refl). }
  split; [apply Hfs; reflexivity|]. split.
  { exists evs. split; [exact Ht|]. eapply Forall_impl; [exact Hevs|].
    intros e [He|[out ->]]; [|intros []].
    destruct e as [| |[c k]|[[c k]|]| |[c k]|]; simpl in *; tauto. }
  intros index w1 w2 parameters H1 H2 Hdb ->.
  change (matching_run_dir p opts false w)
    with (matching_run_dir_body (matching_run_dir_fuel 1) p opts false w) in Hrun.
  unfold matching_run_dir_body in Hrun.
  unfold bind at 1 in Hrun. rewrite H1 in Hrun.
  unfold bind at 1 in Hrun. rewrite H2 in Hrun.
  unfold bind at 1 in Hrun. simpl in Hrun.
  unfold bind at 1, loadtxt_parameters in Hrun.
  unfold bind at 1, get_world in Hrun. rewrite Hdb in Hrun.
  unfold bind at 1 in Hrun. simpl in Hrun.
  unfold bind at 1 in Hrun. simpl in Hrun.
  destruct (String.eqb_spec (combination opts) "or") as [E|_]; [contradiction|].
  destruct (String.eqb_spec (combination opts) "and") as [E|_]; [contradiction|].
  injection Hrun as <- _. reflexivity.
Qed.

Lemma closest_parameter_set_dir_world parameters no_spinup_okay w :
  (closest_parameter_set_dir parameters no_spinup_okay w).2 = w.
Proof.
  unfold closest_parameter_set_dir, bind, lift, get_world.
  destruct (database_parameter_entry parameters) as [e|entry]; [reflexivity|].
  simpl. destruct no_spinup_okay; [reflexivity|].
  destruct (db_closest_indices (db w) entry); reflexivity.
Qed.

(** Starting from the closest parameters never gets a first run going:
    when the chain of the parameters has no run and
    [start_from_closest_parameters] is set, the look for a seed run
    raises, whatever the database holds, so [matching_run_dir] ends in an
    exception and neither makes a run directory nor starts a job. *)
Theorem matching_run_dir_from_closest_never_starts p opts w index w1 w2 r w' :
  spinup_dir p true w = (inr index, w1) ->
  last_run_dir (Spinup index) w1 = (inr None, w2) ->
  matching_run_dir p opts true w = (r, w') ->
  (exists e, r = inl e) /\ fs w' = fs w /\ db w' = db w1 /\ trace w' = trace w2.
Proof.
  intros H1 H2 Hrun.
  destruct (spinup_dir_steps p true _ _ _ H1) as [[Hfs1 _] _].
  destruct (last_run_dir_steps (Spinup index) _ _ _ H2) as [[Hfs2 _] _].
  specialize (Hfs1 eq_refl). specialize (Hfs2 eq_refl).
  assert (Hdb2 : db w2 = db w1).
  { unfold last_run_dir, run_dirs, bind, get_world in H2. simpl in H2.
    destruct (fs w1 !! Spinup index) as [runs|]; simpl in H2.
    - destruct (0 <=? Z.of_nat (length (map _ (seq 0 (length runs)))) - 1).
      + pose proof (open_job_force_load_world
                      (Spinup index,
                       Z.to_nat (Z.of_nat (length (map (fun k => (Spinup index, k))
                                                     (seq 0 (length runs)))) - 1))
                      w1) as E.
        destruct (open_job_force_load _ w1) as [[e|j] u]; simpl in E; subst u;
          injection H2 as _ <-; reflexivity.
      + injection H2 as <-. reflexivity.
    - injection H2 as <-. reflexivity. }
  change (matching_run_dir p opts true w)
    with (matching_run_dir_body (matching_run_dir_fuel 1) p opts true w) in Hrun.
  unfold matching_run_dir_body in Hrun.
  unfold bind at 1 in Hrun. rewrite H1 in Hrun.
  unfold bind at 1 in Hrun. rewrite H2 in Hrun.
  unfold bind at 1 in Hrun. simpl in Hrun.
  unfold bind at 1 in Hrun.
  pose proof (loadtxt_parameters_world index w2) as E.
  destruct (loadtxt_parameters index w2) as [[e|parameters] u]; simpl in E; subst u.
  { injection Hrun as <- <-. split; [eauto|]. split; [|split]; congruence. }
  unfold bind at 1 2 in Hrun.
  pose proof (closest_parameter_set_dir_world parameters false w2) as E.
  destruct (closest_parameter_set_dir parameters false w2) as [[e|closest] u] eqn:Ec;
    simpl in E; subst u.
  - injection Hrun as <- <-. split; [eauto|]. split; [|split]; congruence.
  - pose proof (closest_parameter_set_dir_None _ _ _ _ Ec) as ->.
    injection Hrun as <- <-. split; [eauto|]. split; [|split]; congruence.
Qed.
Lemma check_parameters_inr parameters checked :
  check_parameters parameters = inr checked ->
  checked = parameters /\
  exists model_parameters total_concentration_factor,
    metos3d_model_parameters_dict parameters
      = inr (model_parameters, total_concentration_factor) /\
    length model_parameters = model_parameter_len /\
    (if total_concentration_factor_included_in_parameters
     then model_parameters ++ [total_concentration_factor]
     else model_parameters) = parameters.
Proof.
  unfold check_parameters. intros H.
  apply rbind_inr in H as [[model factor] [Hdict H]].
  apply rbind_inr in H as [[] [_ H]]. simpl in H.
  destruct (Nat.eqb_spec (length model) model_parameter_len) as [Hlen|];
    simpl in H; [|discriminate].
  destruct (any_lt model parameters_lower_bound); [discriminate|].
  destruct (any_lt parameters_upper_bound model); [discriminate|].
  injection H as <-. split; [reflexivity|].
  exists model, factor. split; [exact Hdict|]. split; [exact Hlen|].
  unfold metos3d_model_parameters_dict in Hdict.
  destruct total_concentration_factor_included_in_parameters.
  - apply rbind_inr in Hdict as [x [Hlast Hdict]].
    injection Hdict as <- <-. symmetry. apply last_or_raise_inr. exact Hlast.
  - injection Hdict as <- _. reflexivity.
Qed.

(** ** Perturbed parameters *)

(** Under accuracy order 2 a perturbed parameter never leaves its bounds:
    whenever the lower bound of the component is not above its upper
    bound, the component of the perturbed entry lies between them; the
    other components are those of the database entry. *)
Theorem perturb_order_2_within_bounds v h_i h_factor i p :
  MODEL_DERIVATIVE_ACCURACY_ORDER <> 1 ->
  perturb v h_i h_factor i = inr p ->
  exists lower upper value,
    dv_parameters_lower_bound v !! i = Some lower /\
    dv_parameters_upper_bound v !! i = Some upper /\
    pert_parameters p !! i = Some value /\
    (forall j, j <> i ->
       pert_parameters p !! j = dv_database_parameter_entry v !! j) /\
    match upper with
    | Finite u => (lower <= u)%Q -> (lower <= value)%Q /\ (value <= u)%Q
    | Infinity => (lower <= value)%Q
    end.
Proof.
  intros Horder Hp. unfold perturb in Hp.
  apply rbind_inr in Hp as [old [Hold Hp]].
  apply rbind_inr in Hp as [lower [Hlower Hp]].
  apply rbind_inr in Hp as [upper [Hupper Hp]].
  apply rbind_inr in Hp as [value [Hval Hp]].
  apply rbind_inr in Hp as [parameter [Hpar Hp]].
  injection Hp as <-. simpl.
  apply index_or_raise_inr in Hold, Hlower, Hupper.
  destruct (Z.eqb_spec MODEL_DERIVATIVE_ACCURACY_ORDER 1) as [E|_];
    [contradiction|].
  assert (Hi : (i < length (dv_database_parameter_entry v))%nat)
    by (eapply lookup_lt_Some; eauto).
  exists lower, upper, value. split; [exact Hlower|]. split; [exact Hupper|].
  split.
  { apply list_lookup_insert_eq. rewrite length_insert. exact Hi. }
  split.
  { intros j Hj. rewrite !list_lookup_insert_ne by congruence. reflexivity. }
  unfold violates_lower, violates_upper in Hval.
  destruct (Qltb (old + h_factor * h_i) lower) eqn:El.
  - injection Hval as <-. destruct upper as [u|].
    + intros Hlu. split; [apply Qle_refl | exact Hlu].
    + apply Qle_refl.
  - apply Qltb_false in El. destruct upper as [u|].
    + destruct (Qltb u (old + h_factor * h_i)) eqn:Eu; injection Hval as <-.
      * intros Hlu. split; [exact Hlu | apply Qle_refl].
      * apply Qltb_false in Eu. intros _. split; assumption.
    + injection Hval as <-. exact El.
Qed.

(** The entry that [_df] perturbs always carries the total concentration
    factor 1, whatever factor the parameters carry: it is the model
    parameters followed by 1.  When the factor is part of the
    parameters, the array of the caller is the entry itself and is
    overwritten with it. *)
Theorem init_values_total_concentration_factor parameters v :
  init_values parameters = inr v ->
  exists model_parameters total_concentration_factor,
    metos3d_model_parameters_dict parameters
      = inr (model_parameters, total_concentration_factor) /\
    dv_database_parameter_entry v = model_parameters ++ [1%Q] /\
    dv_parameters_len v = S model_parameter_len /\
    dv_parameters v
      = (if total_concentration_factor_included_in_parameters
         then model_parameters ++ [1%Q] else parameters) /\
    length (dv_parameters_lower_bound v) = dv_parameters_len v.
Proof.
  unfold init_values. intros H.
  apply rbind_inr in H as [entry [Hentry H]].
  apply rbind_inr in H as [[] [_ H]]. injection H as <-. simpl.
  unfold database_parameter_entry in Hentry.
  apply rbind_inr in Hentry as [checked [Hcheck Hentry]].
  apply check_parameters_inr in Hcheck
    as [_ (model & factor & Hdict & Hlen & Hparameters)].
  exists model, factor. split; [exact Hdict|].
  assert (Hentry' : entry = model ++ [if total_concentration_factor_included_in_parameters
                                     then factor else 1%Q]).
  { destruct total_concentration_factor_included_in_parameters;
      injection Hentry as <-; congruence. }
  subst entry.
  assert (Hset : forall x, set_last (model ++ [x]) 1%Q = model ++ [1%Q]).
  { intros x. unfold set_last. rewrite length_app. simpl.
    replace (Nat.pred (length model + 1)) with (length model + 0)%nat by lia.
    rewrite insert_app_r. reflexivity. }
  rewrite Hset. split; [reflexivity|]. split.
  { rewrite length_app. simpl. lia. }
  split; [reflexivity|].
  rewrite !length_app. simpl. unfold model_parameter_len in Hlen. lia.
Qed.

(** ** Values of the model *)

Lemma rfor_each_collect_list {A B} (g : A -> result B) (l : list A) acc out :
  rfor_each l (fun a values => get x <- g a; inr (values ++ [x])) acc = inr out ->
  exists xs, out = acc ++ xs /\ length xs = length l /\
    forall k a, l !! k = Some a -> exists x, xs !! k = Some x /\ g a = inr x.
Proof.
  revert acc. induction l as [|a l IH]; intros acc H; simpl in H.
  - injection H as <-. exists []. rewrite app_nil_r.
    split; [reflexivity|]. split; [reflexivity|]. intros k a Hk. discriminate.
  - apply rbind_inr in H as [acc' [Ha H]].
    apply rbind_inr in Ha as [x [Hx Ha]]. injection Ha as <-.
    apply IH in H as (xs & -> & Hlen & Hxs).
    exists (x :: xs). rewrite <- app_assoc. split; [reflexivity|].
    split; [simpl; lia|].
    intros [|k] a'; simpl.
    + intros [= <-]. eauto.
    + apply Hxs.
Qed.

(** [f_points] returns, for each of the two tracers, the trajectory of
    the matching spinup run of the parameters, written by a trajectory
    job of one year with total concentration factor 1 and interpolated
    at the map indices of the points of that tracer. *)
Theorem f_points_interpolates parameters points w f w' :
  f_points parameters points w = (inr f, w') ->
  length points = 2%nat /\ length f = 2%nat /\ METOS_TRACER_DIM = 2%nat /\
  exists model_parameters total_concentration_factor matching_run w1,
    check_parameters parameters = inr parameters /\
    metos3d_model_parameters_dict parameters
      = inr (model_parameters, total_concentration_factor) /\
    matching_run_dir (Parameters parameters) model_spinup_options
      MODEL_START_FROM_CLOSEST_PARAMETER_SET w = (inr matching_run, w1) /\
    fs w' = fs w1 /\
    forall t, (t < 2)%nat ->
      exists tracer_points interpolation_points,
        points !! t = Some tracer_points /\
        convert_to_map_indices tracer_points = inr interpolation_points /\
        f !! t
        = Some (interpolate
                  (load_trajectories_to_map_index_array
                     (metos3d_trajectory (fs w1)
                        (Build_job_request model_parameters 1 0 1 true
                           matching_run KindTrajectory)) t)
                  interpolation_points).
Proof.
  unfold f_points. intros H.
  destruct (Nat.eqb_spec (length points) 2) as [Hpoints|]; simpl in H;
    [|discriminate].
  apply bind_inr in H as [checked [u [Hcheck H]]].
  apply lift_inr in Hcheck as [Hcheck ->].
  apply bind_inr in H as [load [u [Hload H]]].
  apply lift_inr in Hload as [Hload ->].
  apply bind_inr in H as [f' [w2 [Hf H]]].
  destruct (Nat.eqb_spec (length f') 2) as [Hlen|]; simpl in H; [|discriminate].
  injection H as <- <-.
  unfold _f in Hf.
  apply bind_inr in Hf as [matching_run [w1 [Hrun Hf]]].
  apply bind_inr in Hf as [[model factor] [u [Hdict Hf]]].
  apply lift_inr in Hdict as [Hdict ->]. simpl in Hf.
  apply _get_trajectory_inr in Hf as (Hfs & Hdim & Hvalues).
  rewrite Hlen in Hdim.
  split; [exact Hpoints|]. split; [exact Hlen|]. split; [congruence|].
  exists model, factor, matching_run, w1.
  pose proof Hcheck as Hchecked.
  apply check_parameters_inr in Hchecked as [-> _].
  split; [exact Hcheck|]. split; [exact Hdict|]. split; [exact Hrun|].
  split; [exact Hfs|].
  unfold _get_load_trajectory_function_for_points in Hload.
  apply rbind_inr in Hload as [interpolation_points [Hconvert Hload]].
  injection Hload as <-.
  apply rfor_each_collect_list in Hconvert as (xs & -> & Hxs & Hconvert).
  simpl in *.
  intros t Ht.
  assert (Hpt : (t < length points)%nat) by lia.
  destruct (lookup_lt_is_Some_2 points t Hpt) as [tracer_points Htp].
  destruct (Hconvert t tracer_points Htp) as (indices & Hind & Hconv).
  exists tracer_points, indices. split; [exact Htp|]. split; [exact Hconv|].
  destruct (Hvalues t ltac:(lia)) as (a & Ha & Hl).
  rewrite Hind in Hl. injection Hl as <-. exact Ha.
Qed.
Lemma spinup_dir_rejects parameters create e w :
  check_parameters parameters = inl e ->
  spinup_dir (Parameters parameters) create w = (inl e, w).
Proof.
  intros Hcheck. unfold spinup_dir, parameter_set_dir, database_parameter_entry,
    bind, lift.
  rewrite Hcheck. reflexivity.
Qed.

Lemma _f_rejects load parameters opts e w :
  check_parameters parameters = inl e -> _f load parameters opts w = (inl e, w).
Proof.
  intros Hcheck. unfold _f. unfold bind at 1.
  change (matching_run_dir (Parameters parameters) opts
            MODEL_START_FROM_CLOSEST_PARAMETER_SET w)
    with (matching_run_dir_body (matching_run_dir_fuel 1) (Parameters parameters)
            opts MODEL_START_FROM_CLOSEST_PARAMETER_SET w).
  unfold matching_run_dir_body. unfold bind at 1.
  rewrite (spinup_dir_rejects _ _ _ _ Hcheck). reflexivity.
Qed.

(** Parameters that [check_parameters] rejects never reach the database:
    [_f], [f_boxes], [df_boxes] and, for two point arrays, [f_points] and
    [df_points] raise the error of [check_parameters] and leave the world
    as it was; so does [_df] once the mask and the accuracy order have
    been accepted. *)
Theorem invalid_parameters_change_nothing load parameters opts points
    time_dim_desired partial_derivatives_mask e w :
  check_parameters parameters = inl e ->
  _f load parameters opts w = (inl e, w) /\
  f_boxes parameters time_dim_desired w = (inl e, w) /\
  df_boxes parameters time_dim_desired partial_derivatives_mask w = (inl e, w) /\
  (length points = 2%nat ->
     f_points parameters points w = (inl e, w) /\
     df_points parameters points partial_derivatives_mask w = (inl e, w)) /\
  (forall mask h_factors,
     prepare_partial_derivatives_mask parameters partial_derivatives_mask
       = inr mask ->
     choose_h_factors = inr h_factors ->
     _df load parameters opts partial_derivatives_mask w = (inl e, w)).
Proof.
  intros Hcheck. split; [exact (_f_rejects _ _ _ _ _ Hcheck)|].
  split; [unfold f_boxes, bind, lift; rewrite Hcheck; reflexivity|].
  split; [unfold df_boxes, bind, lift; rewrite Hcheck; reflexivity|].
  split.
  - intros Hpoints. unfold f_points, df_points, bind, lift.
    rewrite Hpoints, Hcheck. split; reflexivity.
  - intros mask h_factors Hmask Hh. unfold _df.
    unfold bind at 1, lift at 1. rewrite Hmask.
    unfold bind at 1, lift at 1. rewrite Hh.
    unfold bind at 1, derivative_spinup_base. unfold bind at 1.
    unfold parameter_set_dir, database_parameter_entry, bind, lift.
    rewrite Hcheck. reflexivity.
Qed.

(** [f_boxes] returns, for each of the two tracers, the trajectory of the
    matching spinup run of the parameters, written by a trajectory job
    of one year with total concentration factor 1 and loaded as a map
    with the time dimension asked for. *)
Theorem f_boxes_loads parameters time_dim_desired w f w' :
  f_boxes parameters time_dim_desired w = (inr f, w') ->
  length f = 2%nat /\ METOS_TRACER_DIM = 2%nat /\
  exists model_parameters total_concentration_factor matching_run w1,
    check_parameters parameters = inr parameters /\
    metos3d_model_parameters_dict parameters
      = inr (model_parameters, total_concentration_factor) /\
    matching_run_dir (Parameters parameters) model_spinup_options
      MODEL_START_FROM_CLOSEST_PARAMETER_SET w = (inr matching_run, w1) /\
    fs w' = fs w1 /\
    forall t, (t < 2)%nat ->
      exists values,
        f !! t = Some values /\
        load_trajectories_to_map
          (metos3d_trajectory (fs w1)
             (Build_job_request model_parameters 1 0 1 true matching_run
                KindTrajectory))
          t time_dim_desired
        = inr values.
Proof.
  unfold f_boxes. intros H.
  apply bind_inr in H as [checked [u [Hcheck H]]].
  apply lift_inr in Hcheck as [Hcheck ->].
  apply bind_inr in H as [f' [w2 [Hf H]]].
  destruct (Nat.eqb_spec (length f') 2) as [Hlen|]; simpl in H; [|discriminate].
  injection H as <- <-.
  unfold _f in Hf.
  apply bind_inr in Hf as [matching_run [w1 [Hrun Hf]]].
  apply bind_inr in Hf as [[model factor] [u [Hdict Hf]]].
  apply lift_inr in Hdict as [Hdict ->]. simpl in Hf.
  apply _get_trajectory_inr in Hf as (Hfs & Hdim & Hvalues).
  rewrite Hlen in Hdim.
  split; [exact Hlen|]. split; [congruence|].
  exists model, factor, matching_run, w1.
  pose proof Hcheck as Hchecked.
  apply check_parameters_inr in Hchecked as [-> _].
  split; [exact Hcheck|]. split; [exact Hdict|]. split; [exact Hrun|].
  split; [exact Hfs|].
  intros t Ht. destruct (Hvalues t ltac:(lia)) as (a & Ha & Hl).
  exists a. split; [exact Ha | exact Hl].
Qed.

(** ** Partial derivative runs that are found again *)

Lemma bind_inr_eq {A B} (m : M A) (k : A -> M B) w a w1 :
  m w = (inr a, w1) -> bind m k w = k a w1.
Proof. intros H. unfold bind. rewrite H. reflexivity. Qed.

Lemma bind_inl_eq {A B} (m : M A) (k : A -> M B) w e w1 :
  m w = (inl e, w1) -> bind m k w = (inl e, w1).
Proof. intros H. unfold bind. rewrite H. reflexivity. Qed.

Lemma chain_runs_snoc w c runs r :
  chain_runs w c = runs ++ [r] -> fs w !! c = Some (runs ++ [r]).
Proof.
  unfold chain_runs. destruct (fs w !! c) as [l|]; simpl; [congruence|].
  destruct runs; discriminate.
Qed.

Lemma is_run_matching_options_or_eval c k years tolerance w :
  is_run_matching_options (Some (c, k))
    {| years := years; tolerance := tolerance; combination := "or" |} w
  = (match total_years_of (chain_runs w c) k 0 with
     | inr run_years =>
         match chain_runs w c !! k with
         | Some (Some j) => inr ((years <=? run_years) || Qleb (last_tolerance j) tolerance)
         | _ => inl OSError
         end
     | inl e => inl e
     end, w).
Proof.
  unfold is_run_matching_options, get_total_years, get_real_tolerance, bind.
  rewrite get_total_years_loop_eval.
  destruct (total_years_of (chain_runs w c) k 0) as [e|run_years]; [reflexivity|].
  rewrite open_job_force_load_eval. simpl.
  destruct (chain_runs w c !! k) as [[j|]|]; reflexivity.
Qed.

(** A partial derivative run is used again, and nothing is removed,
    created or started, when every run directory of its chain holds a
    job, the jobs together have the derivative spinup years (or the last
    one has reached the tolerance 0), and the spinup run its job started
    from matches the options of the derivative base.  The run directories
    are then as before, and the entry of the parameter is the last run of
    the chain. *)
Theorem partial_derivative_run_reused base v h_factors h_i i hfi st h_factor p
    jobs j w w1 :
  h_factors !! hfi = Some h_factor ->
  perturb v h_i h_factor i = inr p ->
  let chain :=
    PartialDerivative (base_parameter_set_dir base) i (Qsign (pert_h p)) in
  chain_runs w chain = map Some jobs ++ [Some j] ->
  MODEL_DERIVATIVE_SPINUP_YEARS
    <= fold_right Z.add 0 (map last_year (jobs ++ [j]))
  \/ (last_tolerance j <= 0)%Q ->
  is_run_matching_options (tracer_input_dir j) (base_spinup_options base) w
    = (inr true, w1) ->
  start_partial_derivative_run base v h_factors h_i i hfi st w
  = (inr {| dr_h := <[(i, hfi) := pert_h p]> (dr_h st);
            dr_parameters_for_derivative :=
              <[(i, hfi) := pert_parameters p]> (dr_parameters_for_derivative st);
            dr_run_dirs :=
              <[(i, hfi) := Some (chain, length jobs)]> (dr_run_dirs st);
            dr_spinup_run_dir := Some (tracer_input_dir j) |}, w1)
  /\ fs w1 = fs w
  /\ exists warnings, trace w1 = trace w ++ warnings /\ Forall warning_event warnings.
Proof.
  intros Hh Hp chain Hchain Hyears Hbase.
  pose proof (chain_runs_snoc _ _ _ _ Hchain) as Hfs.
  pose proof (last_run_dir_snoc _ _ _ _ Hfs) as Hlast. simpl in Hlast.
  rewrite length_map in Hlast.
  assert (Hlookup : chain_runs w chain !! length jobs = Some (Some j)).
  { rewrite Hchain, lookup_app_r by (rewrite length_map; lia).
    rewrite length_map, Nat.sub_diag. reflexivity. }
  assert (Hopen : open_job_force_load (chain, length jobs) w = (inr j, w)).
  { rewrite open_job_force_load_eval. simpl. rewrite Hlookup. reflexivity. }
  assert (Htotal : total_years_of (chain_runs w chain) (length jobs) 0
                   = inr (fold_right Z.add 0 (map last_year (jobs ++ [j])))).
  { rewrite (total_years_of_jobs _ _ _ (jobs ++ [j])).
    - reflexivity.
    - rewrite Hchain, map_app. simpl.
      rewrite take_ge; [reflexivity|].
      rewrite length_app, length_map. simpl. lia.
    - rewrite length_app. simpl. lia. }
  destruct (is_run_matching_options_steps _ _ _ _ _ Hbase) as [[Hkeep Hevs] _].
  split; [|split; [apply Hkeep; reflexivity | exact Hevs]].
  unfold start_partial_derivative_run.
  rewrite (bind_lift_inr _ _ h_factor) by (apply index_or_raise_inr; exact Hh).
  rewrite (bind_lift_inr _ _ p) by exact Hp.
  cbv zeta. fold chain.
  erewrite bind_inr_eq;
    [|unfold try_except_OSError; rewrite Hlast; reflexivity].
  erewrite bind_inr_eq;
    [|unfold bind, try_except_OSError; rewrite Hopen; reflexivity].
  erewrite bind_inr_eq;
    [|rewrite is_run_matching_options_or_eval, Htotal, Hlookup; reflexivity].
  assert (Hmatching :
            (MODEL_DERIVATIVE_SPINUP_YEARS
               <=? fold_right Z.add 0 (map last_year (jobs ++ [j])))
            || Qleb (last_tolerance j) 0 = true).
  { apply orb_true_iff. destruct Hyears as [Hy|Ht].
    - left. apply Z.leb_le. exact Hy.
    - right. apply Qleb_le. exact Ht. }
  rewrite Hmatching. simpl negb. cbv iota.
  erewrite bind_inr_eq;
    [|erewrite bind_inr_eq; [|reflexivity];
      erewrite bind_inr_eq; [|exact Hbase]; reflexivity].
  reflexivity.
Qed.

(** When the last run of a partial derivative chain is replaced, its
    content is removed but its directory stays and is still counted: the
    new run is made behind it.  The chain then holds an emptied run
    directory below its last run, and every later call for the same
    parameter and step fails: summing the years of the last run walks
    down to the emptied directory, whose job cannot be loaded, and this
    OSError is not caught.  Nothing is written by the failing call. *)
Theorem partial_derivative_run_replaced_then_fails base v h_factors h_i i hfi st
    h_factor p runs j w st1 w1 :
  h_factors !! hfi = Some h_factor ->
  perturb v h_i h_factor i = inr p ->
  let chain :=
    PartialDerivative (base_parameter_set_dir base) i (Qsign (pert_h p)) in
  chain_runs w chain = runs ++ [Some j] ->
  start_partial_derivative_run base v h_factors h_i i hfi st w = (inr st1, w1) ->
  dr_run_dirs st1 !! (i, hfi) <> Some (Some (chain, length runs)) ->
  (exists new_job,
     chain_runs w1 chain = runs ++ [None; Some new_job] /\
     dr_run_dirs st1 !! (i, hfi) = Some (Some (chain, S (length runs)))) /\
  forall st2,
    start_partial_derivative_run base v h_factors h_i i hfi st2 w1
    = (inl OSError, w1).
Proof.
  intros Hh Hp chain Hchain Hfirst Hreplaced.
  pose proof (chain_runs_snoc _ _ _ _ Hchain) as Hfs.
  pose proof (last_run_dir_snoc _ _ _ _ Hfs) as Hlast. simpl in Hlast.
  assert (Hshape : exists new_job,
             chain_runs w1 chain = runs ++ [None; Some new_job] /\
             dr_run_dirs st1 !! (i, hfi) = Some (Some (chain, S (length runs)))).
  { unfold start_partial_derivative_run in Hfirst.
    rewrite (bind_lift_inr _ _ h_factor) in Hfirst
      by (apply index_or_raise_inr; exact Hh).
    rewrite (bind_lift_inr _ _ p) in Hfirst by exact Hp.
    cbv zeta in Hfirst. fold chain in Hfirst.
    apply bind_inr in Hfirst as [run_dir [wa [Hrun Hfirst]]].
    unfold try_except_OSError in Hrun. rewrite Hlast in Hrun.
    injection Hrun as <- <-.
    apply bind_inr in Hfirst as [spinup_run_dir [wb [Hspinup Hfirst]]].
    assert (Hwb : wb = w).
    { apply bind_inr in Hspinup as [input [wb' [Hinput Hspinup]]].
      injection Hspinup as _ <-.
      unfold try_except_OSError, bind in Hinput.
      rewrite open_job_force_load_eval in Hinput. simpl in Hinput.
      destruct (chain_runs w chain !! length runs) as [[j'|]|];
        injection Hinput as _ <-; reflexivity. }
    subst wb.
    apply bind_inr in Hfirst as [matching [wc [Hmatching Hfirst]]].
    rewrite is_run_matching_options_or_eval in Hmatching.
    injection Hmatching as _ <-.
    apply bind_inr in Hfirst as [not_matching [wd [Hnot Hfirst]]].
    assert (Hwd : fs wd = fs w).
    { destruct (negb matching).
      - injection Hnot as _ <-. reflexivity.
      - apply bind_inr in Hnot as [input [wd1 [Hinput Hnot]]].
        assert (wd1 = w) as ->
          by (destruct spinup_run_dir; injection Hinput as _ <-; reflexivity).
        apply bind_inr in Hnot as [b [wd2 [Hb Hnot]]].
        injection Hnot as _ <-.
        destruct (is_run_matching_options_steps _ _ _ _ _ Hb) as [[Hkeep _] _].
        apply Hkeep. reflexivity. }
    apply bind_inr in Hfirst as [run_dir' [we [Hblock Hfirst]]].
    injection Hfirst as <- <-. simpl in Hreplaced |- *.
    rewrite lookup_insert_eq in Hreplaced. rewrite lookup_insert_eq.
    destruct not_matching.
    - apply bind_inr in Hblock as [[] [w5 [Hremove Hblock]]].
      unfold remove_run_content, bind, get_world, set_fs, emit in Hremove.
      simpl in Hremove. injection Hremove as <-.
      apply bind_inr in Hblock as [d' [w6 [Hmake Hblock]]].
      rewrite make_new_run_dir_eval in Hmake.
      assert (Hchain5 : forall tr,
                 chain_runs
                   {| db := db wd;
                      fs := alter (fun runs0 => <[length runs := None]> runs0) chain
                              (fs wd);
                      trace := tr |} chain = runs ++ [None]).
      { intros tr. unfold chain_runs. simpl. rewrite lookup_alter_eq, Hwd, Hfs.
        simpl. rewrite insert_app_r_alt by lia. rewrite Nat.sub_diag.
        reflexivity. }
      rewrite Hchain5 in Hmake. injection Hmake as <- <-.
      apply bind_inr in Hblock as [dict [w7 [Hdict Hblock]]].
      apply lift_inr in Hdict as [Hdict ->].
      apply bind_inr in Hblock as [[] [w8 [Hstart Hblock]]].
      injection Hblock as <- <-.
      rewrite start_run_eval in Hstart.
      2:{ unfold chain_runs. simpl. rewrite lookup_insert_eq. simpl.
          rewrite !length_app. simpl. lia. }
      injection Hstart as <-.
      eexists. split.
      + unfold chain_runs. simpl. rewrite lookup_alter_eq, lookup_insert_eq.
        simpl. rewrite insert_app_r_alt by lia. rewrite Nat.sub_diag.
        simpl. rewrite <- app_assoc. reflexivity.
      + rewrite length_app. simpl. do 3 f_equal. lia.
    - injection Hblock as <- <-. congruence. }
  split; [exact Hshape|].
  destruct Hshape as [new_job [Hchain1 _]]. intros st2.
  assert (Hfs1 : fs w1 !! chain = Some ((runs ++ [None]) ++ [Some new_job])).
  { apply chain_runs_snoc. rewrite Hchain1, <- app_assoc. reflexivity. }
  pose proof (last_run_dir_snoc _ _ _ _ Hfs1) as Hlast1. simpl in Hlast1.
  rewrite length_app in Hlast1. simpl in Hlast1.
  assert (Hopen : open_job_force_load (chain, (length runs + 1)%nat) w1
                  = (inr new_job, w1)).
  { rewrite open_job_force_load_eval. simpl. rewrite Hchain1.
    rewrite lookup_app_r by lia.
    replace (length runs + 1 - length runs)%nat with 1%nat by lia. reflexivity. }
  unfold start_partial_derivative_run.
  rewrite (bind_lift_inr _ _ h_factor) by (apply index_or_raise_inr; exact Hh).
  rewrite (bind_lift_inr _ _ p) by exact Hp.
  cbv zeta. fold chain.
  erewrite bind_inr_eq;
    [|unfold try_except_OSError; rewrite Hlast1; reflexivity].
  erewrite bind_inr_eq;
    [|unfold bind, try_except_OSError; rewrite Hopen; reflexivity].
  erewrite bind_inl_eq; [reflexivity|].
  rewrite is_run_matching_options_or_eval.
  rewrite (total_years_of_missing _ _ _ (length runs)); [reflexivity|lia|].
  intros j'. rewrite Hchain1, lookup_app_r by lia. rewrite Nat.sub_diag.
  discriminate.
Qed.

End Model.

(** * Properties of the model options *)

Lemma Init_ebind_inr {A B} (r : Init.error + A) (k : A -> Init.error + B) b :
  Init.ebind r k = inr b <-> exists a, r = inr a /\ k a = inr b.
Proof.
  destruct r as [e|a]; simpl; split.
  - discriminate.
  - intros (a & Ha & _). discriminate.
  - eauto.
  - intros (a' & [= <-] & Hk). exact Hk.
Qed.

Lemma set_default_options_union current_options default_options :
  Init.set_default_options (Some current_options) default_options
  = current_options ∪ default_options.
Proof.
  unfold Init.set_default_options.
  apply (map_fold_weak_ind
           (fun r m => r = current_options ∪ m)).
  - rewrite (right_id_L ∅ (∪)). reflexivity.
  - intros key value m r Hkey ->.
    rewrite lookup_union_l by exact Hkey.
    destruct (current_options !! key) as [given|] eqn:Hgiven.
    + apply map_eq. intros k. rewrite !lookup_union.
      destruct (decide (k = key)) as [->|Hne].
      * rewrite Hgiven, Hkey, lookup_insert_eq. reflexivity.
      * rewrite lookup_insert_ne by congruence. reflexivity.
    + rewrite insert_union_r by exact Hgiven. reflexivity.
Qed.

(** The spinup options a model is left with are the given ones completed
    by the defaults: a key that was given keeps its value, every other
    key of the defaults is taken over with its default value, and
    nothing else is added.  Their combination is 'and' or 'or'. *)
Theorem set_spinup_options_completes_given MODEL_DEFAULT_SPINUP_OPTIONS given
    spinup_options :
  Init.set_spinup_options MODEL_DEFAULT_SPINUP_OPTIONS given = inr spinup_options ->
  (spinup_options !! "combination" = Some (Init.OStr "and") \/
   spinup_options !! "combination" = Some (Init.OStr "or")) /\
  forall key,
    spinup_options !! key
    = match given with
      | Some current_options =>
          match current_options !! key with
          | Some value => Some value
          | None => MODEL_DEFAULT_SPINUP_OPTIONS !! key
          end
      | None => MODEL_DEFAULT_SPINUP_OPTIONS !! key
      end.
Proof.
  unfold Init.set_spinup_options. cbv zeta. intros H.
  destruct (Init.set_default_options given MODEL_DEFAULT_SPINUP_OPTIONS
              !! "combination") as [combination|] eqn:Hc; [|discriminate].
  destruct combination as [z|q|s]; simpl in H; try discriminate.
  destruct (String.eqb_spec s "and") as [->|_]; simpl in H.
  - injection H as <-. split; [left; exact Hc|].
    intros key. destruct given as [current_options|]; [|reflexivity].
    rewrite set_default_options_union, lookup_union.
    destruct (current_options !! key), (MODEL_DEFAULT_SPINUP_OPTIONS !! key);
      reflexivity.
  - destruct (String.eqb_spec s "or") as [->|_]; simpl in H; [|discriminate].
    injection H as <-. split; [right; exact Hc|].
    intros key. destruct given as [current_options|]; [|reflexivity].
    rewrite set_default_options_union, lookup_union.
    destruct (current_options !! key), (MODEL_DEFAULT_SPINUP_OPTIONS !! key);
      reflexivity.
Qed.


(** With at least one model parameter, the parameter tolerances that
    [__init__] accepts are scalars (length 1) or as long as a database
    entry; they are the given ones, followed, when a vector was given
    while the total concentration factor is not part of the parameters,
    by the tolerance of the total concentration factor: 0 for the
    relative and 10^-12 for the absolute tolerances. *)
Theorem set_tolerance_options_lengths model_parameter_len included given options :
  (0 < model_parameter_len)%nat ->
  Init.set_tolerance_options model_parameter_len included given = inr options ->
  (forall tolerance,
     Init.relative options = Some tolerance ->
     (length tolerance = 1%nat \/ length tolerance = S model_parameter_len) /\
     exists given_options given_tolerance,
       given = Some given_options /\
       Init.relative given_options = Some given_tolerance /\
       (tolerance = given_tolerance \/
        included = false /\ tolerance = given_tolerance ++ [0%Q])) /\
  (forall tolerance,
     Init.absolute options = Some tolerance ->
     (length tolerance = 1%nat \/ length tolerance = S model_parameter_len) /\
     exists given_options given_tolerance,
       given = Some given_options /\
       Init.absolute given_options = Some given_tolerance /\
       (tolerance = given_tolerance \/
        included = false /\
        tolerance = given_tolerance ++ [1 # 1000000000000])).
Proof.
  intros Hlen H. unfold Init.set_tolerance_options in H. cbv zeta in H.
  destruct given as [given|]; [|injection H as <-; split; intros t [=]].
  assert (Hone : forall (appended : Q) (tolerance out : list Q)
                   (e : Init.error),
            (if negb ((length tolerance =? 1)%nat
                      || (length tolerance
                          =? model_parameter_len + (if included then 1 else 0))%nat)
             then inl e
             else if (1 <? length tolerance)%nat && negb included
                  then inr (Some (tolerance ++ [appended]))
                  else inr (Some tolerance)) = inr (Some out) ->
            (length out = 1%nat \/ length out = S model_parameter_len) /\
            (out = tolerance \/ included = false /\ out = tolerance ++ [appended])).
  { intros appended tolerance out e Hout.
    destruct (Nat.eqb_spec (length tolerance) 1) as [H1|H1];
      destruct (Nat.eqb_spec (length tolerance)
                  (model_parameter_len + (if included then 1 else 0))) as [H2|H2];
      simpl in Hout; try discriminate.
    - destruct (Nat.ltb_spec 1 (length tolerance)); [lia|].
      simpl in Hout. injection Hout as <-. auto.
    - destruct (Nat.ltb_spec 1 (length tolerance)); [lia|].
      simpl in Hout. injection Hout as <-. auto.
    - destruct (Nat.ltb_spec 1 (length tolerance)); [|lia].
      destruct included; simpl in Hout; injection Hout as <-.
      + split; [right; lia | left; reflexivity].
      + split; [right; rewrite length_app; simpl; lia | right; auto]. }
  destruct (Init.relative given) as [r|] eqn:Hr;
    destruct (Init.absolute given) as [a|] eqn:Ha; simpl in H.
  - match type of H with
    | Init.ebind ?x _ = _ => destruct x as [e|[r'|]] eqn:Er; simpl in H;
                               try discriminate
    end.
    2:{ repeat match type of Er with
               | (if ?c then _ else _) = _ => destruct c; try discriminate
               end. }
    match type of H with
    | Init.ebind ?x _ = _ => destruct x as [e|[a'|]] eqn:Ea; simpl in H;
                               try discriminate
    end.
    2:{ repeat match type of Ea with
               | (if ?c then _ else _) = _ => destruct c; try discriminate
               end. }
    injection H as <-. simpl.
    apply Hone in Er as [Hr1 Hr2]. apply Hone in Ea as [Ha1 Ha2].
    split; intros t [= <-]; (split; [assumption|]); exists given; eauto.
  - match type of H with
    | Init.ebind ?x _ = _ => destruct x as [e|[r'|]] eqn:Er; simpl in H;
                               try discriminate
    end.
    2:{ repeat match type of Er with
               | (if ?c then _ else _) = _ => destruct c; try discriminate
               end. }
    injection H as <-. simpl. apply Hone in Er as [Hr1 Hr2].
    split; [|intros t [=]].
    intros t [= <-]. split; [assumption|]. exists given; eauto.
  - match type of H with
    | Init.ebind ?x _ = _ => destruct x as [e|[a'|]] eqn:Ea; simpl in H;
                               try discriminate
    end.
    2:{ repeat match type of Ea with
               | (if ?c then _ else _) = _ => destruct c; try discriminate
               end. }
    injection H as <-. simpl. apply Hone in Ea as [Ha1 Ha2].
    split; [intros t [=]|].
    intros t [= <-]. split; [assumption|]. exists given; eauto.
  - injection H as <-. simpl. split; intros t [=].
Qed.

Section JobSetupProperties.

Variable node_setup : Type.
Variable nodes_copy : node_setup -> Init.error + Init.setup_value node_setup.
Variable nodes_getitem :
  node_setup -> string -> Init.error + Init.setup_value node_setup.
Variable nodes_setitem :
  node_setup -> string -> Init.setup_value node_setup ->
  Init.error + Init.setup_value node_setup.

#[local] Abbreviation setup_value := (Init.setup_value node_setup).
#[local] Abbreviation SDict := (Init.SDict node_setup).
#[local] Abbreviation SNone := (Init.SNone node_setup).
#[local] Abbreviation use_default_job_setup :=
  (Init.use_default_job_setup node_setup nodes_copy nodes_setitem).
#[local] Abbreviation use_default_name :=
  (Init.use_default_name node_setup nodes_getitem nodes_setitem).
#[local] Abbreviation set_job_setup_collection :=
  (Init.set_job_setup_collection node_setup nodes_copy nodes_getitem nodes_setitem).
#[local] Abbreviation job_setup :=
  (Init.job_setup node_setup nodes_copy nodes_getitem nodes_setitem).
#[local] Abbreviation without_nodes_setup := (Init.without_nodes_setup node_setup).

Lemma use_default_job_setup_other kind from c c' k :
  use_default_job_setup kind from c = inr c' -> k <> kind -> c' !! k = c !! k.
Proof.
  unfold Init.use_default_job_setup. intros H Hk.
  destruct (c !! kind); [injection H as <-; reflexivity|].
  destruct (c !! from) as [source|]; simpl in H; [|discriminate].
  destruct (Init.copy _ _ source) as [e|setup]; simpl in H; [discriminate|].
  destruct (Init.setitem _ _ setup "nodes_setup" SNone) as [e|setup'];
    simpl in H; [discriminate|].
  injection H as <-. apply lookup_insert_ne. congruence.
Qed.

Lemma use_default_job_setup_new kind from c c' d :
  use_default_job_setup kind from c = inr c' ->
  c !! kind = None -> c !! from = Some (SDict d) ->
  exists v, c' !! kind = Some v /\ without_nodes_setup v.
Proof.
  unfold Init.use_default_job_setup. intros H Hkind Hfrom.
  rewrite Hkind, Hfrom in H. simpl in H. injection H as <-.
  eexists. split; [apply lookup_insert_eq|].
  eexists. split; [reflexivity | apply lookup_insert_eq].
Qed.

Lemma use_default_name_keeps default_name kind c c' k v :
  use_default_name default_name kind c = inr c' ->
  c !! k = Some v -> without_nodes_setup v ->
  exists v', c' !! k = Some v' /\ without_nodes_setup v'.
Proof.
  unfold Init.use_default_name. cbv zeta. intros H Hk Hv.
  destruct (c !! kind) as [setup|] eqn:Hkind; simpl in H.
  - destruct (Init.getitem _ _ setup "name") as [[]|named] eqn:Hname;
      simpl in H; try discriminate; [|injection H as <-; eauto].
    destruct (Init.setitem _ _ setup "name" default_name) as [e|setup'] eqn:Hset;
      simpl in H; [discriminate|].
    injection H as <-.
    destruct (decide (k = kind)) as [->|Hne].
    + rewrite lookup_insert_eq. eexists. split; [reflexivity|].
      rewrite Hkind in Hk. injection Hk as ->.
      destruct Hv as (d & -> & Hd). simpl in Hset. injection Hset as <-.
      eexists. split; [reflexivity|].
      rewrite lookup_insert_ne by discriminate. exact Hd.
    + rewrite lookup_insert_ne by congruence. eauto.
  - discriminate.
Qed.

Lemma job_setup_without_nodes_setup c kind v :
  c !! kind = Some v -> without_nodes_setup v ->
  job_setup c kind = inl Init.AttributeError.
Proof.
  intros Hkind (d & -> & Hd). unfold Init.job_setup. rewrite Hkind. simpl.
  rewrite Hd. reflexivity.
Qed.

(** A kind of job that was not passed to [__init__] gets a job setup
    whose [nodes_setup] is None, and [job_setup] cannot hand it out:
    copying the [nodes_setup] raises an AttributeError, which the
    [except KeyError] does not catch.  This holds for 'derivative' and
    'trajectory', whenever the job setups they are copied from are
    dictionaries. *)
Theorem job_setup_not_passed_raises given collection kind :
  set_job_setup_collection given = inr collection ->
  kind = "derivative" \/ kind = "trajectory" ->
  default ∅ given !! kind = None ->
  (forall from v,
     from = "spinup" \/ from = "derivative" ->
     default ∅ given !! from = Some v -> exists d, v = SDict d) ->
  (exists v, collection !! kind = Some v /\ without_nodes_setup v) /\
  job_setup collection kind = inl Init.AttributeError.
Proof.
  intros H Hkind Hnot Hdicts.
  assert (Hgoal : exists v, collection !! kind = Some v /\ without_nodes_setup v).
  2:{ split; [exact Hgoal|]. destruct Hgoal as (v & Hv & Hnodes).
      exact (job_setup_without_nodes_setup _ _ _ Hv Hnodes). }
  unfold Init.set_job_setup_collection in H. cbv zeta in H.
  set (arg := default ∅ given) in *.
  set (c0 := if existsb (fun kind => bool_decide (is_Some (arg !! kind)))
                  ["spinup"; "derivative"; "trajectory"]
             then arg else {[ "spinup" := SDict arg ]}) in *.
  set (c1 := match c0 !! "spinup" with
             | Some _ => c0
             | None => <["spinup" := SDict ∅]> c0
             end) in *.
  (* the collection before the defaults are filled in *)
  assert (Hc1 : (exists d, c1 !! "spinup" = Some (SDict d)) /\
                (forall k, k <> "spinup" ->
                   c1 !! k = None \/ c1 !! k = arg !! k)).
  { unfold c1, c0.
    destruct (existsb _ _) eqn:Hany.
    - destruct (arg !! "spinup") as [v|] eqn:Hs.
      + destruct (Hdicts "spinup" v (or_introl eq_refl) Hs) as [d ->].
        split; [eauto|]. auto.
      + split; [exists ∅; apply lookup_insert_eq|].
        intros k Hk. right. apply lookup_insert_ne. congruence.
    - rewrite lookup_singleton_eq. split; [eauto|].
      intros k Hk. left. apply lookup_singleton_ne. congruence. }
  destruct Hc1 as [[ds Hspinup] Hother].
  apply (fun H => proj1 (Init_ebind_inr _ _ _) H) in H.
  destruct H as (c2 & H2 & H).
  apply (fun H => proj1 (Init_ebind_inr _ _ _) H) in H.
  destruct H as (c3 & H3 & H).
  apply (fun H => proj1 (Init_ebind_inr _ _ _) H) in H.
  destruct H as (c4 & H4 & H).
  apply (fun H => proj1 (Init_ebind_inr _ _ _) H) in H.
  destruct H as (c5 & H5 & H6).
  assert (Hkept : forall v, c3 !! kind = Some v -> without_nodes_setup v ->
                    exists v', collection !! kind = Some v' /\
                               without_nodes_setup v').
  { intros v Hv Hnodes.
    destruct (use_default_name_keeps _ _ _ _ _ _ H4 Hv Hnodes) as (v4 & Hv4 & Hn4).
    destruct (use_default_name_keeps _ _ _ _ _ _ H5 Hv4 Hn4) as (v5 & Hv5 & Hn5).
    exact (use_default_name_keeps _ _ _ _ _ _ H6 Hv5 Hn5). }
  destruct Hkind as [-> | ->].
  - (* derivative: copied from spinup *)
    assert (Hd1 : c1 !! "derivative" = None).
    { destruct (Hother "derivative" ltac:(discriminate)) as [E|E];
        [exact E | rewrite E; exact Hnot]. }
    destruct (use_default_job_setup_new _ _ _ _ _ H2 Hd1 Hspinup)
      as (v2 & Hv2 & Hn2).
    apply (Hkept v2); [|exact Hn2].
    rewrite (use_default_job_setup_other _ _ _ _ "derivative" H3) by discriminate.
    exact Hv2.
  - (* trajectory: copied from derivative *)
    assert (Ht1 : c1 !! "trajectory" = None).
    { destruct (Hother "trajectory" ltac:(discriminate)) as [E|E];
        [exact E | rewrite E; exact Hnot]. }
    assert (Ht2 : c2 !! "trajectory" = None).
    { rewrite (use_default_job_setup_other _ _ _ _ "trajectory" H2)
        by discriminate. exact Ht1. }
    assert (Hd2 : exists d, c2 !! "derivative" = Some (SDict d)).
    { destruct (c1 !! "derivative") as [v|] eqn:Hd1.
      - assert (c2 = c1) as ->.
        { unfold Init.use_default_job_setup in H2. rewrite Hd1 in H2.
          injection H2 as <-. reflexivity. }
        destruct (Hother "derivative" ltac:(discriminate)) as [E|E];
          [congruence|].
        rewrite Hd1 in E. symmetry in E.
        destruct (Hdicts "derivative" v (or_intror eq_refl) E) as [d ->]. eauto.
      - destruct (use_default_job_setup_new _ _ _ _ _ H2 Hd1 Hspinup)
          as (v2 & Hv2 & (d & -> & _)). eauto. }
    destruct Hd2 as [dd Hd2].
    destruct (use_default_job_setup_new _ _ _ _ _ H3 Ht2 Hd2)
      as (v3 & Hv3 & Hn3).
    exact (Hkept v3 Hv3 Hn3).
Qed.

End JobSetupProperties.

(** * Concrete runs *)

#[local] Abbreviation ex_is_run_matching_options := (is_run_matching_options 10000).
#[local] Abbreviation ex_spinup_dir :=
  (spinup_dir false [0%Q; 0%Q] [10%Q; 10%Q] Example.db_index).
#[local] Abbreviation ex_matching_run_dir :=
  (matching_run_dir 10000 false [0%Q; 0%Q] [10%Q; 10%Q] Example.db_index
     Example.db_closest_index Example.db_closest_indices Example.metos3d).
#[local] Abbreviation ex_init_values :=
  (init_values false [0%Q; 0%Q] [10%Q; 10%Q] [1%Q; 2%Q]).
#[local] Abbreviation ex_df order :=
  (_df 10000 false [0%Q; 0%Q] [10%Q; 10%Q] [1%Q; 2%Q] Example.db_index
     Example.db_closest_index Example.db_closest_indices Example.metos3d
     (list Q) Example.metos3d_trajectory 2 false 1 (1 # 10) order Example.load).
#[local] Abbreviation ex_convert_to_map_indices :=
  (convert_to_map_indices (fun points => points) [[1]] 1 1).
#[local] Abbreviation ex_f_points :=
  (f_points 10000 false [0%Q; 0%Q] [10%Q; 10%Q] Example.db_index
     Example.db_closest_index Example.db_closest_indices Example.metos3d
     (list Q) Example.metos3d_trajectory 2 false
     {| years := 10; tolerance := 0; combination := "or" |}
     (fun points => points) [[1]] 1 1 (list Q * nat)
     (fun files tracer_index => (files, tracer_index))
     (fun data points => map (fun _ => fold_right Qplus 0%Q data.1) points)).
#[local] Abbreviation ex_df_points :=
  (df_points 10000 false [0%Q; 0%Q] [10%Q; 10%Q] [1%Q; 2%Q] Example.db_index
     Example.db_closest_index Example.db_closest_indices Example.metos3d
     (list Q) Example.metos3d_trajectory 2 false 1 (1 # 10) 1
     {| years := 10; tolerance := 0; combination := "or" |}
     (fun points => points) [[1]] 1 1 (list Q * nat)
     (fun files tracer_index => (files, tracer_index))
     (fun data points => map (fun _ => fold_right Qplus 0%Q data.1) points)).

Lemma is_run_matching_options_spec_witness :
  let w := Example.world_with_run 10000 (1 # 2) in
  let rd := (Spinup 0, 0%nat) in
  let opts := {| years := 50; tolerance := 1 # 10; combination := "and" |} in
  get_total_years (Some rd) w = (inr 10000, w) /\
  get_real_tolerance rd w = (inr (1 # 2), w) /\
  ex_is_run_matching_options (Some rd) opts w
  = (inr true,
     add_event w (EvWarn (MaxSpinupYearsWarning rd (1 # 10) 10000))).
Proof.
  cbv zeta.
  assert (HY : get_total_years (Some (Spinup 0, 0%nat))
                 (Example.world_with_run 10000 (1 # 2))
               = (inr 10000, Example.world_with_run 10000 (1 # 2)))
    by (vm_compute; reflexivity).
  assert (HT : get_real_tolerance (Spinup 0, 0%nat)
                 (Example.world_with_run 10000 (1 # 2))
               = (inr (1 # 2), Example.world_with_run 10000 (1 # 2)))
    by (vm_compute; reflexivity).
  split; [exact HY|]. split; [exact HT|].
  destruct (is_run_matching_options_spec 10000 _ _ _
              {| years := 50; tolerance := 1 # 10; combination := "and" |}
              _ HY HT) as [_ Hand].
  destruct (Hand eq_refl) as [b [w' [Heq [_ [Hcap _]]]]].
  destruct Hcap as [-> ->]; [split; [lia | reflexivity]|].
  exact Heq.
Defined.

Lemma matching_run_dir_idempotent_witness :
  let opts := {| years := 10; tolerance := 0; combination := "or" |} in
  let p := Parameters [3%Q; 4%Q] in
  (* the world a first call leaves *)
  let w := (ex_matching_run_dir p opts false Example.empty_world).2 in
  let rd := (Spinup 0, 0%nat) in
  ex_spinup_dir p true w = (inr 0%nat, w) /\
  last_run_dir (Spinup 0) w = (inr (Some rd), w) /\
  ex_is_run_matching_options (Some rd) opts w = (inr true, w) /\
  ex_matching_run_dir p opts false w = (inr (Some rd), w).
Proof.
  cbv zeta. set (w := (ex_matching_run_dir _ _ false Example.empty_world).2).
  assert (H1 : ex_spinup_dir (Parameters [3%Q; 4%Q]) true w = (inr 0%nat, w))
    by (vm_compute; reflexivity).
  assert (H2 : last_run_dir (Spinup 0) w = (inr (Some (Spinup 0, 0%nat)), w))
    by (vm_compute; reflexivity).
  assert (H3 : ex_is_run_matching_options (Some (Spinup 0, 0%nat))
                 {| years := 10; tolerance := 0; combination := "or" |} w
               = (inr true, w))
    by (vm_compute; reflexivity).
  split; [exact H1|]. split; [exact H2|]. split; [exact H3|].
  apply (matching_run_dir_idempotent 10000 false [0%Q; 0%Q] [10%Q; 10%Q]
           Example.db_index Example.db_closest_index Example.db_closest_indices
           Example.metos3d _ _ false w 0%nat w _ w w H1 H2 H3).
Defined.

Lemma matching_run_dir_and_as_two_or_witness :
  let opts := {| years := 20; tolerance := 1 # 100; combination := "and" |} in
  let p := ParameterSetDir 0 in
  let w := Example.world_with_run 10 (1 # 11) in
  let last := Some (Spinup 0, 0%nat) in
  combination opts = "and" /\
  ex_spinup_dir p true w = (inr 0%nat, w) /\
  last_run_dir (Spinup 0) w = (inr last, w) /\
  ex_is_run_matching_options last opts w = (inr false, w) /\
  exists r1 w5,
    ex_matching_run_dir p {| years := 20; tolerance := 0; combination := "or" |}
      false (add_event w (EvWait (RunPath (Spinup 0, 0%nat))))
    = (inr r1, w5) /\
    ex_matching_run_dir p
      {| years := 10000; tolerance := 1 # 100; combination := "or" |} false w5
    = (inr (Some (Spinup 0, 2%nat)), (ex_matching_run_dir p opts false w).2).
Proof.
  cbv zeta. set (w := Example.world_with_run 10 (1 # 11)).
  set (opts := {| years := 20; tolerance := 1 # 100; combination := "and" |}).
  assert (H1 : ex_spinup_dir (ParameterSetDir 0) true w = (inr 0%nat, w))
    by (vm_compute; reflexivity).
  assert (H2 : last_run_dir (Spinup 0) w = (inr (Some (Spinup 0, 0%nat)), w))
    by (vm_compute; reflexivity).
  assert (H3 : ex_is_run_matching_options (Some (Spinup 0, 0%nat)) opts w
               = (inr false, w))
    by (vm_compute; reflexivity).
  split; [reflexivity|]. split; [exact H1|]. split; [exact H2|].
  split; [exact H3|].
  destruct (matching_run_dir_and_as_two_or 10000 false [0%Q; 0%Q] [10%Q; 10%Q]
              Example.db_index Example.db_closest_index
              Example.db_closest_indices Example.metos3d
              (ParameterSetDir 0) opts false w 0%nat w _ w w eq_refl H1 H2 H3)
    as [Hret _].
  apply Hret. vm_compute. reflexivity.
Defined.

Lemma matching_run_dir_or_new_run_witness :
  let opts := {| years := 20; tolerance := 0; combination := "or" |} in
  let p := ParameterSetDir 0 in
  let w := Example.world_with_run 10 (1 # 11) in
  let last := Some (Spinup 0, 0%nat) in
  combination opts = "or" /\
  ex_spinup_dir p true w = (inr 0%nat, w) /\
  last_run_dir (Spinup 0) w = (inr last, w) /\
  ex_is_run_matching_options last opts w = (inr false, w) /\
  (ex_matching_run_dir p opts false w).1 = inr (Some (Spinup 0, 1%nat)) /\
  trace (ex_matching_run_dir p opts false w).2
  = [EvWait (RunPath (Spinup 0, 0%nat));
     EvMakeRunDir (Spinup 0, 1%nat);
     EvStartRun (RunPath (Spinup 0, 1%nat))
       {| req_model_parameters := [3%Q; 4%Q];
          req_years := 10;
          req_tolerance := 0;
          req_total_concentration_factor := 1;
          req_write_trajectory := false;
          req_tracer_input_dir := Some (Spinup 0, 0%nat);
          req_job_setup := KindSpinup |};
     EvWait (RunPath (Spinup 0, 1%nat))].
Proof.
  cbv zeta. set (w := Example.world_with_run 10 (1 # 11)).
  set (opts := {| years := 20; tolerance := 0; combination := "or" |}).
  assert (H1 : ex_spinup_dir (ParameterSetDir 0) true w = (inr 0%nat, w))
    by (vm_compute; reflexivity).
  assert (H2 : last_run_dir (Spinup 0) w = (inr (Some (Spinup 0, 0%nat)), w))
    by (vm_compute; reflexivity).
  assert (H3 : ex_is_run_matching_options (Some (Spinup 0, 0%nat)) opts w
               = (inr false, w))
    by (vm_compute; reflexivity).
  assert (Hrun : ex_matching_run_dir (ParameterSetDir 0) opts false w
                 = (inr (Some (Spinup 0, 1%nat)),
                    (ex_matching_run_dir (ParameterSetDir 0) opts false w).2))
    by (vm_compute; reflexivity).
  split; [reflexivity|]. split; [exact H1|]. split; [exact H2|].
  split; [exact H3|]. split.
  - rewrite Hrun. reflexivity.
  - destruct (matching_run_dir_or_new_run 10000 false [0%Q; 0%Q] [10%Q; 10%Q]
                Example.db_index Example.db_closest_index
                Example.db_closest_indices Example.metos3d
                (ParameterSetDir 0) opts false w 0%nat w _ w w _ _
                eq_refl H1 H2 H3 Hrun)
      as (parameters & last_years & tcf & Hdb & Hyears & [_ Htcf] & _ & Htrace).
    vm_compute in Hdb. injection Hdb as <-.
    vm_compute in Hyears. injection Hyears as <-.
    subst tcf. exact Htrace.
Defined.

Lemma perturb_bound_handling_witness :
  exists v p,
    ex_init_values [3%Q; 10%Q] = inr v /\
    dv_parameters_typical_values v !! 1%nat = Some 2%Q /\
    perturb 1 v (2 * (1 # 10)) 1 1 = inr p /\
    pert_parameters p !! 1%nat = Some (10 + 1 * (2 * (1 # 10)) * -1)%Q /\
    (pert_h p == - (1 * (2 * (1 # 10))))%Q.
Proof.
  eexists. eexists.
  split; [vm_compute; reflexivity|].
  split; [vm_compute; reflexivity|].
  split; [vm_compute; reflexivity|].
  match goal with
  | |- ?A !! 1%nat = _ /\ _ =>
      idtac
  end.
  destruct (perturb_bound_handling false [0%Q; 0%Q] [10%Q; 10%Q] [1%Q; 2%Q]
              (1 # 10) 1 [3%Q; 10%Q] _ 1%nat 2%Q 1%Q _
              ltac:(vm_compute; reflexivity) ltac:(vm_compute; reflexivity)
              ltac:(vm_compute; reflexivity))
    as (unperturbed & lower & upper & perturbed & Hu & _ & Hl & Hup & _ & Hp & _
        & Horder & _).
  vm_compute in Hu. injection Hu as <-.
  vm_compute in Hl. injection Hl as <-.
  vm_compute in Hup. injection Hup as <-.
  destruct (Horder eq_refl) as [Hflip _].
  destruct (Hflip ltac:(vm_compute; reflexivity)) as [-> Hh].
  split; [exact Hp | exact Hh].
Defined.

Lemma _df_validation_errors_witness :
  let opts := {| years := 10; tolerance := 0; combination := "or" |} in
  (3 <> 1 /\ 3 <> 2) /\
  length [true] <> length [3%Q; 4%Q] /\
  (exists e, ex_df 3 [3%Q; 4%Q] opts None Example.empty_world
             = (inl (ValueError e), Example.empty_world)) /\
  ex_df 1 [3%Q; 4%Q] opts (Some [true]) Example.empty_world
  = (inl (ValueError (MaskLength 1 2)), Example.empty_world).
Proof.
  cbv zeta. split; [split; discriminate|]. split; [discriminate|]. split.
  - destruct (_df_validation_errors 10000 false [0%Q; 0%Q] [10%Q; 10%Q]
                [1%Q; 2%Q] Example.db_index Example.db_closest_index
                Example.db_closest_indices Example.metos3d (list Q)
                Example.metos3d_trajectory 2 false 1 (1 # 10) 3 Example.load
                [3%Q; 4%Q]
                {| years := 10; tolerance := 0; combination := "or" |}
                None Example.empty_world) as [Horder _].
    apply Horder. split; discriminate.
  - destruct (_df_validation_errors 10000 false [0%Q; 0%Q] [10%Q; 10%Q]
                [1%Q; 2%Q] Example.db_index Example.db_closest_index
                Example.db_closest_indices Example.metos3d (list Q)
                Example.metos3d_trajectory 2 false 1 (1 # 10) 1 Example.load
                [3%Q; 4%Q]
                {| years := 10; tolerance := 0; combination := "or" |}
                (Some [true]) Example.empty_world) as [_ Hmask].
    apply (Hmask [true] eq_refl). discriminate.
Defined.

Lemma convert_to_map_indices_clamps_witness :
  ex_convert_to_map_indices [[(-5)%Q; 0%Q; 7%Q; 3%Q]]
  = inr [[(-5)%Q; 0%Q; 0%Q; 0%Q]] /\
  Forall (fun row => length row = 4%nat) [[(-5)%Q; 0%Q; 7%Q; 3%Q]].
Proof.
  split; [vm_compute; reflexivity|].
  apply (convert_to_map_indices_clamps (fun points => points) [[1]] 1 1
           [[(-5)%Q; 0%Q; 7%Q; 3%Q]] [[(-5)%Q; 0%Q; 0%Q; 0%Q]]).
  vm_compute. reflexivity.
Defined.

(** C8 as stated does not hold: with one linear interpolator, a point
    whose temporal index is -5 keeps it, whatever the number of time
    steps. *)
Lemma convert_to_map_indices_keeps_temporal_index :
  ex_convert_to_map_indices [[(-5)%Q; 0%Q; 0%Q; 0%Q]]
  = inr [[(-5)%Q; 0%Q; 0%Q; 0%Q]] /\
  forall t_dim,
    ~ (forall out,
         ex_convert_to_map_indices [[(-5)%Q; 0%Q; 0%Q; 0%Q]] = inr out ->
         Forall (temporal_index_in_range t_dim) out).
Proof.
  assert (H : ex_convert_to_map_indices [[(-5)%Q; 0%Q; 0%Q; 0%Q]]
              = inr [[(-5)%Q; 0%Q; 0%Q; 0%Q]]) by (vm_compute; reflexivity).
  split; [exact H|].
  intros t_dim Hall. specialize (Hall _ H).
  apply Forall_cons in Hall as [[Hneg _] _].
  revert Hneg. unfold Qle. simpl. lia.
Qed.

Lemma points_length_checked_first_witness :
  length [[[1%Q; 2%Q; 3%Q; 4%Q]]] <> 2%nat /\
  ex_f_points [99%Q] [[[1%Q; 2%Q; 3%Q; 4%Q]]] Example.empty_world
  = (inl (ValueError (PointsLength 1)), Example.empty_world) /\
  ex_df_points [99%Q] [[[1%Q; 2%Q; 3%Q; 4%Q]]] None Example.empty_world
  = (inl (ValueError (PointsLength 1)), Example.empty_world).
Proof.
  split; [discriminate|].
  apply (points_length_checked_first 10000 false [0%Q; 0%Q] [10%Q; 10%Q]
           [1%Q; 2%Q] Example.db_index Example.db_closest_index
           Example.db_closest_indices Example.metos3d (list Q)
           Example.metos3d_trajectory 2 false 1 (1 # 10) 1
           {| years := 10; tolerance := 0; combination := "or" |}
           (fun points => points) [[1]] 1 1 (list Q * nat)
           (fun files tracer_index => (files, tracer_index))
           (fun data points => map (fun _ => fold_right Qplus 0%Q data.1) points)
           [99%Q] [[[1%Q; 2%Q; 3%Q; 4%Q]]] None Example.empty_world).
  discriminate.
Defined.

Lemma _df_rows_follow_mask_witness :
  let opts := {| years := 10; tolerance := 0; combination := "or" |} in
  exists df w',
    ex_df 1 [3%Q; 10%Q] opts (Some [false; true]) Example.empty_world
    = (inr df, w') /\
    length [false; true] = length [3%Q; 10%Q] /\
    length df = 2%nat /\
    exists rows, df !! 0%nat = Some rows /\ length rows = 1%nat.
Proof.
  cbv zeta.
  destruct (ex_df 1 [3%Q; 10%Q]
              {| years := 10; tolerance := 0; combination := "or" |}
              (Some [false; true]) Example.empty_world) as [[e|df] w'] eqn:E;
    [vm_compute in E; discriminate|].
  exists df, w'. split; [reflexivity|].
  apply _df_rows_follow_mask in E
    as (Hlen & Hdf & mask & h_factors & base & v & runs & w1 & full
        & _ & _ & _ & _ & Hrows & _).
  split; [exact Hlen|]. split; [exact Hdf|].
  destruct (Hrows 0%nat ltac:(lia)) as (a & rows & _ & _ & Hr & Hl & _).
  exists rows. split; [exact Hr | exact Hl].
Defined.

Lemma _df_assembly_witness :
  let opts := {| years := 10; tolerance := 0; combination := "or" |} in
  (forall (files : list Q) (t : nat) (a : list Q),
     Example.load files t = inr a -> length a = 1%nat) /\
  exists df w',
    ex_df 2 [3%Q; 10%Q] opts None Example.empty_world = (inr df, w') /\
    (exists d, In (EvWait (RunPath d)) (trace w')) /\
    exists rows row,
      df !! 0%nat = Some rows /\ rows !! 1%nat = Some row /\ length row = 1%nat.
Proof.
  cbv zeta.
  assert (Hshape : forall (files : list Q) (t : nat) (a : list Q),
             Example.load files t = inr a -> length a = 1%nat).
  { intros files t a [= <-]. reflexivity. }
  split; [exact Hshape|].
  destruct (ex_df 2 [3%Q; 10%Q]
              {| years := 10; tolerance := 0; combination := "or" |}
              None Example.empty_world) as [[e|df] w'] eqn:E;
    [vm_compute in E; discriminate|].
  exists df, w'. split; [reflexivity|].
  apply (_df_assembly) with (shape := fun _ => 1%nat) in E; [|exact Hshape].
  destruct E
    as (mask & h_factors & base & w0 & v & runs & w1
        & Hmask & Hfactors & _ & _ & _ & _ & Hassembled & _ & Hrows).
  vm_compute in Hmask. injection Hmask as <-.
  vm_compute in Hfactors. injection Hfactors as <-.
  split.
  - destruct Hassembled as (assembled & Htrace & _ & Hwaits).
    destruct (Hwaits 0%nat 0%nat 0%nat eq_refl ltac:(simpl; lia))
      as (d & _ & Hin).
    exists d. rewrite Htrace. apply in_or_app. right. exact Hin.
  - destruct (Hrows 0%nat 1%nat 1%nat ltac:(lia) eq_refl)
      as (_ & rows & row & Hr & Hj & Hl & _).
    exists rows, row. split; [exact Hr|]. split; [exact Hj | exact Hl].
Defined.

Lemma closest_parameter_set_dir_subscripts_method_witness :
  let w := Example.world_with_run 10 (1 # 11) in
  database_parameter_entry false [0%Q; 0%Q] [10%Q; 10%Q] [3%Q; 4%Q]
  = inr [3%Q; 4%Q; 1%Q] /\
  Example.db_closest_indices (db w) [3%Q; 4%Q; 1%Q] <> [] /\
  closest_parameter_set_dir false [0%Q; 0%Q] [10%Q; 10%Q]
    Example.db_closest_index Example.db_closest_indices [3%Q; 4%Q] false w
  = (inl TypeError, w).
Proof.
  cbv zeta. split; [reflexivity|]. split; [discriminate|].
  apply (closest_parameter_set_dir_subscripts_method false
           [0%Q; 0%Q] [10%Q; 10%Q]
           Example.db_closest_index Example.db_closest_indices
           [3%Q; 4%Q] [3%Q; 4%Q; 1%Q]); [reflexivity | discriminate].
Defined.

Lemma _df_mask_without_True_witness :
  let opts := {| years := 10; tolerance := 0; combination := "or" |} in
  Forall (fun b : bool => b = false) [false; false] /\
  (0 < 2)%nat /\
  forall df w',
    ex_df 1 [3%Q; 10%Q] opts (Some [false; false]) Example.empty_world
    <> (inr df, w').
Proof.
  cbv zeta.
  assert (Hall : Forall (fun b : bool => b = false) [false; false])
    by (repeat constructor).
  split; [exact Hall|]. split; [lia|].
  intros df w'. apply _df_mask_without_True; [exact Hall | lia].
Defined.

(** C10, at a mask without a True component: for the valid parameters
    (3, 10), two tracers and the mask (False, False), which has the
    length of the parameters, every per-tracer array should have no
    leading entry.  Instead [_df] spins up the base run and then raises
    the TypeError of "apply partial_derivatives_mask": no
    [df[tracer_index]] was allocated, since that is done in the loop over
    the masked parameters only. *)
Theorem _df_mask_all_False_raises :
  let opts := {| years := 10; tolerance := 0; combination := "or" |} in
  length [false; false] = length [3%Q; 10%Q] /\
  count_true [false; false] = 0%nat /\
  check_parameters false [0%Q; 0%Q] [10%Q; 10%Q] [3%Q; 10%Q] = inr [3%Q; 10%Q] /\
  (ex_df 1 [3%Q; 10%Q] opts (Some [false; false]) Example.empty_world).1
  = inl TypeError.
Proof.
  cbv zeta. split; [reflexivity|]. split; [reflexivity|].
  split; vm_compute; reflexivity.
Qed.

(** With a step size of 0 the perturbed run is the base run and the
    step is 0: every quotient is 0 / 0, [_df] returns rows of [nan], and
    [df_points] fails its assertion on them. *)
Lemma _df_step_size_0 :
  let opts := {| years := 10; tolerance := 0; combination := "or" |} in
  (_df 10000 false [0%Q; 0%Q] [10%Q; 10%Q] [1%Q; 2%Q] Example.db_index
     Example.db_closest_index Example.db_closest_indices Example.metos3d
     (list Q) Example.metos3d_trajectory 2 false 1 0 1 Example.load
     [3%Q; 10%Q] opts (Some [true; false]) Example.empty_world).1
  = inr [[[NaN]]; [[NaN]]] /\
  (df_points 10000 false [0%Q; 0%Q] [10%Q; 10%Q] [1%Q; 2%Q] Example.db_index
     Example.db_closest_index Example.db_closest_indices Example.metos3d
     (list Q) Example.metos3d_trajectory 2 false 1 0 1 opts
     (fun points => points) [[1]] 1 1 (list Q * nat)
     (fun files tracer_index => (files, tracer_index))
     (fun data points => map (fun _ => fold_right Qplus 0%Q data.1) points)
     [3%Q; 10%Q] [[[0%Q; 0%Q; 0%Q; 0%Q]]; [[0%Q; 0%Q; 0%Q; 0%Q]]]
     (Some [true; false]) Example.empty_world).1
  = inl AssertionError.
Proof.
  cbv zeta. split; vm_compute; reflexivity.
Qed.

(** ** Concrete runs of the model options and the run directories *)

#[local] Abbreviation ex_check_parameters :=
  (check_parameters false [0%Q; 0%Q] [10%Q; 10%Q]).
#[local] Abbreviation ex_parameter_set_dir :=
  (parameter_set_dir false [0%Q; 0%Q] [10%Q; 10%Q] Example.db_index).
#[local] Abbreviation ex_f_boxes :=
  (f_boxes 10000 false [0%Q; 0%Q] [10%Q; 10%Q] Example.db_index
     Example.db_closest_index Example.db_closest_indices Example.metos3d
     (list Q) Example.metos3d_trajectory 2 false
     {| years := 10; tolerance := 0; combination := "or" |}
     (fun files tracer_index time_dim_desired =>
        inr (map (fun x => (inject_Z (Z.of_nat (S tracer_index)) * x)%Q) files))).
#[local] Abbreviation ex_start_partial_derivative_run :=
  (start_partial_derivative_run 10000 Example.metos3d 1 2).

Lemma check_parameters_accepts_witness :
  length [10%Q; 10%Q] = length [0%Q; 0%Q] /\
  ex_check_parameters [3%Q; 4%Q] = inr [3%Q; 4%Q] /\
  forall i x,
    [3%Q; 4%Q] !! i = Some x ->
    exists lower upper,
      [0%Q; 0%Q] !! i = Some lower /\ [10%Q; 10%Q] !! i = Some upper /\
      (lower <= x)%Q /\ (x <= upper)%Q.
Proof.
  split; [reflexivity|].
  assert (H : ex_check_parameters [3%Q; 4%Q] = inr [3%Q; 4%Q])
    by (vm_compute; reflexivity).
  split; [exact H|].
  destruct (check_parameters_accepts false [0%Q; 0%Q] [10%Q; 10%Q]
              [3%Q; 4%Q] [3%Q; 4%Q] eq_refl) as [Haccepts _].
  destruct (Haccepts H) as (_ & model & factor & Hdict & _ & _ & Hbounds).
  vm_compute in Hdict. injection Hdict as <- _. exact Hbounds.
Defined.

Lemma database_parameter_entry_round_trip_witness :
  database_parameter_entry false [0%Q; 0%Q] [10%Q; 10%Q] [3%Q; 4%Q]
  = inr [3%Q; 4%Q; 1%Q] /\
  database_parameter_entry_to_metos3d_model_parameters_dict [3%Q; 4%Q; 1%Q]
  = inr ([3%Q; 4%Q], 1%Q).
Proof.
  assert (H : database_parameter_entry false [0%Q; 0%Q] [10%Q; 10%Q] [3%Q; 4%Q]
              = inr [3%Q; 4%Q; 1%Q]) by (vm_compute; reflexivity).
  split; [exact H|].
  destruct (database_parameter_entry_round_trip false [0%Q; 0%Q] [10%Q; 10%Q]
              [3%Q; 4%Q] [3%Q; 4%Q; 1%Q] H)
    as (model & factor & Hdict & _ & _ & Hback).
  vm_compute in Hdict. injection Hdict as <- <-. exact Hback.
Defined.

Lemma parameter_set_dir_creates_witness :
  let w' := (ex_parameter_set_dir [3%Q; 4%Q] true Example.empty_world).2 in
  ex_parameter_set_dir [3%Q; 4%Q] true Example.empty_world
  = (inr (Some 0%nat), w') /\
  loadtxt_parameters 0 w' = (inr [3%Q; 4%Q; 1%Q], w').
Proof.
  cbv zeta.
  set (w' := (ex_parameter_set_dir [3%Q; 4%Q] true Example.empty_world).2).
  assert (H : ex_parameter_set_dir [3%Q; 4%Q] true Example.empty_world
              = (inr (Some 0%nat), w')) by (vm_compute; reflexivity).
  split; [exact H|].
  destruct (parameter_set_dir_creates false [0%Q; 0%Q] [10%Q; 10%Q]
              Example.db_index [3%Q; 4%Q] true Example.empty_world _ _ H)
    as (entry & Hentry & _ & Hcreated).
  vm_compute in Hentry. injection Hentry as <-.
  simpl in Hcreated. destruct Hcreated as (_ & _ & _ & Hload). exact Hload.
Defined.

Lemma new_run_is_last_run_witness :
  let w := Example.world_with_run 10 (1 # 11) in
  let w1 := (make_new_run_dir (Spinup 0) w).2 in
  let w2 := (start_run Example.metos3d [3%Q; 4%Q] (RunPath (Spinup 0, 1%nat))
               5 0 KindSpinup false 1 (Some (Spinup 0, 0%nat)) true w1).2 in
  make_new_run_dir (Spinup 0) w = (inr (Spinup 0, 1%nat), w1) /\
  start_run Example.metos3d [3%Q; 4%Q] (RunPath (Spinup 0, 1%nat))
    5 0 KindSpinup false 1 (Some (Spinup 0, 0%nat)) true w1 = (inr tt, w2) /\
  last_run_dir (Spinup 0) w1 = (inl OSError, w1) /\
  last_run_dir (Spinup 0) w2 = (inr (Some (Spinup 0, 1%nat)), w2).
Proof.
  cbv zeta. set (w := Example.world_with_run 10 (1 # 11)).
  set (w1 := (make_new_run_dir (Spinup 0) w).2).
  set (w2 := (start_run Example.metos3d [3%Q; 4%Q] (RunPath (Spinup 0, 1%nat))
                5 0 KindSpinup false 1 (Some (Spinup 0, 0%nat)) true w1).2).
  assert (H1 : make_new_run_dir (Spinup 0) w = (inr (Spinup 0, 1%nat), w1))
    by (vm_compute; reflexivity).
  assert (H2 : start_run Example.metos3d [3%Q; 4%Q] (RunPath (Spinup 0, 1%nat))
                 5 0 KindSpinup false 1 (Some (Spinup 0, 0%nat)) true w1
               = (inr tt, w2))
    by (vm_compute; reflexivity).
  split; [exact H1|]. split; [exact H2|].
  destruct (new_run_is_last_run Example.metos3d (Spinup 0) w _ w1 _ _ _ _ _ _ _ _
              w2 H1 H2) as (_ & Hempty & _ & _ & _ & Hlast & _).
  split; [exact Hempty | exact Hlast].
Defined.

Lemma get_total_years_sums_chain_witness :
  let w := Example.world_with_run 10 (1 # 11) in
  take 1 (chain_runs w (Spinup 0)) = map Some [Example.spinup_job 10 (1 # 11)] /\
  get_total_years (Some (Spinup 0, 0%nat)) w = (inr 10, w).
Proof.
  cbv zeta. set (w := Example.world_with_run 10 (1 # 11)).
  assert (H : take 1 (chain_runs w (Spinup 0))
              = map Some [Example.spinup_job 10 (1 # 11)])
    by (vm_compute; reflexivity).
  split; [exact H|].
  destruct (get_total_years_sums_chain (Spinup 0) 0 w) as [Hsum _].
  exact (Hsum [Example.spinup_job 10 (1 # 11)] H eq_refl).
Defined.

Lemma is_run_matching_options_monotone_witness :
  let w := Example.world_with_run 10000 (1 # 2) in
  let rd := Some (Spinup 0, 0%nat) in
  let opts := {| years := 50; tolerance := 1 # 10; combination := "and" |} in
  let opts' := {| years := 40; tolerance := 1 # 5; combination := "or" |} in
  (exists w1, ex_is_run_matching_options rd opts w = (inr true, w1)) /\
  exists w2, ex_is_run_matching_options rd opts' w = (inr true, w2).
Proof.
  cbv zeta. set (w := Example.world_with_run 10000 (1 # 2)).
  assert (H : ex_is_run_matching_options (Some (Spinup 0, 0%nat))
                {| years := 50; tolerance := 1 # 10; combination := "and" |} w
              = (inr true,
                 (ex_is_run_matching_options (Some (Spinup 0, 0%nat))
                    {| years := 50; tolerance := 1 # 10; combination := "and" |}
                    w).2))
    by (vm_compute; reflexivity).
  split; [eexists; exact H|].
  refine (is_run_matching_options_monotone 10000 (Some (Spinup 0, 0%nat))
            {| years := 50; tolerance := 1 # 10; combination := "and" |}
            {| years := 40; tolerance := 1 # 5; combination := "or" |} w _
            _ _ _ H).
  - simpl. lia.
  - unfold Qle. simpl. lia.
  - right. simpl. split; [reflexivity|]. split; [reflexivity | lia].
Defined.

Lemma matching_run_dir_only_adds_witness :
  let opts := {| years := 20; tolerance := 0; combination := "or" |} in
  let w := Example.world_with_run 10 (1 # 11) in
  let w' := (ex_matching_run_dir (ParameterSetDir 0) opts false w).2 in
  ex_matching_run_dir (ParameterSetDir 0) opts false w
  = (inr (Some (Spinup 0, 1%nat)), w') /\
  chain_runs w' (Spinup 0) !! 0%nat = Some (Some (Example.spinup_job 10 (1 # 11))).
Proof.
  cbv zeta. set (w := Example.world_with_run 10 (1 # 11)).
  set (opts := {| years := 20; tolerance := 0; combination := "or" |}).
  set (w' := (ex_matching_run_dir (ParameterSetDir 0) opts false w).2).
  assert (H : ex_matching_run_dir (ParameterSetDir 0) opts false w
              = (inr (Some (Spinup 0, 1%nat)), w'))
    by (vm_compute; reflexivity).
  split; [exact H|].
  destruct (matching_run_dir_only_adds 10000 false [0%Q; 0%Q] [10%Q; 10%Q]
              Example.db_index Example.db_closest_index
              Example.db_closest_indices Example.metos3d
              (ParameterSetDir 0) opts false w _ w' H) as [_ Hkept].
  apply Hkept. reflexivity.
Defined.

Lemma matching_run_dir_returns_last_run_witness :
  let opts := {| years := 20; tolerance := 0; combination := "or" |} in
  let w := Example.world_with_run 10 (1 # 11) in
  let w' := (ex_matching_run_dir (ParameterSetDir 0) opts false w).2 in
  combination opts = "or" /\
  ex_matching_run_dir (ParameterSetDir 0) opts false w
  = (inr (Some (Spinup 0, 1%nat)), w') /\
  last_run_dir (Spinup 0) w' = (inr (Some (Spinup 0, 1%nat)), w').
Proof.
  cbv zeta. set (w := Example.world_with_run 10 (1 # 11)).
  set (opts := {| years := 20; tolerance := 0; combination := "or" |}).
  set (w' := (ex_matching_run_dir (ParameterSetDir 0) opts false w).2).
  assert (H : ex_matching_run_dir (ParameterSetDir 0) opts false w
              = (inr (Some (Spinup 0, 1%nat)), w'))
    by (vm_compute; reflexivity).
  split; [reflexivity|]. split; [exact H|].
  destruct (matching_run_dir_returns_last_run 10000 false [0%Q; 0%Q]
              [10%Q; 10%Q] Example.db_index Example.db_closest_index
              Example.db_closest_indices Example.metos3d
              (ParameterSetDir 0) opts false w _ w' (or_introl eq_refl) H)
    as (index & w1 & rd & _ & Hrd & Hchain & Hlast).
  injection Hrd as <-. simpl in Hchain. injection Hchain as <-. exact Hlast.
Defined.

Lemma matching_run_dir_continues_with_positive_years_witness :
  let opts := {| years := 20; tolerance := 0; combination := "or" |} in
  let w := Example.world_with_run 10 (1 # 11) in
  let w' := (ex_matching_run_dir (ParameterSetDir 0) opts false w).2 in
  combination opts = "or" /\
  ex_matching_run_dir (ParameterSetDir 0) opts false w
  = (inr (Some (Spinup 0, 1%nat)), w') /\
  exists evs,
    trace w' = trace w ++ evs /\
    Forall (fun e => match e with
                     | EvStartRun _ req =>
                         req_tracer_input_dir req <> None -> 0 < req_years req
                     | EvRemoveRun _ => False
                     | _ => True
                     end) evs.
Proof.
  cbv zeta. set (w := Example.world_with_run 10 (1 # 11)).
  set (opts := {| years := 20; tolerance := 0; combination := "or" |}).
  set (w' := (ex_matching_run_dir (ParameterSetDir 0) opts false w).2).
  assert (H : ex_matching_run_dir (ParameterSetDir 0) opts false w
              = (inr (Some (Spinup 0, 1%nat)), w'))
    by (vm_compute; reflexivity).
  split; [reflexivity|]. split; [exact H|].
  exact (matching_run_dir_continues_with_positive_years 10000 false [0%Q; 0%Q]
           [10%Q; 10%Q] Example.db_index Example.db_closest_index
           Example.db_closest_indices Example.metos3d
           (ParameterSetDir 0) opts false w _ w' (or_introl eq_refl) H).
Defined.

Lemma matching_run_dir_unknown_combination_witness :
  let opts := {| years := 10; tolerance := 0; combination := "xor" |} in
  let p := Parameters [3%Q; 4%Q] in
  let w := Example.empty_world in
  (combination opts <> "or" /\ combination opts <> "and") /\
  (ex_matching_run_dir p opts false w).1 = inl UnboundLocalError /\
  fs (ex_matching_run_dir p opts false w).2 = fs w.
Proof.
  cbv zeta.
  set (opts := {| years := 10; tolerance := 0; combination := "xor" |}).
  set (p := Parameters [3%Q; 4%Q]).
  set (w1 := (ex_spinup_dir p true Example.empty_world).2).
  set (w2 := (last_run_dir (Spinup 0) w1).2).
  assert (Hor : combination opts <> "or") by discriminate.
  assert (Hand : combination opts <> "and") by discriminate.
  assert (H1 : ex_spinup_dir p true Example.empty_world = (inr 0%nat, w1))
    by (vm_compute; reflexivity).
  assert (H2 : last_run_dir (Spinup 0) w1 = (inr None, w2))
    by (vm_compute; reflexivity).
  assert (H3 : db w2 !! 0%nat = Some [3%Q; 4%Q; 1%Q])
    by (vm_compute; reflexivity).
  split; [split; assumption|].
  destruct (matching_run_dir_unknown_combination 10000 false [0%Q; 0%Q]
              [10%Q; 10%Q] Example.db_index Example.db_closest_index
              Example.db_closest_indices Example.metos3d
              p opts false Example.empty_world
              (ex_matching_run_dir p opts false Example.empty_world).1
              (ex_matching_run_dir p opts false Example.empty_world).2
              Hor Hand (surjective_pairing _))
    as (_ & Hfs & _ & Hunbound).
  split; [|exact Hfs].
  exact (Hunbound 0%nat w1 w2 _ H1 H2 H3 eq_refl).
Defined.

Lemma matching_run_dir_from_closest_never_starts_witness :
  let opts := {| years := 10; tolerance := 0; combination := "or" |} in
  let p := Parameters [3%Q; 4%Q] in
  let w := Example.empty_world in
  let w1 := (ex_spinup_dir p true w).2 in
  ex_spinup_dir p true w = (inr 0%nat, w1) /\
  last_run_dir (Spinup 0) w1 = (inr None, (last_run_dir (Spinup 0) w1).2) /\
  (exists e, (ex_matching_run_dir p opts true w).1 = inl e) /\
  fs (ex_matching_run_dir p opts true w).2 = fs w.
Proof.
  cbv zeta.
  set (opts := {| years := 10; tolerance := 0; combination := "or" |}).
  set (p := Parameters [3%Q; 4%Q]).
  set (w1 := (ex_spinup_dir p true Example.empty_world).2).
  set (w2 := (last_run_dir (Spinup 0) w1).2).
  assert (H1 : ex_spinup_dir p true Example.empty_world = (inr 0%nat, w1))
    by (vm_compute; reflexivity).
  assert (H2 : last_run_dir (Spinup 0) w1 = (inr None, w2))
    by (vm_compute; reflexivity).
  split; [exact H1|]. split; [exact H2|].
  destruct (matching_run_dir_from_closest_never_starts 10000 false [0%Q; 0%Q]
              [10%Q; 10%Q] Example.db_index Example.db_closest_index
              Example.db_closest_indices Example.metos3d
              p opts Example.empty_world 0%nat w1 w2
              (ex_matching_run_dir p opts true Example.empty_world).1
              (ex_matching_run_dir p opts true Example.empty_world).2
              H1 H2 (surjective_pairing _))
    as (Hraises & Hfs & _).
  split; [exact Hraises | exact Hfs].
Defined.

Lemma perturb_order_2_within_bounds_witness :
  exists v p value,
    ex_init_values [3%Q; 10%Q] = inr v /\
    2 <> 1 /\
    perturb 2 v (2 * (1 # 10)) 1 1 = inr p /\
    pert_parameters p !! 1%nat = Some value /\
    (0 <= value)%Q /\ (value <= 10)%Q.
Proof.
  destruct (ex_init_values [3%Q; 10%Q]) as [e|v] eqn:Hv;
    [vm_compute in Hv; discriminate|].
  vm_compute in Hv. injection Hv as <-.
  match goal with
  | |- exists v, _ => eexists
  end.
  destruct (perturb 2
              {| dv_database_parameter_entry := [3%Q; 10%Q; 1%Q];
                 dv_parameters := [3%Q; 10%Q];
                 dv_parameters_len := 3;
                 dv_parameters_lower_bound := [0%Q; 0%Q; 0%Q];
                 dv_parameters_upper_bound := [Finite 10; Finite 10; Infinity];
                 dv_parameters_typical_values := [1%Q; 2%Q; 1%Q] |}
              (2 * (1 # 10)) 1 1) as [e|p] eqn:Hp;
    [vm_compute in Hp; discriminate|].
  assert (Horder : 2 <> 1) by lia.
  destruct (perturb_order_2_within_bounds 2 _ _ _ _ _ Horder Hp)
    as (lower & upper & value & Hlower & Hupper & Hvalue & _ & Hbounds).
  vm_compute in Hlower. injection Hlower as <-.
  vm_compute in Hupper. injection Hupper as <-.
  exists p, value. split; [reflexivity|]. split; [exact Horder|].
  split; [exact Hp|]. split; [exact Hvalue|].
  apply Hbounds. unfold Qle. simpl. lia.
Defined.

Lemma init_values_total_concentration_factor_witness :
  exists v,
    init_values true [0%Q; 0%Q] [10%Q; 10%Q] [1%Q; 2%Q] [3%Q; 4%Q; 5%Q] = inr v /\
    dv_database_parameter_entry v = [3%Q; 4%Q; 1%Q] /\
    dv_parameters v = [3%Q; 4%Q; 1%Q].
Proof.
  destruct (init_values true [0%Q; 0%Q] [10%Q; 10%Q] [1%Q; 2%Q]
              [3%Q; 4%Q; 5%Q]) as [e|v] eqn:Hv;
    [vm_compute in Hv; discriminate|].
  exists v. split; [reflexivity|].
  destruct (init_values_total_concentration_factor true [0%Q; 0%Q]
              [10%Q; 10%Q] [1%Q; 2%Q] [3%Q; 4%Q; 5%Q] v Hv)
    as (model & factor & Hdict & Hentry & _ & Hparameters & _).
  vm_compute in Hdict. injection Hdict as <- _.
  split; [exact Hentry | exact Hparameters].
Defined.

Lemma f_points_interpolates_witness :
  let points := [[[0%Q; 0%Q; 0%Q; 0%Q]]; [[1%Q; 0%Q; 0%Q; 0%Q]]] in
  exists f w',
    ex_f_points [3%Q; 4%Q] points Example.empty_world = (inr f, w') /\
    length f = 2%nat /\
    ex_check_parameters [3%Q; 4%Q] = inr [3%Q; 4%Q].
Proof.
  cbv zeta.
  destruct (ex_f_points [3%Q; 4%Q]
              [[[0%Q; 0%Q; 0%Q; 0%Q]]; [[1%Q; 0%Q; 0%Q; 0%Q]]]
              Example.empty_world) as [[e|f] w'] eqn:E;
    [vm_compute in E; discriminate|].
  exists f, w'. split; [reflexivity|].
  apply f_points_interpolates in E
    as (_ & Hf & _ & model & factor & matching_run & w1 & Hcheck & _).
  split; [exact Hf | exact Hcheck].
Defined.

Lemma invalid_parameters_change_nothing_witness :
  let points := [[[0%Q; 0%Q; 0%Q; 0%Q]]; [[1%Q; 0%Q; 0%Q; 0%Q]]] in
  exists e,
    ex_check_parameters [99%Q; 4%Q] = inl e /\
    ex_f_points [99%Q; 4%Q] points Example.empty_world
    = (inl e, Example.empty_world) /\
    ex_df_points [99%Q; 4%Q] points None Example.empty_world
    = (inl e, Example.empty_world).
Proof.
  cbv zeta.
  destruct (ex_check_parameters [99%Q; 4%Q]) as [e|out] eqn:E;
    [|vm_compute in E; discriminate].
  exists e. split; [reflexivity|].
  destruct (invalid_parameters_change_nothing 10000 false [0%Q; 0%Q]
              [10%Q; 10%Q] [1%Q; 2%Q] Example.db_index Example.db_closest_index
              Example.db_closest_indices Example.metos3d (list Q)
              Example.metos3d_trajectory 2 false 1 (1 # 10) 1
              {| years := 10; tolerance := 0; combination := "or" |}
              (fun points => points) [[1]] 1 1 (list Q * nat)
              (fun files tracer_index => (files, tracer_index))
              (fun data points => map (fun _ => fold_right Qplus 0%Q data.1) points)
              (fun files tracer_index time_dim_desired => inr files)
              Example.load [99%Q; 4%Q]
              {| years := 10; tolerance := 0; combination := "or" |}
              [[[0%Q; 0%Q; 0%Q; 0%Q]]; [[1%Q; 0%Q; 0%Q; 0%Q]]] 1 None e
              Example.empty_world E)
    as (_ & _ & _ & Hpoints & _).
  exact (Hpoints eq_refl).
Defined.

Lemma f_boxes_loads_witness :
  exists f w',
    ex_f_boxes [3%Q; 4%Q] 12 Example.empty_world = (inr f, w') /\
    length f = 2%nat /\
    ex_check_parameters [3%Q; 4%Q] = inr [3%Q; 4%Q].
Proof.
  destruct (ex_f_boxes [3%Q; 4%Q] 12 Example.empty_world) as [[e|f] w'] eqn:E;
    [vm_compute in E; discriminate|].
  exists f, w'. split; [reflexivity|].
  apply f_boxes_loads in E
    as (Hf & _ & model & factor & matching_run & w1 & Hcheck & _).
  split; [exact Hf | exact Hcheck].
Defined.

(** A parameter set with a spinup run of [years] years and one partial
    derivative run started from it. *)
#[local] Abbreviation ex_world_with_derivative_run years :=
  {| db := [[3%Q; 4%Q; 1%Q]];
     fs := {[ Spinup 0 := [Some (Example.spinup_job years (1 # 11))];
              PartialDerivative 0 0 1 :=
                [Some {| job_request_of :=
                           {| req_model_parameters := [31 # 10; 4%Q];
                              req_years := 1;
                              req_tolerance := 0;
                              req_total_concentration_factor := 1;
                              req_write_trajectory := false;
                              req_tracer_input_dir := Some (Spinup 0, 0%nat);
                              req_job_setup := KindDerivative |};
                         last_year := 1;
                         last_tolerance := 1 # 2 |}] ]};
     trace := [] |}.

#[local] Abbreviation ex_derivative_values :=
  {| dv_database_parameter_entry := [3%Q; 4%Q; 1%Q];
     dv_parameters := [3%Q; 4%Q];
     dv_parameters_len := 3;
     dv_parameters_lower_bound := [0%Q; 0%Q; 0%Q];
     dv_parameters_upper_bound := [Finite 10; Finite 10; Infinity];
     dv_parameters_typical_values := [1%Q; 2%Q; 1%Q] |}.

#[local] Abbreviation ex_derivative_base base_years :=
  {| base_parameter_set_dir := 0;
     base_spinup_options :=
       {| years := base_years; tolerance := 0; combination := "or" |};
     base_spinup_matching_run_dir := Some (Spinup 0, 0%nat);
     base_f := None |}.

Lemma partial_derivative_run_reused_witness :
  let w := ex_world_with_derivative_run 10 in
  ex_init_values [3%Q; 4%Q] = inr ex_derivative_values /\
  exists st,
    ex_start_partial_derivative_run (ex_derivative_base 10) ex_derivative_values
      [1%Q; (-1)%Q] (1 # 10) 0 0 derivative_runs_empty w = (inr st, w) /\
    dr_run_dirs st !! (0%nat, 0%nat) = Some (Some (PartialDerivative 0 0 1, 0%nat)).
Proof.
  cbv zeta. split; [vm_compute; reflexivity|].
  set (p := {| pert_parameters := [31 # 10; 4%Q; 1%Q]; pert_h := 1 # 10 |}).
  assert (Hp : perturb 2 ex_derivative_values (1 # 10) 1 0 = inr p)
    by (vm_compute; reflexivity).
  destruct (partial_derivative_run_reused 10000 Example.metos3d 1 2
              (ex_derivative_base 10) ex_derivative_values [1%Q; (-1)%Q] (1 # 10)
              0 0 derivative_runs_empty 1%Q p []
              {| job_request_of :=
                   {| req_model_parameters := [31 # 10; 4%Q];
                      req_years := 1;
                      req_tolerance := 0;
                      req_total_concentration_factor := 1;
                      req_write_trajectory := false;
                      req_tracer_input_dir := Some (Spinup 0, 0%nat);
                      req_job_setup := KindDerivative |};
                 last_year := 1;
                 last_tolerance := 1 # 2 |}
              (ex_world_with_derivative_run 10) (ex_world_with_derivative_run 10)
              eq_refl Hp) as [Hrun _].
  - vm_compute. reflexivity.
  - left. simpl. lia.
  - vm_compute. reflexivity.
  - eexists. split; [exact Hrun|]. vm_compute. reflexivity.
Defined.

Lemma partial_derivative_run_replaced_then_fails_witness :
  let w := ex_world_with_derivative_run 10 in
  let first :=
    ex_start_partial_derivative_run (ex_derivative_base 20) ex_derivative_values
      [1%Q; (-1)%Q] (1 # 10) 0 0 derivative_runs_empty w in
  exists st1,
    first = (inr st1, first.2) /\
    dr_run_dirs st1 !! (0%nat, 0%nat) = Some (Some (PartialDerivative 0 0 1, 1%nat)) /\
    ex_start_partial_derivative_run (ex_derivative_base 20) ex_derivative_values
      [1%Q; (-1)%Q] (1 # 10) 0 0 derivative_runs_empty first.2
    = (inl OSError, first.2).
Proof.
  cbv zeta.
  set (first := ex_start_partial_derivative_run (ex_derivative_base 20)
                  ex_derivative_values [1%Q; (-1)%Q] (1 # 10) 0 0
                  derivative_runs_empty (ex_world_with_derivative_run 10)).
  set (p := {| pert_parameters := [31 # 10; 4%Q; 1%Q]; pert_h := 1 # 10 |}).
  assert (Hp : perturb 2 ex_derivative_values (1 # 10) 1 0 = inr p)
    by (vm_compute; reflexivity).
  destruct first.1 as [e|st1] eqn:Hst1; [vm_compute in Hst1; discriminate|].
  assert (Hfirst : first = (inr st1, first.2))
    by (rewrite <- Hst1; apply surjective_pairing).
  assert (Hentry : dr_run_dirs st1 !! (0%nat, 0%nat)
                   = Some (Some (PartialDerivative 0 0 1, 1%nat))).
  { vm_compute in Hst1. injection Hst1 as <-. vm_compute. reflexivity. }
  exists st1. split; [exact Hfirst|]. split; [exact Hentry|].
  destruct (partial_derivative_run_replaced_then_fails 10000 Example.metos3d 1 2
              (ex_derivative_base 20) ex_derivative_values [1%Q; (-1)%Q] (1 # 10)
              0 0 derivative_runs_empty 1%Q p []
              {| job_request_of :=
                   {| req_model_parameters := [31 # 10; 4%Q];
                      req_years := 1;
                      req_tolerance := 0;
                      req_total_concentration_factor := 1;
                      req_write_trajectory := false;
                      req_tracer_input_dir := Some (Spinup 0, 0%nat);
                      req_job_setup := KindDerivative |};
                 last_year := 1;
                 last_tolerance := 1 # 2 |}
              (ex_world_with_derivative_run 10) st1 first.2
              eq_refl Hp) as [_ Hfails].
  - vm_compute. reflexivity.
  - exact Hfirst.
  - rewrite Hentry. discriminate.
  - apply Hfails.
Defined.

(** ** Concrete model options *)

Lemma set_spinup_options_completes_given_witness :
  let DEFAULT : gmap string Init.option_value :=
    {[ "years" := Init.OInt 10000; "tolerance" := Init.OFloat 0;
       "combination" := Init.OStr "or" ]} in
  let given : gmap string Init.option_value := {[ "years" := Init.OInt 50 ]} in
  exists spinup_options,
    Init.set_spinup_options DEFAULT (Some given) = inr spinup_options /\
    spinup_options !! "years" = Some (Init.OInt 50) /\
    spinup_options !! "combination" = Some (Init.OStr "or").
Proof.
  cbv zeta.
  destruct (Init.set_spinup_options
              {[ "years" := Init.OInt 10000; "tolerance" := Init.OFloat 0;
                 "combination" := Init.OStr "or" ]}
              (Some {[ "years" := Init.OInt 50 ]})) as [e|spinup_options] eqn:E;
    [vm_compute in E; discriminate|].
  exists spinup_options. split; [reflexivity|].
  destruct (set_spinup_options_completes_given _ _ _ E) as [_ Hkeys].
  split; [exact (Hkeys "years") | exact (Hkeys "combination")].
Defined.


Lemma set_tolerance_options_lengths_witness :
  let given := {| Init.relative := Some [1%Q; 1%Q]; Init.absolute := None |} in
  (0 < 2)%nat /\
  exists options tolerance,
    Init.set_tolerance_options 2 false (Some given) = inr options /\
    Init.relative options = Some tolerance /\
    (length tolerance = 1%nat \/ length tolerance = 3%nat).
Proof.
  cbv zeta. split; [lia|].
  assert (H : Init.set_tolerance_options 2 false
                (Some {| Init.relative := Some [1%Q; 1%Q]; Init.absolute := None |})
              = inr {| Init.relative := Some [1%Q; 1%Q; 0%Q];
                       Init.absolute := None |})
    by (vm_compute; reflexivity).
  eexists. eexists. split; [exact H|]. split; [reflexivity|].
  destruct (set_tolerance_options_lengths 2 false _ _ ltac:(lia) H) as [Hrelative _].
  destruct (Hrelative _ eq_refl) as [Hlength _]. exact Hlength.
Defined.

Lemma job_setup_not_passed_raises_witness :
  let nodes_copy := fun _ : unit => inl Init.AttributeError in
  let nodes_getitem := fun (_ : unit) (_ : string) => inl Init.TypeError in
  let nodes_setitem :=
    fun (_ : unit) (_ : string) (_ : Init.setup_value unit) => inl Init.TypeError in
  let given : gmap string (Init.setup_value unit) :=
    {[ "name" := Init.SStr unit "run" ]} in
  exists collection,
    Init.set_job_setup_collection unit nodes_copy nodes_getitem nodes_setitem
      (Some given) = inr collection /\
    Init.job_setup unit nodes_copy nodes_getitem nodes_setitem collection
      "trajectory" = inl Init.AttributeError.
Proof.
  cbv zeta.
  destruct (Init.set_job_setup_collection unit
              (fun _ : unit => inl Init.AttributeError)
              (fun (_ : unit) (_ : string) => inl Init.TypeError)
              (fun (_ : unit) (_ : string) (_ : Init.setup_value unit) =>
                 inl Init.TypeError)
              (Some {[ "name" := Init.SStr unit "run" ]}))
    as [e|collection] eqn:E; [vm_compute in E; discriminate|].
  exists collection. split; [reflexivity|].
  destruct (job_setup_not_passed_raises unit _ _ _ _ collection "trajectory" E)
    as [_ Hraises].
  - right. reflexivity.
  - vm_compute. reflexivity.
  - intros from v [-> | ->] Hgiven; vm_compute in Hgiven; discriminate.
  - exact Hraises.
Defined.
